(** * bert_deid: window splitting and realignment of token predictions

    A shallow embedding of [bert_deid/model/transformer.py] and
    [bert_deid/model.py]: the window splitter [split_by_overlap], the
    segment splitter [_split_text_into_segments], the realignment of
    predictions with the text ([_logits_to_standoff], and the loop at
    the end of [model.py]'s [predict]) and the de-duplication of
    predictions made for one offset by several windows.

    Python integers are [Z]; Python lists and numpy arrays are lists,
    indexed the way Python indexes them (negative indices count from
    the end, an index out of range raises [IndexError]); exceptions are
    the [Raise] results of a small error monad; the feature objects the
    realignment mutates live in a store and are passed by reference. *)

From Stdlib Require Import ZArith Floats.
From stdpp Require Import base list strings gmap functions sorting.

Open Scope Z_scope.

(** ** Python and numpy primitives *)

Module Py.

(** The exceptions the modelled code can raise. *)
Inductive exn :=
| IndexError
| KeyError (k : Z)
| ValueError
| OverflowError
| TypeError
| RuntimeError.

Inductive result (A : Type) :=
| Ok (a : A)
| Raise (e : exn).
Arguments Ok {A} a.
Arguments Raise {A} e.

Definition bind {A B} (r : result A) (k : A → result B) : result B :=
  match r with
  | Ok a => k a
  | Raise e => Raise e
  end.

(** [[f x for x in l]]: the first exception aborts the comprehension. *)
Fixpoint for_each {A B} (f : A → result B) (l : list A) : result (list B) :=
  match l with
  | [] => Ok []
  | x :: l' =>
      bind (f x) (λ y, bind (for_each f l') (λ ys, Ok (y :: ys)))
  end.

(** The position [l[i]] denotes in a sequence of [len] items. *)
Definition position (len : nat) (i : Z) : option nat :=
  if bool_decide (0 ≤ i < Z.of_nat len) then Some (Z.to_nat i)
  else if bool_decide (- Z.of_nat len ≤ i < 0) then Some (Z.to_nat (i + Z.of_nat len))
  else None.

(** [l[i]] *)
Definition getitem {A} (l : list A) (i : Z) : result A :=
  match position (length l) i with
  | Some k => match l !! k with Some x => Ok x | None => Raise IndexError end
  | None => Raise IndexError
  end.

(** [l[i] = x] *)
Definition setitem {A} (l : list A) (i : Z) (x : A) : result (list A) :=
  match position (length l) i with
  | Some k => Ok (<[k := x]> l)
  | None => Raise IndexError
  end.

(** [range(start, stop, step)]; a zero step raises [ValueError]. *)
Fixpoint range_from (start step : Z) (count : nat) : list Z :=
  match count with
  | O => []
  | S c => start :: range_from (start + step) step c
  end.

Definition range_len (start stop step : Z) : Z :=
  if bool_decide (0 < step) then
    if bool_decide (start < stop) then (stop - start - 1) / step + 1 else 0
  else
    if bool_decide (stop < start) then (start - stop - 1) / (- step) + 1 else 0.

Definition range (start stop step : Z) : result (list Z) :=
  if bool_decide (step = 0) then Raise ValueError
  else Ok (range_from start step (Z.to_nat (range_len start stop step))).

(** [enumerate(l)] *)
Definition enumerate {A} (l : list A) : list (Z * A) :=
  imap (λ i x, (Z.of_nat i, x)) l.

(** [text[start:stop]] on a string, with Python's clamping. *)
Definition clamp (len i : Z) : Z :=
  if bool_decide (i < 0) then Z.max 0 (i + len) else Z.min i len.

Definition slice (text : string) (start stop : Z) : string :=
  let len := Z.of_nat (String.length text) in
  let a := clamp len start in
  let b := clamp len stop in
  String.substring (Z.to_nat a) (Z.to_nat (b - a)) text.

End Py.

Import Py.

Notation "x <- r ;; k" := (Py.bind r (λ x, k))
  (at level 100, r at next level, right associativity, only parsing).

(** ** numpy.unique *)

(** [np.unique(a)]: the distinct values of [a] in ascending order. *)
Fixpoint insert_unique (v : Z) (l : list Z) : list Z :=
  match l with
  | [] => [v]
  | x :: l' =>
      if bool_decide (v < x) then v :: l
      else if bool_decide (v = x) then l
      else x :: insert_unique v l'
  end.

Definition np_unique (a : list Z) : list Z := foldr insert_unique [] a.

(** The index of the first occurrence of [v] in [a] ([length a] when
    there is none). *)
Fixpoint first_index (v : Z) (a : list Z) : nat :=
  match a with
  | [] => O
  | x :: a' => if bool_decide (x = v) then O else S (first_index v a')
  end.

(** [np.unique(a, return_index=True)[1]]: for each distinct value, in
    ascending order of the values, the index of its first occurrence. *)
Definition np_unique_index (a : list Z) : list Z :=
  (λ v, Z.of_nat (first_index v a)) <$> np_unique a.

(** The index computation shared by both files:
<<
    offsets.reverse()
    _, unique_idx = np.unique(offsets, return_index=True)
    unique_idx = len(offsets) - unique_idx - 1
>> *)
Definition last_unique_idx (offsets : list Z) : list Z :=
  (λ k, Z.of_nat (length offsets) - k - 1) <$> np_unique_index (reverse offsets).

(** ** Subword length extension *)

(** The loop of both files:
<<
    for j in reversed(range(len(subwords))):
        if subwords[j]:
            lengths[j - 1] += lengths[j]
>>
    [extend_from j] runs the iterations for positions [j-1], ..., [0].
    At position 0 the index [j - 1] is [-1], Python's last item. *)
Fixpoint extend_from (j : nat) (subwords : list bool) (lengths : list Z)
  : result (list Z) :=
  match j with
  | O => Ok lengths
  | S j' =>
      match subwords !! j' with
      | Some true =>
          a <- getitem lengths (Z.of_nat j' - 1) ;;
          b <- getitem lengths (Z.of_nat j') ;;
          lengths' <- setitem lengths (Z.of_nat j' - 1) (a + b) ;;
          extend_from j' subwords lengths'
      | _ => extend_from j' subwords lengths
      end
  end.

Definition extend_lengths (subwords : list bool) (lengths : list Z)
  : result (list Z) :=
  extend_from (length subwords) subwords lengths.

(** ** The window splitter ([split_by_overlap], the same in both files) *)

(** What [self.tokenizer.tokenize_with_index(text)] returns: the tokens,
    a flag per token (1 for a subword continuation) and a
    [(start, stop)] pair of character offsets per token. The tokenizer
    itself is outside the modelled files and is a parameter below. *)
Record tokenized := {
  tokens : list string;
  tokens_sw : list Z;
  tokens_idx : list (Z * Z)
}.

(** [np.array(tokens_sw) == 1] *)
Definition sw_mask (tokens_sw : list Z) : list bool :=
  (λ s, bool_decide (s = 1)) <$> tokens_sw.

(** [np.where(~mask, np.arange(mask.shape[0]), 0)] *)
Definition where_not (mask : list bool) : list Z :=
  imap (λ i (m : bool), if m then 0 else Z.of_nat i) mask.

(** [np.maximum.accumulate(idx, axis=0, out=idx)] *)
Fixpoint accumulate_from (acc : Z) (l : list Z) : list Z :=
  match l with
  | [] => []
  | x :: l' => Z.max acc x :: accumulate_from (Z.max acc x) l'
  end.

Definition maximum_accumulate (l : list Z) : list Z :=
  match l with
  | [] => []
  | x :: l' => x :: accumulate_from x l'
  end.

(** [tokens_start[mask] = tokens_start[idx[mask]]]: the right-hand side
    is read from the array before any position is written; a mask that
    is not as long as the array raises [IndexError], except the mask
    of no entry: numpy does not check the length of a boolean index
    of length 0, which selects nothing, and the array stays as it
    is. *)
Definition forward_fill (tokens_start : list Z) (mask : list bool) (idx : list Z)
  : result (list Z) :=
  if bool_decide (mask = []) then Ok tokens_start
  else if bool_decide (length mask = length tokens_start) then
    for_each
      (λ '(s, (m, k)), if (m : bool) then getitem tokens_start k else Ok s)
      (zip tokens_start (zip mask idx))
  else Raise IndexError.

(** Lines 118-127: the start offset of each token, a continuation
    token taking the start of the word it continues. *)
Definition snapped_starts (t : tokenized) : result (list Z) :=
  let tokens_start := fst <$> tokens_idx t in
  let mask := sw_mask (tokens_sw t) in
  let idx := maximum_accumulate (where_not mask) in
  forward_fill tokens_start mask idx.

(** An example: sentence number, start index, end index, text. *)
Definition example : Type := Z * Z * Z * string.

Definition example_start (e : example) : Z := e.1.1.2.
Definition example_stop (e : example) : Z := e.1.2.

Definition text_len (text : string) : Z := Z.of_nat (String.length text).

Section Splitter.

Variable tokenize_with_index : string → tokenized.

(** The [[start, stop]] pairs of lines 129-144. *)
Definition seq_offsets (text : string) (t : tokenized)
    (token_step_size sequence_length : Z) : result (list (Z * Z)) :=
  tokens_start <- snapped_starts t ;;
  if bool_decide (Z.of_nat (length (tokens t)) ≤ sequence_length) then
    s0 <- getitem tokens_start 0 ;;
    Ok [(s0, text_len text)]
  else
    xs <- range 0 (Z.of_nat (length (tokens t)) - sequence_length)
            token_step_size ;;
    last <- getitem xs (-1) ;;
    let last_offset := last + token_step_size in
    ws <- for_each
            (λ x, a <- getitem tokens_start x ;;
                  b <- getitem tokens_start (x + sequence_length) ;;
                  Ok (a, b))
            xs ;;
    e <- getitem tokens_start last_offset ;;
    Ok (ws ++ [(e, text_len text)]).

Definition split_by_overlap (text : string)
    (token_step_size sequence_length : Z) : result (list example) :=
  let t := tokenize_with_index text in
  if bool_decide (length (tokens_idx t) = 0%nat) then Ok []
  else
    offs <- seq_offsets text t token_step_size sequence_length ;;
    Ok ((λ '(i, (start, stop)), (i, start, stop, slice text start stop))
          <$> enumerate offs).

End Splitter.

(** ** Floating point: scores and the overlap fraction *)

(** [int(x)] on a Python float: truncation towards zero; an infinity
    raises [OverflowError] and a NaN [ValueError]. *)
Definition int_of_float (x : float) : result Z :=
  match Prim2SF x with
  | S754_zero _ => Ok 0
  | S754_finite s m e =>
      let mag := if bool_decide (0 ≤ e) then Z.pos m * 2 ^ e
                 else Z.pos m / 2 ^ (- e) in
      Ok (if s then - mag else mag)
  | S754_infinity _ => Raise OverflowError
  | S754_nan => Raise ValueError
  end.

(** The float of a Python integer, as [x * n] converts [n]: the
    nearest float, ties to even; an integer beyond the range of the
    floats raises [OverflowError]. *)
Definition float_of_int (z : Z) : result float :=
  match SpecFloat.binary_normalize FloatOps.prec FloatOps.emax z 0 false with
  | S754_infinity _ => Raise OverflowError
  | x => Ok (SF2Prim x)
  end.

(** [np.argmax] and [np.max] along the last axis, as numpy computes
    them: the first maximum wins, a NaN wins over everything after it;
    an empty axis raises [ValueError]. *)
Fixpoint argmax_from (best : float) (best_i i : Z) (row : list float) : Z :=
  match row with
  | [] => best_i
  | x :: row' =>
      if PrimFloat.is_nan best then best_i
      else if PrimFloat.leb x best then argmax_from best best_i (i + 1) row'
      else argmax_from x i (i + 1) row'
  end.

Definition argmax (row : list float) : result Z :=
  match row with
  | [] => Raise ValueError
  | x :: row' => Ok (argmax_from x 0 1 row')
  end.

Definition amax (row : list float) : result float :=
  i <- argmax row ;; getitem row i.

(** ** transformer.py *)

Module transformer_py.

(** The [InputFeatures] dataclass. *)
Record InputFeatures := {
  input_ids : list Z;
  attention_mask : list Z;
  token_type_ids : option (list Z);
  label_ids : option (list Z);
  input_subwords : list bool;
  offsets : list Z;
  lengths : list Z
}.

Definition with_lengths (f : InputFeatures) (l : list Z) : InputFeatures :=
  {| input_ids := input_ids f;
     attention_mask := attention_mask f;
     token_type_ids := token_type_ids f;
     label_ids := label_ids f;
     input_subwords := input_subwords f;
     offsets := offsets f;
     lengths := l |}.

(** Feature objects are passed by reference: [inputs] is a list of
    references into a store, and the store is threaded through the
    code that writes to the objects. *)
Definition ref : Type := nat.
Definition store : Type := ref → InputFeatures.

(** A prediction: [[pred_prob, pred_label, offset, length]]. *)
Definition label : Type := float * string * Z * Z.

(** [l[2]] *)
Definition label_offset (l : label) : Z := l.1.2.

(** Lines 289-294: one prediction per offset.
<<
    offsets = [l[2] for l in labels]
    offsets.reverse()
    _, unique_idx = np.unique(offsets, return_index=True)
    unique_idx = len(offsets) - unique_idx - 1
    labels = [labels[i] for i in unique_idx]
>> *)
Definition unique_labels (labels : list label) : result (list label) :=
  let offsets := label_offset <$> labels in
  for_each (getitem labels) (last_unique_idx offsets).

(** [mask == n] where [mask] is a Python list, as the fields of a
    feature object are: a list and an integer are never equal, and
    the comparison is the one value [False], not a comparison entry
    by entry as for a numpy array. *)
Definition list_eq_int (mask : list Z) (n : Z) : bool := false.

(** [b & a] for a Python bool [b] and a boolean array [a]: numpy
    takes [b] with every entry of [a]. *)
Definition np_and (b : bool) (a : list bool) : list bool := andb b <$> a.

(** [l[i, p]] where [l] is a Python list: a list takes an integer or
    a slice as its index, a pair raises [TypeError]. *)
Definition getitem_pair {A} (l : list A) (i p : Z) : result A :=
  Raise TypeError.

(** [np.where(cond)[0]]: the positions where [cond] holds. *)
Definition np_where (cond : list bool) : list Z :=
  omap (λ '(i, c), if (c : bool) then Some i else None) (enumerate cond).

Section Standoff.

(** [self.config.id2label] *)
Variable id2label : gmap Z string.

Definition lookup_label (p : Z) : result string :=
  match id2label !! p with
  | Some l => Ok l
  | None => Raise (KeyError p)
  end.

(** Lines 266-281 for window [i], after the lengths were extended;
    [pred_id] and [pred_prob] are the rows [pred_id[i, :]] and
    [pred_prob[i, :]] of the window. The attention mask, the offsets
    and the lengths are the lists of the feature object:
<<
    pred_label = [self.config.id2label[p] for p in pred_id[i, :]]
    idxObject = np.asarray([p == ignore_label
                            for p in pred_label]).astype(bool)
    idxKeep = np.where((mask == 1) & idxObject)[0]
    labels.extend(
        [[pred_prob[i, p], pred_label[p], offsets[i, p], lengths[i, p]]
         for p in idxKeep])
>> *)
Definition window_labels (i : Z) (mask offsets lengths : list Z)
    (pred_id : list Z) (pred_prob : list float) (ignore_label : string)
  : result (list label) :=
  pred_label <- for_each lookup_label pred_id ;;
  let idxObject := (λ p, bool_decide (p = ignore_label)) <$> pred_label in
  let idxKeep := np_where (np_and (list_eq_int mask 1) idxObject) in
  for_each
    (λ p, pr <- getitem pred_prob p ;;
          lb <- getitem pred_label p ;;
          o <- getitem_pair offsets i p ;;
          l <- getitem_pair lengths i p ;;
          Ok (pr, lb, o, l))
    idxKeep.

(** The body of the loop over the windows (lines 250-281) for
    window [i]: the lengths of the feature object [inputs[i]] are
    extended in place, then the predictions to keep are collected.
    An [IndexError] of the extension is raised before the first
    write, so the store is unchanged then. *)
Definition window_step (st : store) (inputs : list ref) (i : Z)
    (pred_id : list Z) (pred_prob : list float) (ignore_label : string)
  : store * result (list label) :=
  match getitem inputs i with
  | Raise e => (st, Raise e)
  | Ok r =>
      let f := st r in
      match extend_lengths (input_subwords f) (lengths f) with
      | Raise e => (st, Raise e)
      | Ok lengths' =>
          (<[r := with_lengths f lengths']> st,
           window_labels i (attention_mask f) (offsets f) lengths'
             pred_id pred_prob ignore_label)
      end
  end.

(** [for i in range(logits.shape[0])], from window [i] on; [rows]
    holds the predictions of the windows still to do. *)
Fixpoint windows_loop (st : store) (inputs : list ref) (i : Z)
    (rows : list (list Z * list float)) (ignore_label : string)
    (labels : list label) : store * result (list label) :=
  match rows with
  | [] => (st, Ok labels)
  | (pred_id, pred_prob) :: rows' =>
      match window_step st inputs i pred_id pred_prob ignore_label with
      | (st', Ok ls) =>
          windows_loop st' inputs (i + 1) rows' ignore_label (labels ++ ls)
      | (st', Raise e) => (st', Raise e)
      end
  end.

Definition _logits_to_standoff (st : store)
    (logits : list (list (list float))) (inputs : list ref)
    (ignore_label : string) : store * result (list label) :=
  match for_each (for_each argmax) logits,
        for_each (for_each amax) logits with
  | Ok pred_id, Ok pred_prob =>
      match windows_loop st inputs 0 (zip pred_id pred_prob)
              ignore_label [] with
      | (st', Ok labels) => (st', unique_labels labels)
      | (st', Raise e) => (st', Raise e)
      end
  | Raise e, _ => (st, Raise e)
  | _, Raise e => (st, Raise e)
  end.

End Standoff.

(** Lines 96-98 of [__init__]: the labels in the order of their ids.
<<
    label_map = self.config.id2label
    self.labels = [label_map[i] for i in range(len(label_map))]
>> *)
Definition labels (label_map : gmap Z string) : result (list string) :=
  xs <- range 0 (Z.of_nat (size label_map)) 1 ;;
  for_each (lookup_label label_map) xs.

(** *** The segment splitter *)

(** What the tokenizer's [encode] returns. *)
Record Encoding := {
  enc_tokens : list string;
  enc_ids : list Z;
  enc_words : list (option Z);
  enc_offsets : list (Z * Z);
  enc_attention_mask : list Z;
  enc_type_ids : list Z
}.

(** [[False] + [words[i + 1] == words[i] for i in range(len(words) - 1)]] *)
Definition token_sw (words : list (option Z)) : list bool :=
  false :: zip_with (λ w w', bool_decide (w' = w)) words (drop 1 words).

(** [start_idx[~np.array(token_sw), :]] on [np.array(encoded.offsets)]:
    the rows of the tokens that are not subwords. An empty list of
    offsets is an array of one dimension, and a mask of another
    length does not fit: both raise [IndexError]. *)
Definition not_subword_rows (offs : list (Z * Z)) (sw : list bool)
  : result (list (Z * Z)) :=
  if bool_decide (offs = []) then Raise IndexError
  else if bool_decide (length sw = length offs) then
    Ok (omap (λ '(o, s), if (s : bool) then None else Some o) (zip offs sw))
  else Raise IndexError.

(** *** The tensors of the features *)

(** [torch.tensor(rows, dtype=torch.long)] on a list of rows. The
    tensor takes its shape from the first row, and the rows are
    then stored one after the other, entry by entry: a row of
    another length than the first raises [ValueError], a row that
    is no sequence ([None]) [TypeError], and an entry that is no
    64-bit integer [RuntimeError]. A tensor is given by its rows. *)
Definition tensor_row (n : nat) (row : option (list Z)) : result (list Z) :=
  match row with
  | None => Raise TypeError
  | Some row =>
      if bool_decide (length row = n) then
        if bool_decide (Forall (λ x, - 2 ^ 63 ≤ x < 2 ^ 63) row) then Ok row
        else Raise RuntimeError
      else Raise ValueError
  end.

Definition tensor (rows : list (option (list Z))) : result (list (list Z)) :=
  match rows with
  | Some row :: _ => for_each (tensor_row (length row)) rows
  | _ => for_each (tensor_row O) rows
  end.

(** [_features_to_tensor], lines 221-234. *)
Definition _features_to_tensor (inputs : list InputFeatures)
  : result (list (list Z) * list (list Z) * list (list Z)) :=
  input_ids <- tensor (Some <$> (input_ids <$> inputs)) ;;
  attention_mask <- tensor (Some <$> (attention_mask <$> inputs)) ;;
  token_type_ids <- tensor (token_type_ids <$> inputs) ;;
  Ok (input_ids, attention_mask, token_type_ids).

Section Segments.

(** The tokenizer: [encode(text, add_special_tokens)],
    [encoded.pad(length)] and its two length limits. *)
Variable encode : string → bool → Encoding.
Variable pad : Encoding → Z → Encoding.
Variable max_len_single_sentence : Z.
Variable model_max_length : Z.

(** Lines 176-182. *)
Definition seq_len (feature_overlap : option float) : result Z :=
  match feature_overlap with
  | None => Ok max_len_single_sentence
  | Some f =>
      x <- float_of_int max_len_single_sentence ;;
      int_of_float ((1 - f) * x)%float
  end.

(** Lines 185-193: the rows that start a sub-sequence, followed by
    [[len(text), 0]]. The quotient [start / max_len] is taken in
    floating point and floored; for the offsets of a text and a
    positive [max_len] this is the integer quotient. *)
Definition new_seq_idx (text : string) (start_idx : list (Z * Z))
  : result (list (Z * Z)) :=
  let block := (λ o : Z * Z, o.1 / max_len_single_sentence) <$> start_idx in
  rows <- for_each (getitem start_idx) (np_unique_index block) ;;
  Ok (rows ++ [(text_len text, 0)]).

(** The body of the loop of lines 199-218 for sub-sequence [i]. *)
Definition segment (text : string) (idx : list (Z * Z)) (i : Z)
  : result InputFeatures :=
  row <- getitem idx i ;;
  let seq_start_offset := row.1 in
  next <- getitem idx (i + 1) ;;
  let text_subseq := slice text seq_start_offset next.1 in
  let encoded := pad (encode text_subseq true) model_max_length in
  Ok {| input_ids := enc_ids encoded;
        attention_mask := enc_attention_mask encoded;
        token_type_ids := Some (enc_type_ids encoded);
        label_ids := None;
        input_subwords := token_sw (enc_words encoded);
        offsets := (λ o : Z * Z, o.1 + seq_start_offset) <$> enc_offsets encoded;
        lengths := (λ o : Z * Z, o.2 - o.1) <$> enc_offsets encoded |}.

Definition _split_text_into_segments (text : string)
    (feature_overlap : option float) : result (list InputFeatures) :=
  let encoded := encode text false in
  let sw := token_sw (enc_words encoded) in
  start_idx <- not_subword_rows (enc_offsets encoded) sw ;;
  _ <- seq_len feature_overlap ;;
  idx <- new_seq_idx text start_idx ;;
  let n_subseq := (length idx - 1)%nat in
  xs <- range 0 (Z.of_nat n_subseq) 1 ;;
  for_each (segment text idx) xs.

(** *** predict *)

(** [self.model]: from the input ids, attention masks and token
    type ids of the windows to the logits. *)
Variable model :
  list (list Z) → list (list Z) → list (option (list Z)) →
  list (list (list float)).
Variable id2label : gmap Z string.

(** The features made for one call are new objects: they are put
    in a store of their own, object [k] at reference [k]. *)
Definition store_of (inputs : list InputFeatures) : store :=
  λ r, default {| input_ids := []; attention_mask := [];
                  token_type_ids := None; label_ids := None;
                  input_subwords := []; offsets := []; lengths := [] |}
         (inputs !! r).

Definition predict (text : string) (feature_overlap : option float)
  : result (list label) :=
  inputs <- _split_text_into_segments text feature_overlap ;;
  tensors <- _features_to_tensor inputs ;;
  let '(input_ids, attention_mask, token_type_ids) := tensors in
  let logits := model input_ids attention_mask (Some <$> token_type_ids) in
  (_logits_to_standoff id2label (store_of inputs) logits
     (seq 0 (length inputs)) "O").2.

End Segments.

End transformer_py.

(** ** model.py *)

Module model_py.

(** The attributes of a feature the realignment reads or writes. *)
Record InputFeatures := {
  label_ids : list Z;
  input_offsets : list Z;
  input_lengths : list Z;
  input_subwords : list bool
}.

Definition with_lengths (f : InputFeatures) (l : list Z) : InputFeatures :=
  {| label_ids := label_ids f;
     input_offsets := input_offsets f;
     input_lengths := l;
     input_subwords := input_subwords f |}.

Definition ref : Type := nat.
Definition store : Type := ref → InputFeatures.

(** [[x for i, x in enumerate(l) if i in idx]] *)
Definition keep_at {A} (idx : list Z) (l : list A) : list A :=
  omap (λ '(i, x), if bool_decide (i ∈ idx) then Some x else None)
    (enumerate l).

(** [np.nonzero(np.isin(ids, special, invert=True))[0]] *)
Definition not_special (special_token_ids : gset Z) (ids : list Z) : list Z :=
  omap (λ '(i, x), if bool_decide (x ∈ special_token_ids) then None else Some i)
    (enumerate ids).

Section Realign.

(** A row of logits: the scores of one position. *)
Context {row : Type}.

Variable special_token_ids : gset Z.

(** Lines 365-374: one prediction per offset.
<<
    offsets.reverse()
    _, unique_idx = np.unique(offsets, return_index=True)
    unique_idx = len(offsets) - unique_idx - 1
    offsets.reverse()
    offsets = [x for i, x in enumerate(offsets) if i in unique_idx]
    lengths = [x for i, x in enumerate(lengths) if i in unique_idx]
    preds = preds[unique_idx, :]
>> *)
Definition unique_predictions (preds : list row) (lengths offsets : list Z)
  : result (list row * list Z * list Z) :=
  let unique_idx := last_unique_idx offsets in
  let offsets' := keep_at unique_idx offsets in
  let lengths' := keep_at unique_idx lengths in
  preds' <- for_each (getitem preds) unique_idx ;;
  Ok (preds', lengths', offsets').

(** The body of the loop of lines 332-355 for feature [f]: what it
    appends to [preds], [offsets] and [lengths]; the lengths of the
    feature object are extended in place. *)
Definition feature_step (st : store) (features : list ref) (f : Z)
    (logits : list (list row)) (out_label_ids : list (list Z))
  : store * result (list row * list Z * list Z) :=
  match getitem features f with
  | Raise e => (st, Raise e)
  | Ok r =>
      let feature := st r in
      match
        ids <- getitem out_label_ids f ;;
        let idxKeep := not_special special_token_ids ids in
        rows <- getitem logits f ;;
        kept <- for_each (getitem rows) idxKeep ;;
        Ok (idxKeep, kept)
      with
      | Raise e => (st, Raise e)
      | Ok (idxKeep, kept) =>
          let offs := keep_at idxKeep (input_offsets feature) in
          match extend_lengths (input_subwords feature)
                  (input_lengths feature) with
          | Raise e => (st, Raise e)
          | Ok feature_lengths =>
              (<[r := with_lengths feature feature_lengths]> st,
               Ok (kept, offs, keep_at idxKeep feature_lengths))
          end
      end
  end.

(** [for f, feature in enumerate(features)], from feature [f] on;
    [todo] counts the features still to do. *)
Fixpoint features_loop (st : store) (features : list ref) (f : Z)
    (todo : nat) (logits : list (list row)) (out_label_ids : list (list Z))
    (acc : list (list row) * list Z * list Z)
  : store * result (list (list row) * list Z * list Z) :=
  match todo with
  | O => (st, Ok acc)
  | S todo' =>
      match feature_step st features f logits out_label_ids with
      | (st', Ok (kept, offs, lens)) =>
          let '(preds, offsets, lengths) := acc in
          features_loop st' features (f + 1) todo' logits out_label_ids
            (preds ++ [kept], offsets ++ offs, lengths ++ lens)
      | (st', Raise e) => (st', Raise e)
      end
  end.

(** [np.concatenate(preds, axis=0)]: an empty list of arrays raises
    [ValueError]. *)
Definition np_concatenate (preds : list (list row)) : result (list row) :=
  match preds with
  | [] => Raise ValueError
  | _ => Ok (concat preds)
  end.

(** Lines 330-376 of [predict]: the realignment of the predictions
    with the text, from the features, the logits and the label ids
    of the batches. *)
Definition realign (st : store) (features : list ref)
    (logits : list (list row)) (out_label_ids : list (list Z))
  : store * result (list row * list Z * list Z) :=
  match features_loop st features 0 (length features) logits
          out_label_ids ([], [], []) with
  | (st', Ok (preds, offsets, lengths)) =>
      (st', preds <- np_concatenate preds ;;
            unique_predictions preds lengths offsets)
  | (st', Raise e) => (st', Raise e)
  end.

End Realign.

(** Lines 169-171 of [__init__]: the label of every id. [label2id]
    is the dictionary read from [label2id.json], given by its items
    in the order of the file; the keys of a dictionary are distinct,
    so that the loop over the keys is the loop over the items.
<<
    self.id2label = {}
    for label in self.label2id.keys():
        self.id2label[self.label2id[label]] = label
>> *)
Definition id2label (label2id : list (string * Z)) : gmap Z string :=
  foldl (λ m '(label, i), <[i := label]> m) ∅ label2id.

End model_py.


(** ** Vocabulary of the statements *)

(** Candidate [s] at position [i] of [l] is the last one with its key
    (its offset): no later candidate has the same key. *)
Definition last_candidate {A} (key : A → Z) (l : list A) (i : nat) (s : A) : Prop :=
  l !! i = Some s ∧ ∀ j s', (i < j)%nat → l !! j = Some s' → key s' ≠ key s.

(** The lengths after the extension, by recursion on the positions:
    a position takes the extended length of its successor when the
    successor is a subword continuation. *)
Fixpoint extended (subwords : list bool) (lengths : list Z) : list Z :=
  match lengths with
  | [] => []
  | l :: lengths' =>
      let rest := extended (tail subwords) lengths' in
      (l + match tail subwords, rest with
           | true :: _, e :: _ => e
           | _, _ => 0
           end) :: rest
  end.

(** The index of the token whose start a token takes in the forward
    fill: itself when it is not a continuation, otherwise the nearest
    token before it that is not one, and token 0 when there is none. *)
Fixpoint word_start (mask : list bool) (j : nat) : nat :=
  match j with
  | O => O
  | S j' =>
      match mask !! j with
      | Some true => word_start mask j'
      | _ => j
      end
  end.

(** The start offsets after the forward fill. *)
Definition snapped (mask : list bool) (tokens_start : list Z) : list Z :=
  imap (λ j s, default s (tokens_start !! word_start mask j)) tokens_start.

(** The windows of a long text, from the token index [x] on: [count]
    windows of [sequence_length] tokens, [token_step_size] tokens
    apart, and the last one up to the end of the text. [starts] are
    the snapped start offsets. *)
Fixpoint windows_from (starts : list Z) (len_text step_size seq_length : Z)
    (x : Z) (count : nat) : list (Z * Z) :=
  let start_at z := default 0 (starts !! Z.to_nat z) in
  match count with
  | O => [(start_at x, len_text)]
  | S c =>
      (start_at x, start_at (x + seq_length))
        :: windows_from starts len_text step_size seq_length (x + step_size) c
  end.

(** *** Example data *)

(** A label map with the non-entity label and one entity label. *)
Definition id2label_example : gmap Z string := {[ 0 := "O"; 1 := "NAME" ]}.



(** Logits that predict label 1 ("NAME") for the first token and
    label 0 ("O") for the second. *)
Definition logits_example : list (list (list float)) :=
  [[[0; 1]; [1; 0]]]%float.

(** A toy tokenizer on the text "ab cd ef": words split at blanks,
    [[CLS]] and [[SEP]] around the tokens when special tokens are
    asked for, and padding with [[PAD]] up to the given length. *)
Definition encoding_of (special : bool) (toks : list (string * Z * (Z * Z)))
  : transformer_py.Encoding :=
  let cls := if special then [("[CLS]", 101, None, (0, 0))] else [] in
  let sep := if special then [("[SEP]", 102, None, (0, 0))] else [] in
  let body := imap (λ i '(t, id, o), (t, id, Some (Z.of_nat i), o)) toks in
  let all := cls ++ body ++ sep in
  {| transformer_py.enc_tokens := (λ x, x.1.1.1) <$> all;
     transformer_py.enc_ids := (λ x, x.1.1.2) <$> all;
     transformer_py.enc_words := (λ x, x.1.2) <$> all;
     transformer_py.enc_offsets := (λ x, x.2) <$> all;
     transformer_py.enc_attention_mask := (λ _, 1) <$> all;
     transformer_py.enc_type_ids := (λ _, 0) <$> all |}.

Definition encode_example (text : string) (special : bool)
  : transformer_py.Encoding :=
  if bool_decide (text = "ab cd ef") then
    encoding_of special [("ab", 1, (0, 2)); ("cd", 2, (3, 5)); ("ef", 3, (6, 8))]
  else if bool_decide (text = "ab cd ") then
    encoding_of special [("ab", 1, (0, 2)); ("cd", 2, (3, 5))]
  else if bool_decide (text = "ef") then
    encoding_of special [("ef", 3, (0, 2))]
  else encoding_of special [].

Definition pad_example (e : transformer_py.Encoding) (n : Z)
  : transformer_py.Encoding :=
  let k := (Z.to_nat n - length (transformer_py.enc_ids e))%nat in
  {| transformer_py.enc_tokens := transformer_py.enc_tokens e ++ replicate k "[PAD]";
     transformer_py.enc_ids := transformer_py.enc_ids e ++ replicate k 0;
     transformer_py.enc_words := transformer_py.enc_words e ++ replicate k None;
     transformer_py.enc_offsets := transformer_py.enc_offsets e ++ replicate k (0, 0);
     transformer_py.enc_attention_mask :=
       transformer_py.enc_attention_mask e ++ replicate k 0;
     transformer_py.enc_type_ids := transformer_py.enc_type_ids e ++ replicate k 0 |}.

(** A model that scores label 0 highest at every position. *)
Definition model_example (input_ids attention_mask : list (list Z))
    (token_type_ids : list (option (list Z))) : list (list (list float)) :=
  (λ ids : list Z, (λ _, [1; 0]%float) <$> ids) <$> input_ids.

(** The tokenizer of the window splitter on the same text; the second
    one puts a blank before the text. *)
Definition tokenize_example (text : string) : tokenized :=
  if bool_decide (text = "ab cd ef") then
    {| tokens := ["ab"; "cd"; "ef"]; tokens_sw := [0; 0; 0];
       tokens_idx := [(0, 2); (3, 5); (6, 8)] |}
  else if bool_decide (text = " a") then
    {| tokens := ["a"]; tokens_sw := [0]; tokens_idx := [(1, 2)] |}
  else {| tokens := []; tokens_sw := []; tokens_idx := [] |}.

(** A tokenizer that splits "unhappy" into "un" and the continuation
    "happy". *)
Definition tokenize_subword_example (text : string) : tokenized :=
  if bool_decide (text = "unhappy day") then
    {| tokens := ["un"; "##happy"; "day"]; tokens_sw := [0; 1; 0];
       tokens_idx := [(0, 2); (2, 7); (8, 11)] |}
  else {| tokens := []; tokens_sw := []; tokens_idx := [] |}.

(** The features of the two segments the toy tokenizer makes of
    "ab cd ef" with segments of at most 6 characters, padded to 6
    positions. *)
Definition inputs_example : list transformer_py.InputFeatures :=
  Eval vm_compute in
    match transformer_py._split_text_into_segments encode_example pad_example
            6 6 "ab cd ef" None with
    | Ok inputs => inputs
    | Raise _ => []
    end.

(** A window with the word "Smith" at offset 5 split into "Sm" and
    the continuation "ith". *)
Definition feature_subword_example : transformer_py.InputFeatures :=
  {| transformer_py.input_ids := [7; 8];
     transformer_py.attention_mask := [1; 1];
     transformer_py.token_type_ids := Some [0; 0];
     transformer_py.label_ids := None;
     transformer_py.input_subwords := [false; true];
     transformer_py.offsets := [5; 7];
     transformer_py.lengths := [2; 3] |}.

(** A feature of [model.py]: [[CLS]], "un" at offset 0, its
    continuation "happy" at offset 2, and [[SEP]]; the ids 101, 102
    and 0 are those of the special tokens. *)
Definition model_feature_example : model_py.InputFeatures :=
  {| model_py.label_ids := [101; 5; 5; 102];
     model_py.input_offsets := [0; 0; 2; 0];
     model_py.input_lengths := [0; 2; 5; 0];
     model_py.input_subwords := [false; false; true; false] |}.

Definition model_store_example : model_py.store := λ _, model_feature_example.

Definition special_example : gset Z := {[ 101; 102; 0 ]}.

(** * Properties *)

(** ** Indexing and comprehensions *)

Lemma position_nat (len k : nat) :
  (k < len)%nat → position len (Z.of_nat k) = Some k.
Proof.
  intros Hk. unfold position.
  rewrite bool_decide_eq_true_2 by lia. by rewrite Nat2Z.id.
Qed.

Lemma position_Some (len : nat) (i : Z) (k : nat) :
  position len i = Some k → (k < len)%nat.
Proof.
  unfold position. repeat case_bool_decide; intros; simplify_eq; lia.
Qed.

Lemma getitem_nat {A} (l : list A) (k : nat) (x : A) :
  l !! k = Some x → getitem l (Z.of_nat k) = Ok x.
Proof.
  intros Hk. unfold getitem.
  rewrite position_nat by (by eapply lookup_lt_Some). by rewrite Hk.
Qed.

Lemma getitem_Ok {A} (l : list A) (i : Z) (x : A) :
  getitem l i = Ok x → ∃ k, position (length l) i = Some k ∧ l !! k = Some x.
Proof.
  unfold getitem. destruct (position _ _) as [k|]; [|done].
  destruct (l !! k) eqn:E; [|done]. intros [= ->]. eauto.
Qed.

Lemma getitem_elem_of {A} (l : list A) (i : Z) (x : A) :
  getitem l i = Ok x → x ∈ l.
Proof.
  intros (k & _ & Hk)%getitem_Ok. by eapply list_elem_of_lookup_2.
Qed.

Lemma getitem_in_range {A} (l : list A) (i : Z) :
  0 ≤ i < Z.of_nat (length l) → ∃ x, getitem l i = Ok x ∧ l !! Z.to_nat i = Some x.
Proof.
  intros Hi. destruct (lookup_lt_is_Some_2 l (Z.to_nat i)) as [x Hx]; [lia|].
  exists x. split; [|done].
  rewrite <- (Z2Nat.id i) by lia. by apply getitem_nat.
Qed.

Lemma bind_Ok {A B} (r : result A) (k : A → result B) (b : B) :
  Py.bind r k = Ok b ↔ ∃ a, r = Ok a ∧ k a = Ok b.
Proof.
  destruct r as [a|e]; simpl; split.
  - intros H. by exists a.
  - by intros (a' & [= <-] & H).
  - done.
  - by intros (a' & [=] & _).
Qed.

Lemma for_each_Ok {A B} (f : A → result B) (l : list A) (ys : list B) :
  for_each f l = Ok ys ↔ Forall2 (λ x y, f x = Ok y) l ys.
Proof.
  revert ys. induction l as [|x l IH]; intros ys; simpl.
  - split; [intros [= <-]; constructor | by inversion 1].
  - split.
    + intros (y & Hy & (ys' & Hys & [= <-])%bind_Ok)%bind_Ok.
      constructor; [done | by apply IH].
    + inversion 1 as [|? y ? ys' Hy Hys]; subst.
      apply bind_Ok. exists y. split; [done|]. apply bind_Ok. exists ys'.
      split; [by apply IH | done].
Qed.

Lemma for_each_fmap {A B} (f : A → result B) (g : A → B) (l : list A) :
  (∀ x, x ∈ l → f x = Ok (g x)) → for_each f l = Ok (g <$> l).
Proof.
  induction l as [|x l IH]; intros H; [done|]. simpl.
  rewrite H by apply list_elem_of_here. simpl.
  rewrite IH; [done|]. intros y Hy. apply H. by apply list_elem_of_further.
Qed.

Lemma for_each_Raise {A B} (f : A → result B) (l : list A) (x : A) (e : exn) :
  x ∈ l → f x = Raise e → ∃ e', for_each f l = Raise e'.
Proof.
  induction l as [|y l IH]; [by intros ?%elem_of_nil|].
  intros [->|Hx]%elem_of_cons Hf; simpl.
  - rewrite Hf. eauto.
  - destruct (f y); simpl; [|eauto].
    destruct (IH Hx Hf) as [e' ->]. simpl. eauto.
Qed.

Lemma for_each_length {A B} (f : A → result B) (l : list A) (ys : list B) :
  for_each f l = Ok ys → length ys = length l.
Proof. intros H%for_each_Ok. symmetry. by eapply Forall2_length. Qed.

(** ** numpy.unique: the distinct values, and first and last occurrences *)

Lemma elem_of_insert_unique (v x : Z) (l : list Z) :
  x ∈ insert_unique v l ↔ x = v ∨ x ∈ l.
Proof.
  induction l as [|y l IH]; simpl.
  - rewrite list_elem_of_singleton, elem_of_nil. tauto.
  - repeat case_bool_decide; rewrite ?elem_of_cons, ?IH; subst; tauto.
Qed.

Lemma insert_unique_sorted (v : Z) (l : list Z) :
  StronglySorted Z.lt l → StronglySorted Z.lt (insert_unique v l).
Proof.
  induction 1 as [|y l Hs IH Hy]; simpl.
  - repeat constructor.
  - repeat case_bool_decide.
    + constructor; [by constructor|].
      constructor; [done|]. eapply Forall_impl; [exact Hy|]. intros; lia.
    + by constructor.
    + constructor; [done|]. apply Forall_forall.
      intros x [->|Hx]%elem_of_insert_unique; [lia|].
      by eapply Forall_forall in Hy.
Qed.

Lemma np_unique_sorted (a : list Z) : StronglySorted Z.lt (np_unique a).
Proof.
  induction a as [|x a IH]; simpl; [constructor|].
  by apply insert_unique_sorted.
Qed.

Lemma elem_of_np_unique (a : list Z) (x : Z) : x ∈ np_unique a ↔ x ∈ a.
Proof.
  induction a as [|y a IH]; simpl; [done|].
  rewrite elem_of_insert_unique, elem_of_cons, IH. tauto.
Qed.

Lemma sorted_lt_NoDup (l : list Z) : StronglySorted Z.lt l → NoDup l.
Proof.
  induction 1 as [|y l Hs IH Hy]; constructor; [|done].
  intros Hin. eapply Forall_forall in Hy; [|exact Hin]. lia.
Qed.

Lemma first_index_spec (v : Z) (a : list Z) :
  v ∈ a →
  a !! first_index v a = Some v ∧
  ∀ k x, (k < first_index v a)%nat → a !! k = Some x → x ≠ v.
Proof.
  induction a as [|y a IH]; [by intros ?%elem_of_nil|].
  intros Hin. simpl. case_bool_decide as Hy.
  - subst. split; [done|]. intros; lia.
  - apply elem_of_cons in Hin as [->|Hin]; [done|].
    destruct (IH Hin) as [H1 H2]. split; [done|].
    intros [|k] x Hk Hx; simpl in *; [by simplify_eq|].
    apply (H2 k); [lia|done].
Qed.

(** The index the shared computation yields for a value of [offsets]
    is that of its last occurrence. *)
Lemma last_index_spec (v : Z) (offsets : list Z) :
  v ∈ offsets →
  ∃ i : nat,
    Z.of_nat (length offsets)
      - Z.of_nat (first_index v (reverse offsets)) - 1 = Z.of_nat i ∧
    offsets !! i = Some v ∧
    ∀ j x, (i < j)%nat → offsets !! j = Some x → x ≠ v.
Proof.
  intros Hin.
  assert (v ∈ reverse offsets) as Hr by (by apply elem_of_reverse).
  destruct (first_index_spec v _ Hr) as [H1 H2].
  set (k := first_index v (reverse offsets)) in *.
  assert (k < length offsets)%nat as Hk.
  { apply lookup_lt_Some in H1. by rewrite length_reverse in H1. }
  exists (length offsets - S k)%nat. split; [lia|]. split.
  - by rewrite reverse_lookup in H1.
  - intros j x Hj Hx.
    assert (j < length offsets)%nat as Hjl by (by eapply lookup_lt_Some).
    apply (H2 (length offsets - S j)%nat); [lia|].
    rewrite reverse_lookup by lia.
    by replace (length offsets - S (length offsets - S j))%nat with j by lia.
Qed.

Lemma last_candidate_unique {A} (key : A → Z) (l : list A) i j s s' :
  last_candidate key l i s → last_candidate key l j s' → key s = key s' →
  i = j ∧ s = s'.
Proof.
  intros [Hi Hli] [Hj Hlj] Hk.
  destruct (Nat.lt_trichotomy i j) as [Hlt|[->|Hlt]].
  - exfalso. by eapply (Hli j s').
  - split; [done|]. congruence.
  - exfalso. by eapply (Hlj i s).
Qed.

(** The candidates at the indices of [last_unique_idx]: one for each
    distinct key, in ascending order of the keys, each the last
    candidate with its key. *)
Lemma for_each_last_unique_idx {A} (key : A → Z) (l : list A) :
  ∃ out,
    for_each (getitem l) (last_unique_idx (key <$> l)) = Ok out ∧
    key <$> out = np_unique (reverse (key <$> l)) ∧
    Forall (λ s, ∃ i, last_candidate key l i s ∧
                      Z.of_nat i ∈ last_unique_idx (key <$> l)) out.
Proof.
  unfold last_unique_idx, np_unique_index.
  assert (∀ v, v ∈ np_unique (reverse (key <$> l)) → v ∈ key <$> l) as Hsub.
  { intros v Hv. rewrite elem_of_np_unique in Hv.
    by rewrite elem_of_reverse in Hv. }
  revert Hsub. generalize (np_unique (reverse (key <$> l))) as vs.
  induction vs as [|v vs IH]; intros Hsub.
  - exists []. by repeat split.
  - destruct IH as (out & Hout & Hkeys & Hall).
    { intros w Hw. apply Hsub. by apply list_elem_of_further. }
    destruct (last_index_spec v (key <$> l)) as (i & Hi & Hv & Hlast).
    { apply Hsub, list_elem_of_here. }
    rewrite list_lookup_fmap in Hv.
    destruct (l !! i) as [s|] eqn:Hs; [|done]. simpl in Hv.
    injection Hv as Hv.
    exists (s :: out). rewrite !fmap_cons. simpl. split; [|split].
    + rewrite Hi, (getitem_nat _ _ _ Hs). simpl. by rewrite Hout.
    + by rewrite Hv, Hkeys.
    + constructor.
      * exists i. split; [split; [done|]|].
        -- intros j s' Hj Hs'. rewrite Hv. apply (Hlast j); [done|].
           by rewrite list_lookup_fmap, Hs'.
        -- rewrite <- Hi. apply list_elem_of_here.
      * eapply Forall_impl; [exact Hall|]. simpl.
        intros s' (i' & ? & ?). exists i'. split; [done|].
        by apply list_elem_of_further.
Qed.

Lemma sorted_lt_ext (l1 l2 : list Z) :
  StronglySorted Z.lt l1 → StronglySorted Z.lt l2 →
  (∀ x, x ∈ l1 ↔ x ∈ l2) → l1 = l2.
Proof.
  intros H1. revert l2.
  induction H1 as [|x1 l1 Hs1 IH Hx1]; intros l2 H2 Hext.
  - destruct l2 as [|x2 l2]; [done|].
    exfalso. eapply elem_of_nil, Hext, list_elem_of_here.
  - destruct H2 as [|x2 l2 Hs2 Hx2].
    { exfalso. eapply elem_of_nil, Hext, list_elem_of_here. }
    rewrite Forall_forall in Hx1, Hx2.
    assert (x1 = x2) as <-.
    { pose proof (proj1 (Hext x1) (list_elem_of_here _ _)) as Ha.
      pose proof (proj2 (Hext x2) (list_elem_of_here _ _)) as Hb.
      apply elem_of_cons in Ha as [?|Ha]; [done|].
      apply elem_of_cons in Hb as [?|Hb]; [done|].
      apply Hx2 in Ha. apply Hx1 in Hb. lia. }
    f_equal. apply IH; [done|]. intros x. split; intros Hx.
    + pose proof (proj1 (Hext x) (list_elem_of_further _ _ _ Hx)) as Ha.
      apply elem_of_cons in Ha as [->|Ha]; [|done]. apply Hx1 in Hx. lia.
    + pose proof (proj2 (Hext x) (list_elem_of_further _ _ _ Hx)) as Ha.
      apply elem_of_cons in Ha as [->|Ha]; [|done]. apply Hx2 in Hx. lia.
Qed.

Lemma np_unique_reverse (a : list Z) : np_unique (reverse a) = np_unique a.
Proof.
  apply sorted_lt_ext; try apply np_unique_sorted.
  intros x. by rewrite !elem_of_np_unique, elem_of_reverse.
Qed.

Lemma elem_of_last_unique_idx (offsets : list Z) (i : nat) (v : Z) :
  offsets !! i = Some v →
  (∀ j x, (i < j)%nat → offsets !! j = Some x → x ≠ v) →
  Z.of_nat i ∈ last_unique_idx offsets.
Proof.
  intros Hi Hlast. unfold last_unique_idx, np_unique_index.
  assert (v ∈ offsets) as Hin by (by eapply list_elem_of_lookup_2).
  destruct (last_index_spec v offsets Hin) as (i' & Hi' & Hv & Hlast').
  assert (i = i') as <-.
  { destruct (Nat.lt_trichotomy i i') as [Hlt|[->|Hlt]]; [|done|].
    - exfalso. by eapply (Hlast i' v).
    - exfalso. by eapply (Hlast' i v). }
  rewrite <- Hi'. rewrite <- list_fmap_compose.
  apply list_elem_of_fmap. exists v. split; [done|].
  by rewrite np_unique_reverse, elem_of_np_unique.
Qed.

(** An index of [last_unique_idx] is that of a last occurrence. *)
Lemma last_unique_idx_inv (offsets : list Z) (k : Z) :
  k ∈ last_unique_idx offsets →
  ∃ (i : nat) v, k = Z.of_nat i ∧ offsets !! i = Some v ∧
    ∀ j x, (i < j)%nat → offsets !! j = Some x → x ≠ v.
Proof.
  unfold last_unique_idx, np_unique_index. rewrite <- list_fmap_compose.
  intros (v & -> & Hv)%list_elem_of_fmap. simpl.
  rewrite np_unique_reverse, elem_of_np_unique in Hv.
  destruct (last_index_spec v offsets Hv) as (i & Hi & Hvi & Hlast).
  exists i, v. by rewrite Hi.
Qed.

(** ** [keep_at]: the items at the kept indices, in input order *)

Lemma elem_of_keep_at {A} (idx : list Z) (l : list A) (x : A) :
  x ∈ model_py.keep_at idx l ↔ ∃ i : nat, l !! i = Some x ∧ Z.of_nat i ∈ idx.
Proof.
  unfold model_py.keep_at, enumerate. rewrite list_elem_of_omap. split.
  - intros ([k y] & (i & y' & [= -> ->] & Hi)%elem_of_lookup_imap & Hf).
    case_bool_decide; [|done]. injection Hf as ->. eauto.
  - intros (i & Hi & Hin). exists (Z.of_nat i, x). split.
    + apply elem_of_lookup_imap. eauto.
    + by rewrite bool_decide_eq_true_2.
Qed.

Lemma keep_at_fmap {A B} (f : A → B) (idx : list Z) (l : list A) :
  model_py.keep_at idx (f <$> l) = f <$> model_py.keep_at idx l.
Proof.
  unfold model_py.keep_at, enumerate.
  generalize Z.of_nat as h. induction l as [|x l IH]; intros h; [done|].
  rewrite fmap_cons, !imap_cons. simpl.
  case_bool_decide; simpl; f_equal; apply (IH (h ∘ S)).
Qed.

Lemma keep_at_NoDup {A} (key : A → Z) (idx : list Z) (l : list A) :
  (∀ (i j : nat) x y, (i < j)%nat → Z.of_nat i ∈ idx → Z.of_nat j ∈ idx →
     l !! i = Some x → l !! j = Some y → key x ≠ key y) →
  NoDup (key <$> model_py.keep_at idx l).
Proof.
  intros H. induction l as [|x l IH] using rev_ind.
  - unfold model_py.keep_at. simpl. constructor.
  - assert (model_py.keep_at idx (l ++ [x]) =
            model_py.keep_at idx l ++
              (if bool_decide (Z.of_nat (length l) ∈ idx) then [x] else [])) as ->.
    { unfold model_py.keep_at, enumerate. rewrite imap_app, omap_app.
      simpl. rewrite Nat.add_0_r. by case_bool_decide. }
    assert (NoDup (key <$> model_py.keep_at idx l)) as Hl.
    { apply IH. intros i j a b Hij Hi Hj Ha Hb.
      apply (H i j); try done; by apply lookup_app_l_Some. }
    case_bool_decide as Hx; [|by rewrite app_nil_r].
    rewrite fmap_app. apply NoDup_app. split; [done|]. split.
    + intros k (a & -> & (i & Hi & Hin)%elem_of_keep_at)%list_elem_of_fmap.
      simpl. rewrite list_elem_of_singleton.
      apply (H i (length l)); try done.
      * by eapply lookup_lt_Some.
      * by apply lookup_app_l_Some.
      * by rewrite lookup_app_r, Nat.sub_diag by lia.
    + simpl. apply NoDup_singleton.
Qed.

Lemma getitem_fmap {A B} (f : A → B) (l : list A) (i : Z) (x : A) :
  getitem l i = Ok x → getitem (f <$> l) i = Ok (f x).
Proof.
  intros (k & Hk & Hx)%getitem_Ok. unfold getitem.
  by rewrite length_fmap, Hk, list_lookup_fmap, Hx.
Qed.

Lemma for_each_getitem_fmap {A B} (f : A → B) (l : list A) idx out :
  for_each (getitem l) idx = Ok out →
  for_each (getitem (f <$> l)) idx = Ok (f <$> out).
Proof.
  rewrite !for_each_Ok. intros H. apply Forall2_fmap_r.
  eapply Forall2_impl; [exact H|]. intros i x Hx. by apply getitem_fmap.
Qed.

(** The last candidates of [l], as [last_unique_idx] picks them, in
    ascending order of their keys. *)
Lemma last_candidates_sorted {A} (key : A → Z) (l : list A) :
  ∃ out,
    for_each (getitem l) (last_unique_idx (key <$> l)) = Ok out ∧
    key <$> out = np_unique (key <$> l) ∧
    NoDup (key <$> out) ∧
    ∀ s, s ∈ out ↔ ∃ i, last_candidate key l i s.
Proof.
  destruct (for_each_last_unique_idx key l) as (out & Hout & Hkeys & Hall).
  rewrite np_unique_reverse in Hkeys.
  exists out. split; [done|]. split; [done|]. split.
  { rewrite Hkeys. apply sorted_lt_NoDup, np_unique_sorted. }
  rewrite Forall_forall in Hall. intros s. split.
  - intros (i & Hi & _)%Hall. eauto.
  - intros [i Hi].
    assert (key s ∈ key <$> out) as Hin.
    { rewrite Hkeys, elem_of_np_unique. apply list_elem_of_fmap.
      exists s. split; [done|]. destruct Hi as [Hi _].
      by eapply list_elem_of_lookup_2. }
    apply list_elem_of_fmap in Hin as (s' & Hk & Hs').
    destruct (Hall s' Hs') as (i' & Hi' & _).
    by destruct (last_candidate_unique key l i i' s s' Hi Hi' Hk) as [_ ->].
Qed.

(** The last candidates of [l], as [keep_at] picks them, in input
    order. *)
Lemma last_candidates_kept {A} (key : A → Z) (l : list A) :
  let kept := model_py.keep_at (last_unique_idx (key <$> l)) l in
  NoDup (key <$> kept) ∧ ∀ s, s ∈ kept ↔ ∃ i, last_candidate key l i s.
Proof.
  simpl. split.
  - apply keep_at_NoDup. intros i j x y Hij Hi Hj Hx Hy Hk.
    apply last_unique_idx_inv in Hi as (i' & v & Hii & Hv & Hlast).
    apply Nat2Z.inj in Hii as <-.
    rewrite list_lookup_fmap, Hx in Hv. injection Hv as <-.
    apply (Hlast j (key y)); [done| |done].
    by rewrite list_lookup_fmap, Hy.
  - intros s. rewrite elem_of_keep_at. split.
    + intros (i & Hs & Hi). exists i. split; [done|].
      apply last_unique_idx_inv in Hi as (i' & v & Hii & Hv & Hlast).
      apply Nat2Z.inj in Hii as <-.
      rewrite list_lookup_fmap, Hs in Hv. injection Hv as <-.
      intros j s' Hj Hs'. apply (Hlast j); [done|].
      by rewrite list_lookup_fmap, Hs'.
    + intros (i & Hs & Hlast). exists i. split; [done|].
      apply (elem_of_last_unique_idx _ _ (key s)).
      * by rewrite list_lookup_fmap, Hs.
      * intros j x Hj Hx. rewrite list_lookup_fmap in Hx.
        destruct (l !! j) as [s'|] eqn:Hs'; [|done]. injection Hx as <-.
        by apply (Hlast j).
Qed.

(** ** The order of the arrays [predict] returns *)

Lemma last_candidates_eq {A} (key : A → Z) (l l1 l2 : list A) :
  key <$> l1 = key <$> l2 →
  Forall (λ s, ∃ i, last_candidate key l i s) l1 →
  Forall (λ s, ∃ i, last_candidate key l i s) l2 →
  l1 = l2.
Proof.
  revert l2. induction l1 as [|s1 l1 IH]; intros [|s2 l2]; try done.
  intros [= Hk Hks] [[i1 H1] Hl1]%Forall_cons [[i2 H2] Hl2]%Forall_cons.
  f_equal; [|by apply IH].
  by destruct (last_candidate_unique key l i1 i2 s1 s2 H1 H2 Hk).
Qed.

(** Where the keys of the candidates kept ascend in input order, the
    candidates picked in ascending order of the keys are the same
    list. *)
Lemma last_candidates_sorted_kept {A} (key : A → Z) (l sorted : list A) :
  for_each (getitem l) (last_unique_idx (key <$> l)) = Ok sorted →
  StronglySorted Z.lt (key <$> model_py.keep_at (last_unique_idx (key <$> l)) l) →
  sorted = model_py.keep_at (last_unique_idx (key <$> l)) l.
Proof.
  intros Hsorted Hasc.
  destruct (last_candidates_sorted key l) as (out & Hout & Hkeys & _ & Hin).
  assert (out = sorted) as -> by congruence.
  destruct (last_candidates_kept key l) as [_ Hin'].
  apply (last_candidates_eq key l).
  - rewrite Hkeys. apply sorted_lt_ext; [apply np_unique_sorted|done|].
    intros x. rewrite <- Hkeys, !list_elem_of_fmap. split.
    + intros (s & -> & Hs). exists s. split; [done|]. by apply Hin', Hin.
    + intros (s & -> & Hs). exists s. split; [done|]. by apply Hin, Hin'.
  - apply Forall_forall. intros s Hs. by apply Hin.
  - apply Forall_forall. intros s Hs. by apply Hin'.
Qed.

(** Where the offsets kept ascend in input order, as they do for
    windows taken in text order, the three arrays [predict] returns
    describe the same candidates position by position. *)
Lemma unique_predictions_aligned {row : Type} (cands : list (row * Z * Z)) :
  let kept := model_py.keep_at (last_unique_idx (snd <$> cands)) cands in
  StronglySorted Z.lt (snd <$> kept) →
  model_py.unique_predictions
    ((λ c, c.1.1) <$> cands) ((λ c, c.1.2) <$> cands) (snd <$> cands)
  = Ok ((λ c, c.1.1) <$> kept, (λ c, c.1.2) <$> kept, snd <$> kept).
Proof.
  intros kept Hasc.
  destruct (last_candidates_sorted snd cands) as (sorted & Hout & _).
  pose proof (last_candidates_sorted_kept snd cands sorted Hout Hasc) as Heq.
  unfold model_py.unique_predictions.
  rewrite (for_each_getitem_fmap (λ c : row * Z * Z, c.1.1) _ _ _ Hout).
  simpl. rewrite Heq. unfold kept. by rewrite !keep_at_fmap.
Qed.

(** On offsets that descend, the rows of [preds] come back in the
    other order than [offsets] and [lengths]. *)
Lemma unique_predictions_order_example :
  model_py.unique_predictions ["A"; "B"] [1; 2] [5; 3]
  = Ok (["B"; "A"], [1; 2], [5; 3]).
Proof. vm_compute. reflexivity. Qed.

(** ** C1: de-duplication keeps the last candidate of every offset *)



(** ** The subword length extension *)

Lemma extended_length (sw : list bool) (L : list Z) :
  length (extended sw L) = length L.
Proof.
  revert sw. induction L as [|l L IH]; intros sw; simpl; [done|].
  by rewrite IH.
Qed.

(** The extended length of a position: its own length, plus the
    extended length of the next position when that is a continuation. *)
Lemma extended_lookup (sw : list bool) (L : list Z) (j : nat) :
  extended sw L !! j =
    match L !! j with
    | None => None
    | Some l =>
        Some (l + match sw !! S j with
                  | Some true => default 0 (extended sw L !! S j)
                  | _ => 0
                  end)
    end.
Proof.
  revert sw j. induction L as [|l L IH]; intros sw j; [done|].
  destruct j as [|j].
  - simpl. f_equal. f_equal.
    destruct sw as [|b [|[] sw]]; simpl; try done;
      by destruct (extended _ L).
  - change (extended sw (l :: L) !! S j) with (extended (tail sw) L !! j).
    change (extended sw (l :: L) !! S (S j))
      with (extended (tail sw) L !! S j).
    rewrite IH. simpl. by destruct sw.
Qed.

Lemma extend_from_extended (sw : list bool) (L : list Z) (j : nat) :
  sw !! O ≠ Some true → length sw = length L → (j ≤ length L)%nat →
  extend_from j sw (take (Nat.pred j) L ++ drop (Nat.pred j) (extended sw L))
    = Ok (extended sw L).
Proof.
  intros H0 Hlen. induction j as [|j IH]; intros Hj; [done|].
  cbn [extend_from Nat.pred].
  destruct (lookup_lt_is_Some_2 L j) as [a Ha]; [lia|].
  assert (extended sw L !! j =
          Some (a + match sw !! S j with
                    | Some true => default 0 (extended sw L !! S j)
                    | _ => 0
                    end)) as HEj by (by rewrite extended_lookup, Ha).
  destruct (sw !! j) as [[]|] eqn:Hsw.
  - destruct j as [|p]; [done|].
    replace (Z.of_nat (S p) - 1) with (Z.of_nat p) by lia.
    destruct (lookup_lt_is_Some_2 L p) as [b Hb]; [lia|].
    assert (length (take (S p) L) = S p) as Htl by (rewrite length_take; lia).
    rewrite (getitem_nat _ p b).
    2:{ rewrite lookup_app_l by lia. by rewrite lookup_take_lt by lia. }
    cbn [Py.bind].
    erewrite (getitem_nat _ (S p)).
    2:{ rewrite lookup_app_r by lia. rewrite Htl, Nat.sub_diag.
        rewrite lookup_drop, Nat.add_0_r. exact HEj. }
    cbn [Py.bind]. unfold setitem. rewrite position_nat.
    2:{ rewrite length_app, Htl. lia. }
    cbn [Py.bind]. rewrite <- IH by lia. f_equal.
    cbn [Nat.pred].
    rewrite (take_S_r _ _ _ Hb), <- app_assoc.
    rewrite insert_app_r_alt by (rewrite length_take; lia).
    rewrite length_take, Nat.min_l, Nat.sub_diag by lia. simpl.
    f_equal. symmetry. apply drop_S.
    rewrite extended_lookup, Hb, Hsw.
    by rewrite HEj.
  - rewrite <- IH by lia. f_equal.
    destruct j as [|p]; [done|]. cbn [Nat.pred].
    destruct (lookup_lt_is_Some_2 L p) as [b Hb]; [lia|].
    rewrite (take_S_r _ _ _ Hb), <- app_assoc. f_equal.
    rewrite (drop_S (extended sw L) (b + 0) p); [by rewrite Z.add_0_r|].
    by rewrite extended_lookup, Hb, Hsw.
  - apply lookup_ge_None in Hsw. lia.
Qed.

(** Where the first flag is not set and there is a flag per length,
    the loop computes [extended] and raises nothing. *)
Lemma extend_lengths_extended (sw : list bool) (L : list Z) :
  sw !! O ≠ Some true → length sw = length L →
  extend_lengths sw L = Ok (extended sw L).
Proof.
  intros H0 Hlen. unfold extend_lengths.
  rewrite <- (extend_from_extended sw L (length sw)) by (done || lia).
  f_equal. rewrite Hlen.
  destruct (length L) as [|n] eqn:Hn.
  { apply nil_length_inv in Hn. by subst. }
  cbn [Nat.pred].
  destruct (lookup_lt_is_Some_2 L n) as [a Ha]; [lia|].
  rewrite <- (take_drop n L) at 1. f_equal.
  apply list_eq. intros k. rewrite !lookup_drop, extended_lookup.
  destruct (L !! (n + k)%nat) as [b|] eqn:Hb; [|done].
  assert (k = O) as -> by (apply lookup_lt_Some in Hb; lia).
  rewrite (lookup_ge_None_2 sw) by lia. by rewrite Z.add_0_r.
Qed.

Lemma extended_id (sw : list bool) (L : list Z) :
  (∀ k l, sw !! k = Some true → L !! k = Some l → l = 0) →
  extended sw L = L.
Proof.
  revert sw. induction L as [|l L IH]; intros sw H; [done|].
  simpl. rewrite IH.
  2:{ intros k x Hk Hx. apply (H (S k)); [by destruct sw | done]. }
  f_equal. destruct sw as [|b [|[] sw]]; simpl; try lia.
  destruct L as [|e L]; [lia|].
  rewrite (H 1%nat e); [lia|done|done].
Qed.

(** ** C7: the extension applied twice *)

(** C7, as stated, fails: on the lengths [[3; 2]] with the second
    position a continuation, the extension gives [[5; 2]], and applied
    to [[5; 2]] it gives [[7; 2]]: the length of position 0, which is
    not a subword, changes again. *)
Lemma extension_twice_counterexample :
  extend_lengths [false; true] [3; 2] = Ok [5; 2] ∧
  extend_lengths [false; true] [5; 2] = Ok [7; 2] ∧
  ¬ (∀ sw L E, extend_lengths sw L = Ok E → extend_lengths sw E = Ok E).
Proof.
  split; [reflexivity|]. split; [reflexivity|].
  intros H. specialize (H [false; true] [3; 2] [5; 2] eq_refl).
  vm_compute in H. discriminate H.
Qed.

(** C7, amended. With a flag per length and the first flag not set,
    the extension and its second application both return; the second
    application leaves the length of position [j] unchanged when
    position [j + 1] is not a continuation, and adds the re-extended
    length of position [j + 1] to it when it is; the lengths are all
    unchanged exactly when every continuation has length 0. *)
Theorem extension_twice (sw : list bool) (L : list Z) :
  sw !! O ≠ Some true → length sw = length L →
  ∃ E E2,
    extend_lengths sw L = Ok E ∧ extend_lengths sw E = Ok E2 ∧
    (∀ j, sw !! S j ≠ Some true → E2 !! j = E !! j) ∧
    (∀ j e, sw !! S j = Some true → E !! j = Some e →
       ∃ e', E2 !! S j = Some e' ∧ E2 !! j = Some (e + e')) ∧
    (E2 = E ↔ ∀ k l, sw !! k = Some true → L !! k = Some l → l = 0).
Proof.
  intros H0 Hlen.
  exists (extended sw L), (extended sw (extended sw L)).
  assert (length sw = length (extended sw L)) as Hlen'
    by (by rewrite extended_length).
  split; [by apply extend_lengths_extended|].
  split; [by apply extend_lengths_extended|].
  assert (∀ j e, sw !! S j = Some true → extended sw L !! j = Some e →
            ∃ e', extended sw (extended sw L) !! S j = Some e' ∧
                  extended sw (extended sw L) !! j = Some (e + e')) as Hgrow.
  { intros j e Hsw He.
    destruct (lookup_lt_is_Some_2 (extended sw (extended sw L)) (S j))
      as [e' He'].
    { rewrite !extended_length, <- Hlen. by eapply lookup_lt_Some. }
    exists e'. split; [done|].
    by rewrite (extended_lookup sw (extended sw L) j), He, Hsw, He'. }
  split; [|split; [done|]].
  - intros j Hsw. rewrite (extended_lookup sw (extended sw L) j).
    destruct (extended sw L !! j) as [e|]; [|done].
    f_equal. destruct (sw !! S j) as [[]|]; [done|lia|lia].
  - split.
    + intros Heq.
      assert (∀ k e, sw !! k = Some true → extended sw L !! k = Some e →
                e = 0) as Hzero.
      { intros [|j] e Hsw He; [done|].
        destruct (lookup_lt_is_Some_2 (extended sw L) j) as [x Hx].
        { apply lookup_lt_Some in He. lia. }
        destruct (Hgrow j x Hsw Hx) as (e' & He' & Hj).
        rewrite Heq in He', Hj. simplify_eq. lia. }
      intros k l Hsw Hl.
      pose proof (extended_lookup sw L k) as Hk. rewrite Hl in Hk.
      pose proof (Hzero k _ Hsw Hk) as Hk0.
      destruct (sw !! S k) as [[]|] eqn:Hsw'; [|lia|lia].
      destruct (extended sw L !! S k) as [e|] eqn:He; simpl in Hk0; [|lia].
      pose proof (Hzero (S k) e Hsw' He). lia.
    + intros Hz. rewrite (extended_id sw L Hz). by apply extended_id.
Qed.

Lemma extension_twice_witness :
  [false; true; false] !! O ≠ Some true ∧
  length [false; true; false] = length [3; 2; 4] ∧
  ∃ E E2,
    extend_lengths [false; true; false] [3; 2; 4] = Ok E ∧
    extend_lengths [false; true; false] E = Ok E2 ∧
    (∀ j, [false; true; false] !! S j ≠ Some true → E2 !! j = E !! j) ∧
    (∀ j e, [false; true; false] !! S j = Some true → E !! j = Some e →
       ∃ e', E2 !! S j = Some e' ∧ E2 !! j = Some (e + e')) ∧
    (E2 = E ↔ ∀ k l, [false; true; false] !! k = Some true →
                      [3; 2; 4] !! k = Some l → l = 0).
Proof.
  split; [done|]. split; [reflexivity|].
  apply (extension_twice [false; true; false] [3; 2; 4]);
    [done | reflexivity].
Defined.

(** ** The predictions kept for a window *)

Lemma elem_of_np_where (cond : list bool) (p : Z) :
  p ∈ transformer_py.np_where cond ↔
  ∃ i : nat, p = Z.of_nat i ∧ cond !! i = Some true.
Proof.
  unfold transformer_py.np_where, enumerate. rewrite list_elem_of_omap.
  split.
  - intros ([k c] & (i & c' & [= -> ->] & Hi)%elem_of_lookup_imap & Hf).
    destruct c'; [|done]. injection Hf as <-. eauto.
  - intros (i & -> & Hi). exists (Z.of_nat i, true). split; [|done].
    apply elem_of_lookup_imap. eauto.
Qed.

(** On a list-valued mask nothing is kept: [mask == 1] is the one
    value [False]. *)
Lemma np_where_np_and_false (cond : list bool) :
  transformer_py.np_where (transformer_py.np_and false cond) = [].
Proof.
  unfold transformer_py.np_where, transformer_py.np_and, enumerate.
  generalize Z.of_nat as h. induction cond as [|c cond IH]; intros h; [done|].
  rewrite fmap_cons, imap_cons. cbn [omap list_omap andb]. apply IH.
Qed.

Lemma getitem_nat_inv {A} (l : list A) (i : nat) (x : A) :
  getitem l (Z.of_nat i) = Ok x → l !! i = Some x.
Proof.
  intros (k & Hk & Hx)%getitem_Ok. unfold position in Hk.
  repeat case_bool_decide; simplify_eq; [|lia].
  by rewrite Nat2Z.id in Hx.
Qed.

Lemma for_each_elem_of {A B} (f : A → result B) (l : list A) ys (y : B) :
  for_each f l = Ok ys → y ∈ ys → ∃ x, x ∈ l ∧ f x = Ok y.
Proof.
  rewrite for_each_Ok. induction 1 as [|x y' l ys' Hxy Hall IH].
  - by intros ?%elem_of_nil.
  - intros [->|Hy]%elem_of_cons.
    + exists x. split; [apply list_elem_of_here | done].
    + destruct (IH Hy) as (x' & Hx' & Hf). exists x'.
      split; [by apply list_elem_of_further | done].
Qed.

(** What [window_labels] comes to: the labels are looked up, which
    can raise [KeyError], and no position is kept. *)
Lemma window_labels_nil (id2label : gmap Z string) (i : Z)
    (mask offsets lengths pred_id : list Z) (pred_prob : list float)
    (ignore_label : string) :
  transformer_py.window_labels id2label i mask offsets lengths pred_id
    pred_prob ignore_label
  = (_ <- for_each (transformer_py.lookup_label id2label) pred_id ;; Ok []).
Proof.
  unfold transformer_py.window_labels, transformer_py.list_eq_int.
  destruct (for_each _ pred_id) as [pred_label|]; [|done]. cbn [Py.bind].
  by rewrite np_where_np_and_false.
Qed.


Lemma unique_labels_subset (labels out : list transformer_py.label) :
  transformer_py.unique_labels labels = Ok out → out ⊆ labels.
Proof.
  unfold transformer_py.unique_labels. intros H s Hs.
  destruct (for_each_elem_of _ _ _ _ H Hs) as (i & _ & Hi).
  by eapply getitem_elem_of.
Qed.

(** ** C2: the filter on the non-entity label *)




(** ** C9: a label id outside the label map *)

Lemma for_each_lookup_label_KeyError (id2label : gmap Z string)
    (pred_id : list Z) (id : Z) :
  id ∈ pred_id → id2label !! id = None →
  ∃ k, k ∈ pred_id ∧ id2label !! k = None ∧
       for_each (transformer_py.lookup_label id2label) pred_id
         = Raise (KeyError k).
Proof.
  induction pred_id as [|p pred_id IH]; [by intros ?%elem_of_nil|].
  intros Hin Hid. simpl. unfold transformer_py.lookup_label at 1.
  destruct (id2label !! p) as [l|] eqn:Hp.
  - apply elem_of_cons in Hin as [->|Hin]; [congruence|].
    destruct (IH Hin Hid) as (k & Hk & Hnone & ->).
    exists k. split; [by apply list_elem_of_further | done].
  - exists p. split; [apply list_elem_of_here | done].
Qed.

Lemma window_labels_KeyError (id2label : gmap Z string) (i : Z)
    (mask offsets lengths pred_id : list Z) (pred_prob : list float)
    (ignore_label : string) (id : Z) :
  id ∈ pred_id → id2label !! id = None →
  ∃ k, k ∈ pred_id ∧ id2label !! k = None ∧
       transformer_py.window_labels id2label i mask offsets lengths pred_id
         pred_prob ignore_label = Raise (KeyError k).
Proof.
  intros Hin Hid.
  destruct (for_each_lookup_label_KeyError _ _ _ Hin Hid) as (k & ? & ? & Hk).
  exists k. unfold transformer_py.window_labels. by rewrite Hk.
Qed.

Lemma windows_loop_KeyError (id2label : gmap Z string) rows st inputs i
    ignore_label acc (j : nat) row pr (id : Z) :
  rows !! j = Some (row, pr) → id ∈ row → id2label !! id = None →
  ∃ e, (transformer_py.windows_loop id2label st inputs i rows ignore_label
          acc).2 = Raise e.
Proof.
  revert st i acc j.
  induction rows as [|[pred_id pred_prob] rows IH]; intros st i acc j Hj Hin Hid;
    [done|].
  simpl. unfold transformer_py.window_step.
  destruct (getitem inputs i) as [r|]; [|simpl; eauto].
  destruct (extend_lengths _ _) as [E|]; [|simpl; eauto].
  destruct (transformer_py.window_labels _ _ _ _ _ _ _ _) as [ls|] eqn:Hls;
    [|simpl; eauto].
  destruct j as [|j].
  - injection Hj as -> ->.
    destruct (window_labels_KeyError id2label i
                (transformer_py.attention_mask (st r))
                (transformer_py.offsets (st r)) E row pr ignore_label id
                Hin Hid) as (k & _ & _ & Hk).
    congruence.
  - by eapply IH.
Qed.

Lemma logits_to_standoff_KeyError (id2label : gmap Z string) st logits inputs
    ignore_label pred_id (i : nat) row (id : Z) :
  for_each (for_each argmax) logits = Ok pred_id →
  pred_id !! i = Some row → id ∈ row → id2label !! id = None →
  ∃ e, (transformer_py._logits_to_standoff id2label st logits inputs
          ignore_label).2 = Raise e.
Proof.
  intros Hids Hrow Hin Hid. unfold transformer_py._logits_to_standoff.
  rewrite Hids.
  destruct (for_each (for_each amax) logits) as [pred_prob|] eqn:Hprob;
    [|simpl; eauto].
  destruct (lookup_lt_is_Some_2 pred_prob i) as [pr Hpr].
  { rewrite (for_each_length _ _ _ Hprob), <- (for_each_length _ _ _ Hids).
    by eapply lookup_lt_Some. }
  destruct (windows_loop_KeyError id2label (zip pred_id pred_prob) st inputs 0
              ignore_label [] i row pr id) as [e He]; try done.
  { apply lookup_zip_with_Some. eauto. }
  destruct (transformer_py.windows_loop _ _ _ _ _ _ _) as [st1 [labels|]];
    simpl in *; [done|eauto].
Qed.

(** The tensors made of the features hold the rows of the features. *)
Lemma tensor_Ok (rows : list (option (list Z))) (t : list (list Z)) :
  transformer_py.tensor rows = Ok t → Some <$> t = rows.
Proof.
  assert (∀ n, for_each (transformer_py.tensor_row n) rows = Ok t →
               Some <$> t = rows) as Hrows.
  { intros n. revert t. induction rows as [|row rows IH]; intros t; simpl.
    - by intros [= <-].
    - intros (y & Hy & (ys & Hys & [= <-])%bind_Ok)%bind_Ok.
      rewrite fmap_cons, (IH _ Hys). f_equal.
      unfold transformer_py.tensor_row in Hy. destruct row as [row|]; [|done].
      repeat case_bool_decide; by simplify_eq. }
  unfold transformer_py.tensor. destruct rows as [|[row|] rows]; apply Hrows.
Qed.

Lemma features_to_tensor_Ok (inputs : list transformer_py.InputFeatures)
    (ids mask types : list (list Z)) :
  transformer_py._features_to_tensor inputs = Ok (ids, mask, types) →
  ids = transformer_py.input_ids <$> inputs ∧
  mask = transformer_py.attention_mask <$> inputs ∧
  Some <$> types = transformer_py.token_type_ids <$> inputs.
Proof.
  unfold transformer_py._features_to_tensor.
  intros (a & Ha%tensor_Ok & (b & Hb%tensor_Ok &
    (c & Hc%tensor_Ok & [= <- <- <-])%bind_Ok)%bind_Ok)%bind_Ok.
  split; [|split; [|done]]; by eapply (inj (fmap Some)).
Qed.

(** C9. A label id the model predicts at some position of some window
    that is not a key of the label map aborts the call: looking the id
    up raises [KeyError] for the first such id of the window, the
    realignment [_logits_to_standoff] returns no predictions, and so
    does [predict]. No label is put in its place. *)
Theorem unknown_label_id_aborts
    (encode : string → bool → transformer_py.Encoding)
    (pad : transformer_py.Encoding → Z → transformer_py.Encoding)
    (max_len_single_sentence model_max_length : Z)
    (model : list (list Z) → list (list Z) → list (option (list Z)) →
             list (list (list float)))
    (id2label : gmap Z string) (text : string) (feature_overlap : option float)
    (inputs : list transformer_py.InputFeatures)
    (pred_id : list (list Z)) (i : nat) (row : list Z) (id : Z) :
  transformer_py._split_text_into_segments encode pad max_len_single_sentence
    model_max_length text feature_overlap = Ok inputs →
  for_each (for_each argmax)
    (model (transformer_py.input_ids <$> inputs)
           (transformer_py.attention_mask <$> inputs)
           (transformer_py.token_type_ids <$> inputs)) = Ok pred_id →
  pred_id !! i = Some row → id ∈ row → id2label !! id = None →
  (∃ k, k ∈ row ∧ id2label !! k = None ∧
        ∀ w mask offsets lengths pred_prob ignore_label,
          transformer_py.window_labels id2label w mask offsets lengths row
            pred_prob ignore_label = Raise (KeyError k)) ∧
  (∀ st refs ignore_label,
     ∃ e, (transformer_py._logits_to_standoff id2label st
             (model (transformer_py.input_ids <$> inputs)
                    (transformer_py.attention_mask <$> inputs)
                    (transformer_py.token_type_ids <$> inputs))
             refs ignore_label).2 = Raise e) ∧
  ∃ e, transformer_py.predict encode pad max_len_single_sentence
         model_max_length model id2label text feature_overlap = Raise e.
Proof.
  intros Hsplit Hids Hrow Hin Hid. split; [|split].
  - destruct (for_each_lookup_label_KeyError _ _ _ Hin Hid)
      as (k & Hk & Hnone & Hraise).
    exists k. split; [done|]. split; [done|]. intros.
    unfold transformer_py.window_labels. by rewrite Hraise.
  - intros. by eapply logits_to_standoff_KeyError.
  - unfold transformer_py.predict. rewrite Hsplit. cbn [Py.bind].
    destruct (transformer_py._features_to_tensor inputs)
      as [[[ids mask] types]|e] eqn:Htensor; [|simpl; eauto].
    cbn [Py.bind].
    apply features_to_tensor_Ok in Htensor as (-> & -> & ->).
    by eapply logits_to_standoff_KeyError.
Qed.

Lemma unknown_label_id_aborts_witness :
  ∃ e, transformer_py.predict encode_example pad_example 6 6 model_example
         {[ 1 := "NAME" ]} "ab cd ef" None = Raise e.
Proof.
  refine (proj2 (proj2
    (unknown_label_id_aborts encode_example pad_example 6 6 model_example
       {[ 1 := "NAME" ]} "ab cd ef" None inputs_example
       [[0; 0; 0; 0; 0; 0]; [0; 0; 0; 0; 0; 0]] 0 [0; 0; 0; 0; 0; 0] 0
       _ _ _ _ _))).
  - vm_compute. reflexivity.
  - vm_compute. reflexivity.
  - reflexivity.
  - apply list_elem_of_here.
  - vm_compute. reflexivity.
Defined.

(** ** C8: a text without tokens *)

(** [model.py]'s realignment is not fed by the window splitter; on an
    empty list of features it concatenates an empty list of arrays,
    which numpy refuses. *)
Lemma realign_no_features {row : Type} (special : gset Z) st :
  model_py.realign (row := row) special st [] [] [] = (st, Raise ValueError).
Proof. reflexivity. Qed.




(** ** C10: the lengths are extended in the feature objects *)

Lemma store_insert_eq (st : transformer_py.store) (r : transformer_py.ref)
    (f : transformer_py.InputFeatures) :
  (<[r := f]> st) r = f.
Proof. apply fn_lookup_insert. Qed.

Lemma store_insert_ne (st : transformer_py.store) (r r' : transformer_py.ref)
    (f : transformer_py.InputFeatures) :
  r ≠ r' → (<[r := f]> st) r' = st r'.
Proof. apply fn_lookup_insert_ne. Qed.

Lemma windows_loop_store (id2label : gmap Z string)
    (inputs : list transformer_py.ref)
    rows st (k : nat) ignore_label acc st' out :
  NoDup inputs →
  transformer_py.windows_loop id2label st inputs (Z.of_nat k) rows
    ignore_label acc = (st', Ok out) →
  (∀ i r, (k ≤ i < k + length rows)%nat → inputs !! i = Some r →
     ∃ E, extend_lengths (transformer_py.input_subwords (st r))
            (transformer_py.lengths (st r)) = Ok E ∧
          st' r = transformer_py.with_lengths (st r) E) ∧
  (∀ r, (∀ i, (k ≤ i < k + length rows)%nat → inputs !! i ≠ Some r) →
     st' r = st r).
Proof.
  intros Hnd. revert st k acc.
  induction rows as [|[pred_id pred_prob] rows IH]; intros st k acc; simpl.
  { intros [= <- _]. split; [intros; lia | done]. }
  unfold transformer_py.window_step.
  destruct (getitem inputs (Z.of_nat k)) as [r0|] eqn:Hr0; [|done].
  apply getitem_nat_inv in Hr0.
  destruct (extend_lengths _ _) as [E0|] eqn:HE0; [|done].
  destruct (transformer_py.window_labels _ _ _ _ _ _ _) as [ls|]; [|done].
  replace (Z.of_nat k + 1) with (Z.of_nat (S k)) by lia.
  intros Hloop. destruct (IH _ _ _ Hloop) as [Hin Hout].
  assert (st' r0 = transformer_py.with_lengths (st r0) E0) as Hr0'.
  { rewrite Hout; [by rewrite store_insert_eq|].
    intros i Hi Hir. assert (i = k) by (by eapply NoDup_lookup). lia. }
  split.
  - intros i r Hi Hir. destruct (decide (i = k)) as [->|Hne].
    + assert (r = r0) as -> by congruence. eauto.
    + assert (r0 ≠ r) as Hr.
      { intros <-. apply Hne. by eapply NoDup_lookup. }
      destruct (Hin i r) as (E & HE & Hst); [lia|done|].
      rewrite store_insert_ne in HE, Hst by done. eauto.
  - intros r Hr. rewrite Hout.
    + apply store_insert_ne. intros <-. by apply (Hr k); [lia|].
    + intros i Hi. apply Hr. lia.
Qed.

Lemma logits_to_standoff_store (id2label : gmap Z string) st logits
    (inputs : list transformer_py.ref) ignore_label st' out :
  NoDup inputs →
  transformer_py._logits_to_standoff id2label st logits inputs ignore_label
    = (st', Ok out) →
  (∀ i r, (i < length logits)%nat → inputs !! i = Some r →
     ∃ E, extend_lengths (transformer_py.input_subwords (st r))
            (transformer_py.lengths (st r)) = Ok E ∧
          st' r = transformer_py.with_lengths (st r) E) ∧
  (∀ r, (∀ i, (i < length logits)%nat → inputs !! i ≠ Some r) →
     st' r = st r).
Proof.
  intros Hnd. unfold transformer_py._logits_to_standoff.
  destruct (for_each (for_each argmax) logits) as [pred_id|] eqn:Hid; [|done].
  destruct (for_each (for_each amax) logits) as [pred_prob|] eqn:Hprob;
    [|done].
  destruct (transformer_py.windows_loop _ _ _ _ _ _ _)
    as [st1 [labels|]] eqn:Hloop; [|done].
  intros [= <- _].
  assert (length (zip pred_id pred_prob) = length logits) as Hlen.
  { rewrite length_zip_with, (for_each_length _ _ _ Hid),
      (for_each_length _ _ _ Hprob). lia. }
  destruct (windows_loop_store id2label inputs _ st O _ _ _ _ Hnd Hloop)
    as [Hin Hout].
  rewrite Hlen in Hin, Hout. split.
  - intros i r Hi. apply Hin. lia.
  - intros r Hr. apply Hout. intros i Hi. apply Hr. lia.
Qed.

Lemma features_loop_store {row : Type} (special : gset Z)
    (features : list model_py.ref) (logits : list (list row)) out_label_ids
    todo st (k : nat) acc st' out :
  NoDup features →
  model_py.features_loop special st features (Z.of_nat k) todo logits
    out_label_ids acc = (st', Ok out) →
  (∀ i r, (k ≤ i < k + todo)%nat → features !! i = Some r →
     ∃ E, extend_lengths (model_py.input_subwords (st r))
            (model_py.input_lengths (st r)) = Ok E ∧
          st' r = model_py.with_lengths (st r) E) ∧
  (∀ r, (∀ i, (k ≤ i < k + todo)%nat → features !! i ≠ Some r) →
     st' r = st r).
Proof.
  intros Hnd. revert st k acc.
  induction todo as [|todo IH]; intros st k acc; simpl.
  { intros [= <- _]. split; [intros; lia | done]. }
  unfold model_py.feature_step.
  destruct (getitem features (Z.of_nat k)) as [r0|] eqn:Hr0; [|done].
  apply getitem_nat_inv in Hr0.
  destruct (Py.bind (getitem out_label_ids (Z.of_nat k)) _)
    as [[idxKeep kept]|]; [|done].
  destruct (extend_lengths _ _) as [E0|] eqn:HE0; [|done].
  destruct acc as [[preds offsets] lengths].
  replace (Z.of_nat k + 1) with (Z.of_nat (S k)) by lia.
  intros Hloop. destruct (IH _ _ _ Hloop) as [Hin Hout].
  assert (st' r0 = model_py.with_lengths (st r0) E0) as Hr0'.
  { rewrite Hout; [apply fn_lookup_insert|].
    intros i Hi Hir. assert (i = k) by (by eapply NoDup_lookup). lia. }
  split.
  - intros i r Hi Hir. destruct (decide (i = k)) as [->|Hne].
    + assert (r = r0) as -> by congruence. eauto.
    + assert (r0 ≠ r) as Hr.
      { intros <-. apply Hne. by eapply NoDup_lookup. }
      destruct (Hin i r) as (E & HE & Hst); [lia|done|].
      assert ((<[r0 := model_py.with_lengths (st r0) E0]> st) r = st r)
        as Hsame by (by apply fn_lookup_insert_ne).
      rewrite Hsame in HE, Hst. eauto.
  - intros r Hr. rewrite Hout.
    + apply fn_lookup_insert_ne. intros <-. by apply (Hr k); [lia|].
    + intros i Hi. apply Hr. lia.
Qed.

(** C10. The realignment writes the extended lengths into the feature
    objects it is given. After a call of [_logits_to_standoff] that
    returns, every feature object the call went through (they are
    distinct objects) holds in its [lengths] field the list the
    extension loop made of the lengths it held before; its other
    fields and every other object of the store are unchanged. With
    the first flag unset and a flag per length that list is
    [extended]: every length with the extended length of a
    continuation that follows it added. A second call on the same
    objects extends the extended lengths again. The loop at the end
    of [model.py]'s [predict] writes the extended lengths into
    [input_lengths] of its feature objects likewise. *)
Theorem lengths_extended_in_place :
  (∀ (id2label : gmap Z string) st logits (inputs : list transformer_py.ref)
     ignore_label st' out,
     NoDup inputs →
     transformer_py._logits_to_standoff id2label st logits inputs ignore_label
       = (st', Ok out) →
     (∀ i r, (i < length logits)%nat → inputs !! i = Some r →
        ∃ E, extend_lengths (transformer_py.input_subwords (st r))
               (transformer_py.lengths (st r)) = Ok E ∧
             transformer_py.lengths (st' r) = E ∧
             (transformer_py.input_subwords (st r) !! O ≠ Some true →
              length (transformer_py.input_subwords (st r))
                = length (transformer_py.lengths (st r)) →
              E = extended (transformer_py.input_subwords (st r))
                    (transformer_py.lengths (st r))) ∧
             transformer_py.input_ids (st' r)
               = transformer_py.input_ids (st r) ∧
             transformer_py.attention_mask (st' r)
               = transformer_py.attention_mask (st r) ∧
             transformer_py.token_type_ids (st' r)
               = transformer_py.token_type_ids (st r) ∧
             transformer_py.label_ids (st' r)
               = transformer_py.label_ids (st r) ∧
             transformer_py.input_subwords (st' r)
               = transformer_py.input_subwords (st r) ∧
             transformer_py.offsets (st' r) = transformer_py.offsets (st r)) ∧
     (∀ r, (∀ i, (i < length logits)%nat → inputs !! i ≠ Some r) →
        st' r = st r) ∧
     (∀ st'' out',
        transformer_py._logits_to_standoff id2label st' logits inputs
          ignore_label = (st'', Ok out') →
        ∀ i r, (i < length logits)%nat → inputs !! i = Some r →
          ∃ E E2,
            extend_lengths (transformer_py.input_subwords (st r))
              (transformer_py.lengths (st r)) = Ok E ∧
            extend_lengths (transformer_py.input_subwords (st r)) E = Ok E2 ∧
            transformer_py.lengths (st' r) = E ∧
            transformer_py.lengths (st'' r) = E2 ∧
            (transformer_py.input_subwords (st r) !! O ≠ Some true →
             length (transformer_py.input_subwords (st r))
               = length (transformer_py.lengths (st r)) →
             E2 = extended (transformer_py.input_subwords (st r))
                    (extended (transformer_py.input_subwords (st r))
                       (transformer_py.lengths (st r))))))
  ∧
  (∀ (row : Type) (special : gset Z) st (features : list model_py.ref)
     (logits : list (list row)) out_label_ids st' out,
     NoDup features →
     model_py.realign special st features logits out_label_ids = (st', Ok out) →
     (∀ r, r ∈ features →
        ∃ E, extend_lengths (model_py.input_subwords (st r))
               (model_py.input_lengths (st r)) = Ok E ∧
             model_py.input_lengths (st' r) = E ∧
             (model_py.input_subwords (st r) !! O ≠ Some true →
              length (model_py.input_subwords (st r))
                = length (model_py.input_lengths (st r)) →
              E = extended (model_py.input_subwords (st r))
                    (model_py.input_lengths (st r))) ∧
             model_py.label_ids (st' r) = model_py.label_ids (st r) ∧
             model_py.input_offsets (st' r) = model_py.input_offsets (st r) ∧
             model_py.input_subwords (st' r)
               = model_py.input_subwords (st r)) ∧
     (∀ r, r ∉ features → st' r = st r)).
Proof.
  assert (∀ sw L E, extend_lengths sw L = Ok E →
            sw !! O ≠ Some true → length sw = length L →
            E = extended sw L) as Hclosed.
  { intros sw L E HE H0 Hlen.
    rewrite (extend_lengths_extended sw L H0 Hlen) in HE. congruence. }
  split.
  - intros id2label st logits inputs ignore_label st' out Hnd Hcall.
    destruct (logits_to_standoff_store _ _ _ _ _ _ _ Hnd Hcall) as [Hin Hout].
    split; [|split; [done|]].
    + intros i r Hi Hir. destruct (Hin i r Hi Hir) as (E & HE & ->).
      exists E. split; [done|]. split; [done|].
      split; [by apply Hclosed|done].
    + intros st'' out' Hcall' i r Hi Hir.
      destruct (logits_to_standoff_store _ _ _ _ _ _ _ Hnd Hcall')
        as [Hin' _].
      destruct (Hin i r Hi Hir) as (E & HE & Hst).
      destruct (Hin' i r Hi Hir) as (E2 & HE2 & Hst2).
      rewrite Hst in HE2, Hst2. simpl in HE2.
      exists E, E2. rewrite Hst, Hst2.
      split; [done|]. split; [done|]. split; [done|]. split; [done|].
      intros H0 Hlen.
      rewrite (Hclosed _ _ _ HE H0 Hlen) in HE2.
      apply Hclosed; [done|done|]. by rewrite extended_length.
  - intros row special st features logits out_label_ids st' out Hnd.
    unfold model_py.realign.
    destruct (model_py.features_loop _ _ _ _ _ _ _ _)
      as [st1 [[[preds offsets] lengths]|]] eqn:Hloop; [|done].
    intros [= <- _].
    destruct (features_loop_store special features logits out_label_ids
                _ st O _ _ _ Hnd Hloop) as [Hin Hout].
    split.
    + intros r (i & Hi)%list_elem_of_lookup.
      destruct (Hin i r) as (E & HE & ->); [|done|].
      { apply lookup_lt_Some in Hi. lia. }
      exists E. split; [done|]. split; [done|].
      split; [by apply Hclosed|done].
    + intros r Hr. apply Hout. intros i _ Hi. apply Hr.
      by eapply list_elem_of_lookup_2.
Qed.

(** On a window with "Sm" and its continuation "ith", of lengths 2
    and 3, the call leaves the lengths [[5; 3]] in the object; on
    the feature of [model.py] with "un" and "happy", of lengths 2
    and 5, the realignment leaves [[0; 7; 5; 0]]. *)
Lemma lengths_extended_in_place_witness :
  transformer_py.lengths
    ((transformer_py._logits_to_standoff id2label_example
        (λ _, feature_subword_example) logits_example [0%nat] "O").1 0%nat)
    = [5; 3] ∧
  model_py.input_lengths
    ((model_py.realign special_example model_store_example [O]
        [["cls"; "un"; "happy"; "sep"]] [[101; 5; 5; 102]]).1 0%nat)
    = [0; 7; 5; 0].
Proof.
  split.
  - destruct (proj1 lengths_extended_in_place id2label_example
                (λ _, feature_subword_example) logits_example [0%nat] "O"
                (transformer_py._logits_to_standoff id2label_example
                   (λ _, feature_subword_example) logits_example [0%nat]
                   "O").1
                []) as (H & _ & _).
    + apply NoDup_singleton.
    + vm_compute. reflexivity.
    + destruct (H 0%nat 0%nat (Nat.lt_0_succ 0) eq_refl)
        as (E & _ & -> & -> & _); [reflexivity|done|reflexivity].
  - destruct (proj2 lengths_extended_in_place string special_example
                model_store_example [O] [["cls"; "un"; "happy"; "sep"]]
                [[101; 5; 5; 102]]
                (model_py.realign special_example model_store_example [O]
                   [["cls"; "un"; "happy"; "sep"]] [[101; 5; 5; 102]]).1
                (["un"; "happy"], [7; 5], [0; 2])) as (H & _).
    + apply NoDup_singleton.
    + vm_compute. reflexivity.
    + destruct (H O (list_elem_of_here _ _))
        as (E & _ & -> & -> & _); [reflexivity|done|reflexivity].
Defined.

(** The example of C10 computed: the first call leaves the lengths
    [[5; 3]] in the object, the second [[8; 3]]. *)
Lemma lengths_extended_in_place_example :
  let call st := transformer_py._logits_to_standoff id2label_example st
                   logits_example [0%nat] "O" in
  let st0 : transformer_py.store := λ _, feature_subword_example in
  transformer_py.lengths ((call st0).1 0%nat) = [5; 3] ∧
  transformer_py.lengths ((call (call st0).1).1 0%nat) = [8; 3].
Proof. split; vm_compute; reflexivity. Qed.

(** ** The forward fill of the start offsets *)

Lemma word_start_le (mask : list bool) (j : nat) : (word_start mask j ≤ j)%nat.
Proof.
  induction j as [|j IH]; simpl; [done|].
  destruct (mask !! S j) as [[]|]; lia.
Qed.

Lemma word_start_mono (mask : list bool) (i j : nat) :
  (i ≤ j)%nat → (word_start mask i ≤ word_start mask j)%nat.
Proof.
  induction 1 as [|j Hij IH]; [done|]. simpl.
  destruct (mask !! S j) as [[]|]; [done| |];
    pose proof (word_start_le mask i); lia.
Qed.

(** The token a start is taken from is token 0 or not a continuation. *)
Lemma word_start_not_continuation (mask : list bool) (j : nat) :
  word_start mask j = O ∨ mask !! word_start mask j ≠ Some true.
Proof.
  induction j as [|j IH]; simpl; [by left|].
  destruct (mask !! S j) as [[]|] eqn:Hj; [done| |]; right; congruence.
Qed.

(** ... and the nearest such token before a continuation. *)
Lemma word_start_nearest (mask : list bool) (j k : nat) :
  (k ≤ j)%nat → mask !! k ≠ Some true ∨ k = O →
  (∀ i, (k < i ≤ j)%nat → mask !! i = Some true) →
  word_start mask j = k.
Proof.
  intros Hkj Hk Hrun. induction j as [|j IH].
  - by assert (k = O) as -> by lia.
  - destruct (decide (k = S j)) as [->|Hne].
    + simpl. destruct Hk as [Hk|Hk]; [|done].
      by destruct (mask !! S j) as [[]|].
    + simpl. rewrite Hrun by lia. apply IH; [lia|].
      intros i Hi. apply Hrun. lia.
Qed.

Lemma accumulate_from_lookup (acc : Z) (l : list Z) (j : nat) :
  accumulate_from acc l !! j =
    match j with
    | O => Z.max acc <$> l !! O
    | S j' =>
        match accumulate_from acc l !! j', l !! j with
        | Some a, Some x => Some (Z.max a x)
        | _, _ => None
        end
    end.
Proof.
  revert acc j. induction l as [|y l IH]; intros acc j.
  - by destruct j as [|[|j]].
  - destruct j as [|j]; [done|]. simpl. rewrite IH.
    destruct j as [|j]; simpl.
    + by destruct l.
    + done.
Qed.

Lemma maximum_accumulate_lookup (l : list Z) (j : nat) :
  maximum_accumulate l !! j =
    match j with
    | O => l !! O
    | S j' =>
        match maximum_accumulate l !! j', l !! j with
        | Some a, Some x => Some (Z.max a x)
        | _, _ => None
        end
    end.
Proof.
  destruct l as [|y l]; [by destruct j as [|[|j]]|].
  destruct j as [|j]; [done|]. simpl. rewrite accumulate_from_lookup.
  destruct j as [|j]; simpl; [by destruct l|done].
Qed.

Lemma where_not_lookup (mask : list bool) (j : nat) :
  where_not mask !! j = (λ m : bool, if m then 0 else Z.of_nat j) <$> mask !! j.
Proof. unfold where_not. by rewrite list_lookup_imap. Qed.

(** [idx] after [np.maximum.accumulate]: the index of the word start. *)
Lemma accumulated_idx (mask : list bool) (j : nat) :
  (j < length mask)%nat →
  maximum_accumulate (where_not mask) !! j = Some (Z.of_nat (word_start mask j)).
Proof.
  induction j as [|j IH]; intros Hj; rewrite maximum_accumulate_lookup.
  - rewrite where_not_lookup.
    destruct (lookup_lt_is_Some_2 mask O Hj) as [m ->]. by destruct m.
  - rewrite IH by lia. rewrite where_not_lookup.
    destruct (lookup_lt_is_Some_2 mask (S j) Hj) as [m Hm]. rewrite Hm.
    simpl. rewrite Hm. pose proof (word_start_le mask j).
    destruct m; f_equal; lia.
Qed.

Lemma length_accumulate_from (acc : Z) (l : list Z) :
  length (accumulate_from acc l) = length l.
Proof.
  revert acc. induction l as [|x l IH]; intros acc; simpl; [done|].
  by rewrite IH.
Qed.

Lemma length_maximum_accumulate (l : list Z) :
  length (maximum_accumulate l) = length l.
Proof. destruct l; simpl; [done|]. by rewrite length_accumulate_from. Qed.

(** With a flag per token, the forward fill raises nothing and gives
    every token the start of its word. *)
Lemma forward_fill_snapped (tokens_start : list Z) (mask : list bool) :
  length mask = length tokens_start →
  forward_fill tokens_start mask (maximum_accumulate (where_not mask))
    = Ok (snapped mask tokens_start).
Proof.
  intros Hlen. unfold forward_fill.
  case_bool_decide as Hnil; [subst mask; by destruct tokens_start|].
  rewrite bool_decide_eq_true_2 by done.
  apply for_each_Ok. apply Forall2_same_length_lookup_2.
  { unfold snapped. rewrite length_imap, !length_zip,
      length_maximum_accumulate. unfold where_not. rewrite length_imap. lia. }
  intros i [s [m k]] y [Hs [Hm Hk]%lookup_zip_Some]%lookup_zip_Some Hy.
  unfold snapped in Hy. rewrite list_lookup_imap, Hs in Hy.
  injection Hy as <-.
  rewrite accumulated_idx in Hk by (by eapply lookup_lt_Some).
  injection Hk as <-.
  pose proof (word_start_le mask i) as Hle.
  destruct (lookup_lt_is_Some_2 tokens_start (word_start mask i)) as [s' Hs'].
  { apply lookup_lt_Some in Hs. lia. }
  rewrite Hs'. simpl. destruct m.
  - by apply getitem_nat.
  - f_equal. destruct i as [|i]; simpl in *; [congruence|].
    rewrite Hm in Hs'. congruence.
Qed.

Lemma snapped_starts_snapped (t : tokenized) :
  length (tokens_sw t) = length (tokens_idx t) →
  snapped_starts t = Ok (snapped (sw_mask (tokens_sw t)) (fst <$> tokens_idx t)).
Proof.
  intros Hlen. unfold snapped_starts. apply forward_fill_snapped.
  unfold sw_mask. by rewrite !length_fmap.
Qed.

Lemma snapped_length (mask : list bool) (ts : list Z) :
  length (snapped mask ts) = length ts.
Proof. unfold snapped. by rewrite length_imap. Qed.

Lemma snapped_lookup (mask : list bool) (ts : list Z) (j : nat) :
  (j < length ts)%nat →
  snapped mask ts !! j = ts !! word_start mask j.
Proof.
  intros Hj. unfold snapped. rewrite list_lookup_imap.
  destruct (lookup_lt_is_Some_2 ts j Hj) as [s ->].
  destruct (lookup_lt_is_Some_2 ts (word_start mask j)) as [s' ->]; [|done].
  pose proof (word_start_le mask j). lia.
Qed.

(** Where the starts of the tokens do not decrease, neither do the
    snapped ones. *)
Lemma snapped_mono (mask : list bool) (ts : list Z) (i j : nat) (a b : Z) :
  (∀ i j a b, (i ≤ j)%nat → ts !! i = Some a → ts !! j = Some b → a ≤ b) →
  (i ≤ j)%nat → snapped mask ts !! i = Some a → snapped mask ts !! j = Some b →
  a ≤ b.
Proof.
  intros Hmono Hij Ha Hb.
  assert (j < length ts)%nat as Hj.
  { apply lookup_lt_Some in Hb. by rewrite snapped_length in Hb. }
  rewrite snapped_lookup in Ha, Hb by lia.
  eapply Hmono; [|exact Ha|exact Hb]. by apply word_start_mono.
Qed.

(** ** The windows *)

Lemma seq_offsets_short (text : string) (t : tokenized) (S L : Z)
    (o : Z * Z) (rest : list (Z * Z)) :
  length (tokens_sw t) = length (tokens_idx t) →
  tokens_idx t = o :: rest →
  Z.of_nat (length (tokens t)) ≤ L →
  seq_offsets text t S L = Ok [(o.1, text_len text)].
Proof.
  intros Hlen Hidx Hshort. unfold seq_offsets.
  rewrite (snapped_starts_snapped t Hlen). simpl.
  rewrite bool_decide_eq_true_2 by done.
  rewrite (getitem_nat _ O o.1); [done|].
  rewrite snapped_lookup; rewrite Hidx; simpl; [done|lia].
Qed.

Lemma elem_of_windows (text : string) (offs : list (Z * Z)) (w : example) :
  w ∈ (λ '(i, (start, stop)), (i, start, stop, slice text start stop))
        <$> enumerate offs →
  (example_start w, example_stop w) ∈ offs.
Proof.
  intros ([i [a b]] & -> & Hin)%list_elem_of_fmap.
  unfold enumerate in Hin.
  apply elem_of_lookup_imap in Hin as (k & [a' b'] & [= -> -> ->] & Hk).
  by eapply list_elem_of_lookup_2.
Qed.

Lemma windows_elem_of (text : string) (offs : list (Z * Z)) (a b : Z) :
  (a, b) ∈ offs →
  ∃ w, w ∈ (λ '(i, (start, stop)), (i, start, stop, slice text start stop))
             <$> enumerate offs ∧
       example_start w = a ∧ example_stop w = b.
Proof.
  intros (k & Hk)%list_elem_of_lookup.
  exists (Z.of_nat k, a, b, slice text a b). split; [|done].
  apply list_elem_of_fmap. exists (Z.of_nat k, (a, b)). split; [done|].
  unfold enumerate. apply elem_of_lookup_imap. eauto.
Qed.

(** ** C6: a text of at most [sequence_length] tokens *)

(** C6, as stated, fails. The text [" a"] has one token, which starts
    at offset 1: the single window is [[1, 2)], not the whole text
    [[0, 2)]. And a text without tokens has at most
    [sequence_length] tokens and gives no window. *)
Lemma short_text_window_counterexample :
  Z.of_nat (length (tokens (tokenize_example " a"))) ≤ 100 ∧
  split_by_overlap tokenize_example " a" 20 100 = Ok [(0, 1, 2, "a")] ∧
  text_len " a" = 2 ∧
  Z.of_nat (length (tokens (tokenize_example ""))) ≤ 100 ∧
  split_by_overlap tokenize_example "" 20 100 = Ok [].
Proof. repeat split; vm_compute; congruence. Qed.

(** C6, amended. For a text of at most [sequence_length] tokens, with
    a flag per token: without tokens there is no window; otherwise
    there is exactly one window, window 0, from the start of the first
    token to the end of the text, and its text is that slice. *)
Theorem short_text_single_window (tokenize_with_index : string → tokenized)
    (text : string) (token_step_size sequence_length : Z) :
  length (tokens_sw (tokenize_with_index text))
    = length (tokens_idx (tokenize_with_index text)) →
  Z.of_nat (length (tokens (tokenize_with_index text))) ≤ sequence_length →
  match tokens_idx (tokenize_with_index text) with
  | [] =>
      split_by_overlap tokenize_with_index text token_step_size
        sequence_length = Ok []
  | o :: _ =>
      split_by_overlap tokenize_with_index text token_step_size
        sequence_length
      = Ok [(0, o.1, text_len text, slice text o.1 (text_len text))]
  end.
Proof.
  intros Hlen Hshort. unfold split_by_overlap.
  pose proof (seq_offsets_short text (tokenize_with_index text)
                token_step_size sequence_length) as Hoffs.
  destruct (tokens_idx (tokenize_with_index text)) as [|o rest]; [done|].
  rewrite bool_decide_eq_false_2 by done.
  by rewrite (Hoffs o rest Hlen eq_refl Hshort).
Qed.

Lemma short_text_single_window_witness :
  length (tokens_sw (tokenize_example "ab cd ef"))
    = length (tokens_idx (tokenize_example "ab cd ef")) ∧
  Z.of_nat (length (tokens (tokenize_example "ab cd ef"))) ≤ 100 ∧
  split_by_overlap tokenize_example "ab cd ef" 20 100
    = Ok [(0, 0, 8, "ab cd ef")].
Proof.
  split; [reflexivity|]. split; [vm_compute; congruence|].
  exact (short_text_single_window tokenize_example "ab cd ef" 20 100
           eq_refl ltac:(vm_compute; congruence)).
Defined.

Lemma length_range_from (x s : Z) (count : nat) :
  length (range_from x s count) = count.
Proof.
  revert x. induction count as [|c IH]; intros x; simpl; [done|].
  by rewrite IH.
Qed.

Lemma range_from_lookup (x s : Z) (count k : nat) :
  (k < count)%nat → range_from x s count !! k = Some (x + Z.of_nat k * s).
Proof.
  revert x k. induction count as [|c IH]; intros x k Hk; [lia|].
  destruct k as [|k]; simpl.
  - f_equal. lia.
  - rewrite IH by lia. f_equal. lia.
Qed.

(** [xs[-1]] on a range that is not empty. *)
Lemma range_from_last (x s : Z) (c : nat) :
  getitem (range_from x s (S c)) (-1) = Ok (x + Z.of_nat c * s).
Proof.
  unfold getitem, position. rewrite length_range_from.
  rewrite bool_decide_eq_false_2 by lia.
  rewrite bool_decide_eq_true_2 by lia.
  replace (Z.to_nat (-1 + Z.of_nat (S c))) with c by lia.
  by rewrite range_from_lookup by lia.
Qed.

Section Windows.

Variable starts : list Z.
Variables len_text token_step_size sequence_length : Z.

Local Abbreviation start_at z := (default 0 (starts !! Z.to_nat z)).
Local Abbreviation n := (Z.of_nat (length starts)).

Lemma getitem_start_at (x : Z) :
  0 ≤ x < n → getitem starts x = Ok (start_at x).
Proof.
  intros Hx. destruct (getitem_in_range starts x Hx) as (s & -> & ->). done.
Qed.

(** The windows the comprehension and the last window make, from token
    [x] on, are those of [windows_from], and nothing is raised, when
    all the indices are in range. *)
Lemma for_each_windows_from (count : nat) (x : Z) :
  0 ≤ token_step_size → 0 ≤ sequence_length → 0 ≤ x →
  x + Z.of_nat count * token_step_size < n →
  (count = O ∨
   x + (Z.of_nat count - 1) * token_step_size + sequence_length < n) →
  (ws <- for_each
           (λ x, a <- getitem starts x ;;
                 b <- getitem starts (x + sequence_length) ;;
                 Ok (a, b))
           (range_from x token_step_size count) ;;
   e <- getitem starts (x + Z.of_nat count * token_step_size) ;;
   Ok (ws ++ [(e, len_text)]))
  = Ok (windows_from starts len_text token_step_size sequence_length x count).
Proof.
  intros HS HL. revert x. induction count as [|c IH]; intros x Hx H1 H2.
  - simpl. rewrite Z.add_0_r. rewrite getitem_start_at by lia. done.
  - destruct H2 as [|H2]; [done|].
    cbn [range_from for_each windows_from].
    rewrite (getitem_start_at x) by nia. cbn [Py.bind].
    rewrite (getitem_start_at (x + sequence_length)) by nia. cbn [Py.bind].
    specialize (IH (x + token_step_size)).
    replace (x + token_step_size + Z.of_nat c * token_step_size)
      with (x + Z.of_nat (S c) * token_step_size) in IH by lia.
    assert (c = O ∨ x + token_step_size
                      + (Z.of_nat c - 1) * token_step_size
                      + sequence_length < n) as H2'.
    { destruct c as [|c]; [by left|]. right. nia. }
    specialize (IH ltac:(lia) ltac:(lia) H2'). revert IH.
    destruct (for_each _ (range_from _ _ c)) as [ws|]; simpl; [|done].
    destruct (getitem starts _) as [e|]; simpl; [|done].
    by intros [= <-].
Qed.

Hypothesis starts_mono :
  ∀ (i j : nat) a b, (i ≤ j)%nat →
    starts !! i = Some a → starts !! j = Some b → a ≤ b.
Hypothesis starts_in_text : ∀ (j : nat) a, starts !! j = Some a → a ≤ len_text.

Lemma start_at_mono (x y : Z) : 0 ≤ x ≤ y → y < n → start_at x ≤ start_at y.
Proof.
  intros Hxy Hy.
  destruct (lookup_lt_is_Some_2 starts (Z.to_nat x)) as [a Ha]; [lia|].
  destruct (lookup_lt_is_Some_2 starts (Z.to_nat y)) as [b Hb]; [lia|].
  rewrite Ha, Hb. simpl. eapply starts_mono; [|exact Ha|exact Hb]. lia.
Qed.

Lemma start_at_in_text (x : Z) : 0 ≤ x < n → start_at x ≤ len_text.
Proof.
  intros Hx.
  destruct (lookup_lt_is_Some_2 starts (Z.to_nat x)) as [a Ha]; [lia|].
  rewrite Ha. simpl. by eapply starts_in_text.
Qed.

(** The windows from token [x] on cover the text from the start of
    token [x] to its end, and nothing else, when the step is at most
    the length of a window. *)
Lemma windows_from_cover (count : nat) (x c : Z) :
  0 < token_step_size ≤ sequence_length → 0 ≤ x →
  x + Z.of_nat count * token_step_size < n →
  (count = O ∨
   x + (Z.of_nat count - 1) * token_step_size + sequence_length < n) →
  (∃ a b, (a, b) ∈ windows_from starts len_text token_step_size
                     sequence_length x count ∧ a ≤ c < b)
  ↔ start_at x ≤ c < len_text.
Proof.
  intros HSL. revert x. induction count as [|k IH]; intros x Hx H1 H2.
  - simpl. split.
    + by intros (a & b & [= -> ->]%list_elem_of_singleton & Hc).
    + intros Hc. eexists _, _. split; [apply list_elem_of_here|done].
  - destruct H2 as [|H2]; [done|].
    assert (x + token_step_size + Z.of_nat k * token_step_size < n) as H1'
      by lia.
    assert (k = O ∨ x + token_step_size + (Z.of_nat k - 1) * token_step_size
                      + sequence_length < n) as H2'.
    { destruct k as [|k]; [by left|]. right. nia. }
    specialize (IH (x + token_step_size) ltac:(lia) H1' H2').
    assert (start_at x ≤ start_at (x + token_step_size)) as Hnext
      by (apply start_at_mono; nia).
    assert (start_at (x + token_step_size) ≤ start_at (x + sequence_length))
      as Hover by (apply start_at_mono; nia).
    assert (start_at (x + sequence_length) ≤ len_text) as Hend
      by (apply start_at_in_text; nia).
    cbn [windows_from]. split.
    + intros (a & b & [[= -> ->]|Hin]%elem_of_cons & Hc); [lia|].
      assert (start_at (x + token_step_size) ≤ c < len_text) by
        (apply IH; eauto). lia.
    + intros Hc.
      destruct (decide (c < start_at (x + token_step_size))) as [Hlt|Hge].
      * eexists _, _. split; [apply list_elem_of_here|lia].
      * destruct (proj2 IH) as (a & b & Hin & Hab); [lia|].
        exists a, b. split; [by apply list_elem_of_further|done].
Qed.

End Windows.

(** The windows of a text of more than [sequence_length] tokens. *)
Lemma seq_offsets_long (text : string) (t : tokenized) (S L : Z) :
  length (tokens_sw t) = length (tokens_idx t) →
  length (tokens t) = length (tokens_idx t) →
  0 < S ≤ L → L < Z.of_nat (length (tokens t)) →
  seq_offsets text t S L
  = Ok (windows_from (snapped (sw_mask (tokens_sw t)) (fst <$> tokens_idx t))
          (text_len text) S L 0
          (Z.to_nat ((Z.of_nat (length (tokens t)) - L - 1) / S + 1))).
Proof.
  intros Hsw Htok HSL Hlong. unfold seq_offsets.
  rewrite (snapped_starts_snapped t Hsw). cbn [Py.bind].
  rewrite bool_decide_eq_false_2 by lia.
  set (starts := snapped _ _).
  assert (Z.of_nat (length starts) = Z.of_nat (length (tokens t))) as Hn.
  { unfold starts. by rewrite snapped_length, length_fmap, Htok. }
  set (n := Z.of_nat (length (tokens t))) in *.
  unfold range, range_len.
  rewrite bool_decide_eq_false_2 by lia.
  rewrite !bool_decide_eq_true_2 by lia.
  replace (n - L - 0 - 1) with (n - L - 1) by lia.
  pose proof (Z.div_mod (n - L - 1) S ltac:(lia)) as Hdiv.
  pose proof (Z.mod_pos_bound (n - L - 1) S ltac:(lia)) as Hmod.
  assert (0 ≤ (n - L - 1) / S) as Hq by (apply Z.div_pos; lia).
  set (q := (n - L - 1) / S) in *.
  replace (Z.to_nat (q + 1)) with (Datatypes.S (Z.to_nat q)) by lia.
  cbn [Py.bind]. rewrite range_from_last. cbn [Py.bind].
  replace (0 + Z.of_nat (Z.to_nat q) * S + S)
    with (0 + Z.of_nat (Datatypes.S (Z.to_nat q)) * S) by lia.
  apply for_each_windows_from; lia.
Qed.

Lemma window_count_bounds (n S L : Z) :
  0 < S ≤ L → L < n →
  0 + Z.of_nat (Z.to_nat ((n - L - 1) / S + 1)) * S < n ∧
  (Z.to_nat ((n - L - 1) / S + 1) = O ∨
   0 + (Z.of_nat (Z.to_nat ((n - L - 1) / S + 1)) - 1) * S + L < n).
Proof.
  intros HSL Hlong.
  pose proof (Z.div_mod (n - L - 1) S ltac:(lia)) as Hdiv.
  pose proof (Z.mod_pos_bound (n - L - 1) S ltac:(lia)) as Hmod.
  assert (0 ≤ (n - L - 1) / S) as Hq by (apply Z.div_pos; lia).
  set (q := (n - L - 1) / S) in *.
  rewrite Z2Nat.id by lia. split; [nia|]. right. nia.
Qed.

(** ** C3: what the windows cover *)

(** C3, as stated, fails. The one window of [" a"] starts at the first
    token, offset 1, so offset 0 of the text is in no window. And with
    a step larger than the window (2 tokens against 1) the windows of
    "ab cd ef" are [[0, 3)] and [[6, 8)]: offset 3, in the token "cd",
    is in no window. *)
Lemma windows_cover_counterexample :
  split_by_overlap tokenize_example " a" 20 100 = Ok [(0, 1, 2, "a")] ∧
  text_len " a" = 2 ∧
  ¬ (∃ w : example, w ∈ [(0, 1, 2, "a")] ∧
                    example_start w ≤ 0 < example_stop w) ∧
  split_by_overlap tokenize_example "ab cd ef" 2 1
    = Ok [(0, 0, 3, "ab "); (1, 6, 8, "ef")] ∧
  ¬ (∃ w : example, w ∈ [(0, 0, 3, "ab "); (1, 6, 8, "ef")] ∧
                    example_start w ≤ 3 < example_stop w).
Proof.
  split; [vm_compute; reflexivity|]. split; [reflexivity|]. split.
  { intros (w & Heq%list_elem_of_singleton & Hw). subst w.
    vm_compute in Hw. destruct Hw as [Hw _]. by apply Hw. }
  split; [vm_compute; reflexivity|].
  intros (w & Hin & Hw).
  apply elem_of_cons in Hin as [->|Hin];
    [|apply list_elem_of_singleton in Hin as ->];
    vm_compute in Hw; destruct Hw as [Hw1 Hw2];
    [discriminate Hw2 | by apply Hw1].
Qed.

(** C3, amended. For a text with at least one token, a flag and an
    offset pair per token, token starts that do not decrease and lie
    in the text, and either at most [sequence_length] tokens or a step
    [0 < token_step_size <= sequence_length]: the splitter returns
    windows, and the union of their character ranges is the interval
    from the start of the first token to the end of the text (the
    whole text when the first token starts at offset 0). *)
Theorem windows_cover_from_first_token
    (tokenize_with_index : string → tokenized) (text : string)
    (token_step_size sequence_length : Z) (o : Z * Z) (rest : list (Z * Z)) :
  length (tokens_sw (tokenize_with_index text))
    = length (tokens_idx (tokenize_with_index text)) →
  length (tokens (tokenize_with_index text))
    = length (tokens_idx (tokenize_with_index text)) →
  tokens_idx (tokenize_with_index text) = o :: rest →
  (∀ (i j : nat) a b, (i ≤ j)%nat →
     tokens_idx (tokenize_with_index text) !! i = Some a →
     tokens_idx (tokenize_with_index text) !! j = Some b → a.1 ≤ b.1) →
  (∀ (j : nat) a, tokens_idx (tokenize_with_index text) !! j = Some a →
     a.1 ≤ text_len text) →
  (Z.of_nat (length (tokens (tokenize_with_index text))) ≤ sequence_length ∨
   0 < token_step_size ≤ sequence_length) →
  ∃ windows,
    split_by_overlap tokenize_with_index text token_step_size sequence_length
      = Ok windows ∧
    ∀ c, (∃ w, w ∈ windows ∧ example_start w ≤ c < example_stop w)
         ↔ o.1 ≤ c < text_len text.
Proof.
  intros Hsw Htok Hidx Hmono Hbound Hsize. unfold split_by_overlap.
  rewrite bool_decide_eq_false_2 by (by rewrite Hidx).
  set (t := tokenize_with_index text) in *.
  destruct (decide (Z.of_nat (length (tokens t)) ≤ sequence_length))
    as [Hshort|Hlong].
  - rewrite (seq_offsets_short text t _ _ o rest Hsw Hidx Hshort).
    eexists. split; [done|]. intros c. simpl. split.
    + intros (w & Heq%list_elem_of_singleton & Hw). by subst w.
    + intros Hc. eexists. split; [apply list_elem_of_here|done].
  - destruct Hsize as [?|HSL]; [done|].
    rewrite (seq_offsets_long text t _ _ Hsw Htok HSL) by lia.
    eexists. split; [done|]. intros c.
    set (starts := snapped (sw_mask (tokens_sw t)) (fst <$> tokens_idx t)).
    assert (Z.of_nat (length starts) = Z.of_nat (length (tokens t))) as Hn.
    { unfold starts. by rewrite snapped_length, length_fmap, Htok. }
    destruct (window_count_bounds (Z.of_nat (length (tokens t)))
                token_step_size sequence_length HSL ltac:(lia)) as [H1 H2].
    pose proof (windows_from_cover starts (text_len text) token_step_size
                  sequence_length) as Hcover.
    specialize (Hcover
      (λ i j a b Hij Ha Hb,
         snapped_mono _ (fst <$> tokens_idx t) i j a b
           (λ i j a b Hij Ha Hb,
              ltac:(rewrite list_lookup_fmap in Ha, Hb;
                    destruct (tokens_idx t !! i) as [a'|] eqn:Ea; [|done];
                    destruct (tokens_idx t !! j) as [b'|] eqn:Eb; [|done];
                    simplify_eq/=; by eapply Hmono))
           Hij Ha Hb)).
    assert (∀ (j : nat) a, starts !! j = Some a → a ≤ text_len text) as Hin.
    { intros j a Ha. unfold starts in Ha.
      assert (j < length (fst <$> tokens_idx t))%nat as Hj.
      { apply lookup_lt_Some in Ha. by rewrite snapped_length in Ha. }
      rewrite snapped_lookup in Ha by done.
      rewrite list_lookup_fmap in Ha.
      destruct (tokens_idx t !! _) as [a'|] eqn:Ea; [|done].
      simplify_eq/=. by eapply Hbound. }
    rewrite <- Hn in H1, H2.
    specialize (Hcover Hin _ 0 c HSL (Z.le_refl 0) H1 H2).
    rewrite Hn in Hcover.
    assert (default 0 (starts !! Z.to_nat 0) = o.1) as Hs0.
    { unfold starts. rewrite snapped_lookup; rewrite Hidx; simpl; [done|lia]. }
    rewrite Hs0 in Hcover. rewrite <- Hcover. split.
    + intros (w & Hw & Hc). apply elem_of_windows in Hw. eauto.
    + intros (a & b & Hab & Hc).
      destruct (windows_elem_of text _ a b Hab) as (w & Hw & <- & <-). eauto.
Qed.

Lemma windows_cover_from_first_token_witness :
  ∃ windows,
    split_by_overlap tokenize_example "ab cd ef" 1 2 = Ok windows ∧
    ∀ c, (∃ w, w ∈ windows ∧ example_start w ≤ c < example_stop w)
         ↔ 0 ≤ c < text_len "ab cd ef".
Proof.
  apply (windows_cover_from_first_token tokenize_example "ab cd ef" 1 2
           (0, 2) [(3, 5); (6, 8)]).
  - reflexivity.
  - reflexivity.
  - reflexivity.
  - change (tokens_idx (tokenize_example "ab cd ef"))
      with [(0, 2); (3, 5); (6, 8)].
    intros i j a b Hij Ha Hb.
    destruct i as [|[|[|i]]]; destruct j as [|[|[|j]]];
      simplify_eq/=; lia.
  - change (tokens_idx (tokenize_example "ab cd ef"))
      with [(0, 2); (3, 5); (6, 8)].
    intros j a Ha. destruct j as [|[|[|j]]]; simplify_eq/=; vm_compute;
      congruence.
  - right. lia.
Defined.

(** ** C5: window boundaries and subword continuations *)

(** Every boundary of a window is a snapped start or the length of the
    text. *)
Lemma seq_offsets_bounds (text : string) (t : tokenized) (S L : Z)
    (starts : list Z) (offs : list (Z * Z)) (a b : Z) :
  snapped_starts t = Ok starts →
  seq_offsets text t S L = Ok offs → (a, b) ∈ offs →
  a ∈ starts ∧ (b ∈ starts ∨ b = text_len text).
Proof.
  intros Hst. unfold seq_offsets. rewrite Hst. cbn [Py.bind].
  case_bool_decide.
  - intros (s0 & Hs0 & [= <-])%bind_Ok [= -> ->]%list_elem_of_singleton.
    split; [by eapply getitem_elem_of | by right].
  - intros (xs & _ & (last & _ & (ws & Hws & (e & He & [= <-])%bind_Ok)
              %bind_Ok)%bind_Ok)%bind_Ok.
    intros [Hin|Hin%list_elem_of_singleton]%elem_of_app.
    + destruct (for_each_elem_of _ _ _ _ Hws Hin) as (x & _ & Hx).
      apply bind_Ok in Hx as (a' & Ha & (b' & Hb & [= -> ->])%bind_Ok).
      split; [|left]; by eapply getitem_elem_of.
    + injection Hin as -> ->. split; [by eapply getitem_elem_of | by right].
Qed.

Lemma sw_mask_lookup (tokens_sw : list Z) (j : nat) :
  sw_mask tokens_sw !! j = Some true ↔ tokens_sw !! j = Some 1.
Proof.
  unfold sw_mask. rewrite list_lookup_fmap.
  destruct (tokens_sw !! j) as [s|]; simpl; [|done]. split.
  - intros [= Hs]. apply bool_decide_eq_true in Hs. by subst.
  - intros [= ->]. done.
Qed.

(** C5. With a flag and an offset pair per token, the tokens in text
    order, not overlapping and inside the text: the forward fill gives
    a continuation token the start of the nearest token before it that
    is not a continuation; every boundary of a window the splitter
    returns is the end of the text or the start of a token that is not
    a continuation (or of token 0); and no boundary lies strictly
    inside a continuation token. *)
Theorem window_bounds_subword_safe
    (tokenize_with_index : string → tokenized) (text : string)
    (token_step_size sequence_length : Z) (windows : list example) :
  length (tokens_sw (tokenize_with_index text))
    = length (tokens_idx (tokenize_with_index text)) →
  (∀ (i j : nat) a b, (i < j)%nat →
     tokens_idx (tokenize_with_index text) !! i = Some a →
     tokens_idx (tokenize_with_index text) !! j = Some b →
     a.1 ≤ b.1 ∧ a.2 ≤ b.1) →
  (∀ (j : nat) a, tokens_idx (tokenize_with_index text) !! j = Some a →
     a.2 ≤ text_len text) →
  split_by_overlap tokenize_with_index text token_step_size sequence_length
    = Ok windows →
  (∃ starts,
     snapped_starts (tokenize_with_index text) = Ok starts ∧
     ∀ (j k : nat) o, (k < j)%nat →
       tokens_sw (tokenize_with_index text) !! k ≠ Some 1 →
       (∀ i, (k < i ≤ j)%nat →
          tokens_sw (tokenize_with_index text) !! i = Some 1) →
       tokens_idx (tokenize_with_index text) !! k = Some o →
       starts !! j = Some o.1) ∧
  ∀ w bound, w ∈ windows →
    bound = example_start w ∨ bound = example_stop w →
    (bound = text_len text ∨
     ∃ (k : nat) o, tokens_idx (tokenize_with_index text) !! k = Some o ∧
                    o.1 = bound ∧
                    (k = O ∨
                     tokens_sw (tokenize_with_index text) !! k ≠ Some 1)) ∧
    ∀ (j : nat) o, tokens_idx (tokenize_with_index text) !! j = Some o →
      tokens_sw (tokenize_with_index text) !! j = Some 1 →
      ¬ (o.1 < bound < o.2).
Proof.
  set (t := tokenize_with_index text).
  intros Hsw Horder Hbound Hsplit.
  pose proof (snapped_starts_snapped t Hsw) as Hst.
  set (mask := sw_mask (tokens_sw t)) in *.
  set (ts := fst <$> tokens_idx t) in *.
  split.
  { exists (snapped mask ts). split; [done|].
    intros j k o Hkj Hk Hrun Ho.
    assert (j < length ts)%nat as Hj.
    { unfold ts. rewrite length_fmap, <- Hsw. eapply lookup_lt_Some.
      apply (Hrun j). lia. }
    rewrite snapped_lookup by done.
    rewrite (word_start_nearest mask j k).
    - unfold ts. by rewrite list_lookup_fmap, Ho.
    - lia.
    - left. unfold mask. by rewrite sw_mask_lookup.
    - intros i Hi. unfold mask. apply sw_mask_lookup. by apply Hrun. }
  assert (∀ bound, bound ∈ snapped mask ts →
            ∃ (k : nat) o, tokens_idx t !! k = Some o ∧ o.1 = bound ∧
                           (k = O ∨ tokens_sw t !! k ≠ Some 1)) as Hstart.
  { intros bound (j & Hj)%list_elem_of_lookup.
    assert (j < length ts)%nat as Hjl.
    { apply lookup_lt_Some in Hj. by rewrite snapped_length in Hj. }
    rewrite snapped_lookup in Hj by done. unfold ts in Hj.
    rewrite list_lookup_fmap in Hj.
    destruct (tokens_idx t !! word_start mask j) as [o|] eqn:Ho; [|done].
    injection Hj as <-. exists (word_start mask j), o.
    split; [done|]. split; [done|].
    destruct (word_start_not_continuation mask j) as [?|Hnc]; [by left|].
    right. unfold mask in Hnc. by rewrite sw_mask_lookup in Hnc. }
  assert (∀ bound,
            (bound = text_len text ∨
             ∃ (k : nat) o, tokens_idx t !! k = Some o ∧ o.1 = bound ∧
                            (k = O ∨ tokens_sw t !! k ≠ Some 1)) →
            ∀ (j : nat) o, tokens_idx t !! j = Some o →
              tokens_sw t !! j = Some 1 → ¬ (o.1 < bound < o.2)) as Hsafe.
  { intros bound [->|(k & o' & Hk & <- & _)] j o Ho _ Hin.
    - pose proof (Hbound j o Ho). lia.
    - destruct (Nat.lt_trichotomy k j) as [Hlt|[->|Hlt]].
      + pose proof (Horder k j o' o Hlt Hk Ho). lia.
      + assert (o' = o) by congruence. subst. lia.
      + pose proof (Horder j k o o' Hlt Ho Hk). lia. }
  intros w bound Hw Hb.
  assert (bound = text_len text ∨
          ∃ (k : nat) o, tokens_idx t !! k = Some o ∧ o.1 = bound ∧
                         (k = O ∨ tokens_sw t !! k ≠ Some 1)) as Hcase.
  { unfold split_by_overlap in Hsplit. fold t in Hsplit.
    case_bool_decide; [injection Hsplit as <-; by apply elem_of_nil in Hw|].
    apply bind_Ok in Hsplit as (offs & Hoffs & [= <-]).
    apply elem_of_windows in Hw.
    destruct (seq_offsets_bounds text t _ _ _ _ _ _ Hst Hoffs Hw)
      as [Ha Hb'].
    destruct Hb as [->| ->].
    - right. by apply Hstart.
    - destruct Hb' as [Hb'|Hb']; [right; by apply Hstart | by left]. }
  split; [done|]. by apply Hsafe.
Qed.

Lemma window_bounds_subword_safe_witness :
  split_by_overlap tokenize_subword_example "unhappy day" 1 1
    = Ok [(0, 0, 0, ""); (1, 0, 8, "unhappy "); (2, 8, 11, "day")] ∧
  ∀ w bound,
    w ∈ [(0, 0, 0, "") : example; (1, 0, 8, "unhappy "); (2, 8, 11, "day")] →
    bound = example_start w ∨ bound = example_stop w →
    ∀ (j : nat) o,
      tokens_idx (tokenize_subword_example "unhappy day") !! j = Some o →
      tokens_sw (tokenize_subword_example "unhappy day") !! j = Some 1 →
      ¬ (o.1 < bound < o.2).
Proof.
  split; [vm_compute; reflexivity|].
  intros w bound Hw Hb.
  refine (proj2 (proj2 (window_bounds_subword_safe tokenize_subword_example
                          "unhappy day" 1 1 _ _ _ _ _) w bound Hw Hb)).
  - reflexivity.
  - change (tokens_idx (tokenize_subword_example "unhappy day"))
      with [(0, 2); (2, 7); (8, 11)].
    intros i j a b Hij Ha Hb'.
    destruct i as [|[|[|i]]]; destruct j as [|[|[|j]]];
      simplify_eq/=; lia.
  - change (tokens_idx (tokenize_subword_example "unhappy day"))
      with [(0, 2); (2, 7); (8, 11)].
    intros j a Ha. destruct j as [|[|[|j]]]; simplify_eq/=; vm_compute;
      congruence.
  - vm_compute. reflexivity.
Defined.

(** ** C4: the overlap fraction of the segment splitter *)

(** The length [seq_len] computed from [feature_overlap] is not used:
    where the conversion to an integer raises nothing, the segments
    are those made without an overlap. *)
Lemma split_text_overlap_ignored
    (encode : string → bool → transformer_py.Encoding)
    (pad : transformer_py.Encoding → Z → transformer_py.Encoding)
    (max_len_single_sentence model_max_length : Z) (text : string)
    (f : float) (n : Z) :
  transformer_py.seq_len max_len_single_sentence (Some f) = Ok n →
  transformer_py._split_text_into_segments encode pad max_len_single_sentence
    model_max_length text (Some f)
  = transformer_py._split_text_into_segments encode pad
      max_len_single_sentence model_max_length text None.
Proof.
  intros Hn. unfold transformer_py._split_text_into_segments.
  destruct (transformer_py.not_subword_rows _ _) as [start_idx|]; [|done].
  cbn [Py.bind]. by rewrite Hn.
Qed.

(** C4 on the example: with an overlap of one half and segments of at
    most 6, the length computed is 3, and the segments are the two
    made without overlap, "ab cd " from offset 0 and "ef" from offset
    6, which share no token. *)
Lemma split_text_overlap_example :
  transformer_py.seq_len 6 (Some 0.5%float) = Ok 3 ∧
  transformer_py._split_text_into_segments encode_example pad_example 6 6
    "ab cd ef" (Some 0.5%float) = Ok inputs_example ∧
  transformer_py._split_text_into_segments encode_example pad_example 6 6
    "ab cd ef" None = Ok inputs_example ∧
  (transformer_py.offsets <$> inputs_example)
    = [[0; 0; 3; 0; 0; 0]; [6; 6; 6; 6; 6; 6]] ∧
  (transformer_py.lengths <$> inputs_example)
    = [[0; 2; 2; 0; 0; 0]; [0; 2; 0; 0; 0; 0]].
Proof. repeat split; vm_compute; reflexivity. Qed.

(** * Further properties of the code *)

(** ** The extension loop: when it raises, and what a word gets *)

Lemma getitem_Raise {A} (l : list A) (i : Z) (e : exn) :
  getitem l i = Raise e → e = IndexError.
Proof.
  unfold getitem. destruct (position _ _) as [k|]; [|by intros [= <-]].
  destruct (l !! k); [done | by intros [= <-]].
Qed.

Lemma getitem_out_of_range {A} (l : list A) (k : nat) :
  (length l ≤ k)%nat → getitem l (Z.of_nat k) = Raise IndexError.
Proof.
  intros Hk. unfold getitem, position.
  by rewrite !bool_decide_eq_false_2 by lia.
Qed.

Lemma extend_from_Ok (sw : list bool) (j : nat) (cur : list Z) :
  (∀ k, (k < j)%nat → sw !! k = Some true → (k < length cur)%nat) →
  ∃ cur', extend_from j sw cur = Ok cur' ∧ length cur' = length cur.
Proof.
  revert cur. induction j as [|j IH]; intros cur Hflags; [by exists cur|].
  cbn [extend_from].
  assert (∀ cur'', length cur'' = length cur →
            ∃ cur', extend_from j sw cur'' = Ok cur' ∧
                    length cur' = length cur) as Hrest.
  { intros cur'' Hlen. destruct (IH cur'') as (cur' & ? & ?).
    - intros k Hk Hsw. rewrite Hlen. apply Hflags; [lia|done].
    - exists cur'. split; [done|congruence]. }
  destruct (sw !! j) as [[]|] eqn:Hsw; [|by apply Hrest..].
  assert (j < length cur)%nat as Hj by (by apply Hflags; [lia|]).
  assert (∃ p : nat, position (length cur) (Z.of_nat j - 1) = Some p ∧
                     (p < length cur)%nat) as (p & Hp & Hpl).
  { unfold position. destruct j as [|j].
    - rewrite bool_decide_eq_false_2 by lia.
      rewrite bool_decide_eq_true_2 by lia. eexists. split; [done|]. lia.
    - rewrite bool_decide_eq_true_2 by lia. eexists. split; [done|]. lia. }
  destruct (lookup_lt_is_Some_2 cur p Hpl) as [a Ha].
  destruct (lookup_lt_is_Some_2 cur j Hj) as [b Hb].
  unfold getitem at 1. rewrite Hp, Ha. cbn [Py.bind].
  rewrite (getitem_nat _ _ _ Hb). cbn [Py.bind].
  unfold setitem. rewrite Hp. cbn [Py.bind].
  apply Hrest. by rewrite length_insert.
Qed.

Lemma extend_from_Raise (sw : list bool) (j : nat) (cur : list Z) (k : nat) :
  (k < j)%nat → sw !! k = Some true → (length cur ≤ k)%nat →
  extend_from j sw cur = Raise IndexError.
Proof.
  revert cur. induction j as [|j IH]; intros cur Hk Hsw Hlen; [lia|].
  cbn [extend_from].
  destruct (decide (k = j)) as [->|Hne].
  - rewrite Hsw.
    destruct (getitem cur (Z.of_nat j - 1)) as [a|e] eqn:Ha.
    + cbn [Py.bind]. by rewrite getitem_out_of_range.
    + cbn [Py.bind]. by rewrite (getitem_Raise _ _ _ Ha).
  - destruct (sw !! j) as [[]|] eqn:Hj; [|apply IH; (lia || done)..].
    destruct (getitem cur (Z.of_nat j - 1)) as [a|e] eqn:Ha; cbn [Py.bind];
      [|by rewrite (getitem_Raise _ _ _ Ha)].
    destruct (getitem cur (Z.of_nat j)) as [b|e] eqn:Hb; cbn [Py.bind];
      [|by rewrite (getitem_Raise _ _ _ Hb)].
    unfold setitem. destruct (position _ _) as [p|]; cbn [Py.bind]; [|done].
    apply IH; [lia|done|]. by rewrite length_insert.
Qed.

Lemma flag_beyond_dec (sw : list bool) (n j : nat) :
  (∃ k : nat, (k < j)%nat ∧ sw !! k = Some true ∧ (n ≤ k)%nat) ∨
  (∀ k : nat, (k < j)%nat → sw !! k = Some true → (k < n)%nat).
Proof.
  induction j as [|j [(k & ? & ? & ?)|IH]].
  - right. lia.
  - left. exists k. split; [lia|done].
  - destruct (sw !! j) as [[]|] eqn:Hj.
    + destruct (decide (n ≤ j)%nat).
      * left. exists j. split; [lia|done].
      * right. intros k Hk Hsw. destruct (decide (k = j)); [lia|].
        apply IH; [lia|done].
    + right. intros k Hk Hsw. destruct (decide (k = j)) as [->|]; [congruence|].
      apply IH; [lia|done].
    + right. intros k Hk Hsw. destruct (decide (k = j)) as [->|]; [congruence|].
      apply IH; [lia|done].
Qed.

(** X1. The extension loop raises exactly when a flag is set at a position
    that has no length, and then it raises [IndexError]; when it
    returns, the list has as many lengths as before. *)
Theorem extend_lengths_raises_iff (subwords : list bool) (lengths : list Z) :
  (extend_lengths subwords lengths = Raise IndexError ↔
   ∃ k : nat, subwords !! k = Some true ∧ (length lengths ≤ k)%nat) ∧
  (∀ e, extend_lengths subwords lengths = Raise e → e = IndexError) ∧
  (∀ E, extend_lengths subwords lengths = Ok E →
        length E = length lengths).
Proof.
  unfold extend_lengths.
  destruct (flag_beyond_dec subwords (length lengths) (length subwords))
    as [(k & Hj & Hk & Hlen)|Hnone].
  - rewrite (extend_from_Raise subwords _ lengths k); try done.
    split; [|split]; [|by intros e [= <-]|done]. split; eauto.
  - destruct (extend_from_Ok subwords (length subwords) lengths Hnone)
      as (E & -> & HE).
    split; [|split]; [|done|by intros ? [= <-]].
    split; [done|]. intros (k & Hk & Hlen). exfalso.
    pose proof (lookup_lt_Some _ _ _ Hk) as Hlt.
    specialize (Hnone k Hlt Hk). lia.
Qed.

Lemma extended_word_length (sw : list bool) (L : list Z) (m j : nat) :
  (∀ i, (j < i ≤ j + m)%nat → sw !! i = Some true) →
  sw !! (j + m + 1)%nat ≠ Some true →
  (j + m < length L)%nat →
  extended sw L !! j = Some (foldr Z.add 0 (take (S m) (drop j L))).
Proof.
  revert j. induction m as [|m IH]; intros j Hrun Hend Hlen.
  - rewrite extended_lookup.
    destruct (lookup_lt_is_Some_2 L j) as [a Ha]; [lia|]. rewrite Ha.
    replace (S j) with (j + 0 + 1)%nat by lia.
    rewrite (drop_S L a j Ha). cbn [take foldr].
    destruct (drop (S j) L); cbn [take foldr];
      by destruct (sw !! (j + 0 + 1)%nat) as [[]|].
  - rewrite extended_lookup.
    destruct (lookup_lt_is_Some_2 L j) as [a Ha]; [lia|]. rewrite Ha.
    rewrite (Hrun (S j)) by lia.
    rewrite (IH (S j)).
    + rewrite (drop_S L a j Ha). done.
    + intros i Hi. apply Hrun. lia.
    + by replace (S j + m + 1)%nat with (j + S m + 1)%nat by lia.
    + lia.
Qed.

(** X2. Where the first flag is unset and there is a flag per length,
    the extension gives the first token of a word the sum of the
    lengths of the tokens of the word: its own and those of the
    continuations that follow it, up to the next token that is not
    a continuation. *)
Theorem extend_lengths_word_length (subwords : list bool) (lengths : list Z)
    (j m : nat) :
  subwords !! O ≠ Some true → length subwords = length lengths →
  (∀ i, (j < i ≤ j + m)%nat → subwords !! i = Some true) →
  subwords !! (j + m + 1)%nat ≠ Some true →
  (j + m < length lengths)%nat →
  ∃ E, extend_lengths subwords lengths = Ok E ∧
       E !! j = Some (foldr Z.add 0 (take (S m) (drop j lengths))).
Proof.
  intros H0 Hlen Hrun Hend Hj. exists (extended subwords lengths).
  split; [by apply extend_lengths_extended|]. by apply extended_word_length.
Qed.

Lemma extend_lengths_word_length_witness :
  ∃ E, extend_lengths [false; false; true; true; false] [4; 2; 3; 1; 6] = Ok E ∧
       E !! 1%nat = Some (foldr Z.add 0 (take 3 (drop 1 [4; 2; 3; 1; 6]))).
Proof.
  apply (extend_lengths_word_length [false; false; true; true; false]
           [4; 2; 3; 1; 6] 1 2).
  - done.
  - reflexivity.
  - intros i Hi. destruct i as [|[|[|[|i]]]]; (done || lia).
  - done.
  - simpl. lia.
Defined.

Lemma extend_from_first_flag (sw : list bool) (j : nat) (cur : list Z) :
  extend_from (S j) (true :: sw) cur =
    (E <- extend_from (S j) (false :: sw) cur ;;
     a <- getitem E (-1) ;;
     b <- getitem E 0 ;;
     setitem E (-1) (a + b)).
Proof.
  revert cur. induction j as [|j IH]; intros cur.
  - cbn [extend_from lookup list_lookup Py.bind].
    change (Z.of_nat 0 - 1) with (-1). change (Z.of_nat 0) with 0.
    destruct (getitem cur (-1)) as [a|]; [|done]. cbn [Py.bind].
    destruct (getitem cur 0) as [b|]; [|done]. cbn [Py.bind].
    by destruct (setitem cur (-1) (a + b)).
  - change (extend_from (S (S j)) (true :: sw) cur)
      with (match sw !! j with
            | Some true =>
                a <- getitem cur (Z.of_nat (S j) - 1) ;;
                b <- getitem cur (Z.of_nat (S j)) ;;
                lengths' <- setitem cur (Z.of_nat (S j) - 1) (a + b) ;;
                extend_from (S j) (true :: sw) lengths'
            | _ => extend_from (S j) (true :: sw) cur
            end).
    change (extend_from (S (S j)) (false :: sw) cur)
      with (match sw !! j with
            | Some true =>
                a <- getitem cur (Z.of_nat (S j) - 1) ;;
                b <- getitem cur (Z.of_nat (S j)) ;;
                lengths' <- setitem cur (Z.of_nat (S j) - 1) (a + b) ;;
                extend_from (S j) (false :: sw) lengths'
            | _ => extend_from (S j) (false :: sw) cur
            end).
    destruct (sw !! j) as [[]|]; [|apply IH..].
    destruct (getitem cur (Z.of_nat (S j) - 1)) as [a|]; [|done].
    cbn [Py.bind].
    destruct (getitem cur (Z.of_nat (S j))) as [b|]; [|done]. cbn [Py.bind].
    destruct (setitem cur (Z.of_nat (S j) - 1) (a + b)) as [cur'|]; [|done].
    cbn [Py.bind]. apply IH.
Qed.

(** X3. A set first flag makes the loop add the extended length of
    position 0 to the last position, Python's [lengths[-1]]; up to
    then the loop runs as with the first flag unset. *)
Theorem extend_lengths_first_flag (subwords : list bool) (lengths : list Z) :
  extend_lengths (true :: subwords) lengths =
    (E <- extend_lengths (false :: subwords) lengths ;;
     last <- getitem E (-1) ;;
     first <- getitem E 0 ;;
     setitem E (-1) (last + first)).
Proof. unfold extend_lengths. simpl length. apply extend_from_first_flag. Qed.

(** ** The window splitter: the step, and how the windows follow each other *)

Lemma length_windows_from (starts : list Z) (len_text step seql x : Z)
    (count : nat) :
  length (windows_from starts len_text step seql x count) = S count.
Proof.
  revert x. induction count as [|c IH]; intros x; simpl; [done|].
  by rewrite IH.
Qed.

Lemma windows_from_lookup (starts : list Z) (len_text step seql x : Z)
    (count k : nat) :
  (k ≤ count)%nat →
  windows_from starts len_text step seql x count !! k =
    Some (default 0 (starts !! Z.to_nat (x + Z.of_nat k * step)),
          if decide (k < count)%nat
          then default 0 (starts !! Z.to_nat (x + Z.of_nat k * step + seql))
          else len_text).
Proof.
  revert x k. induction count as [|c IH]; intros x k Hk.
  - replace k with O by lia. simpl. by rewrite Z.add_0_r.
  - destruct k as [|k]; cbn [windows_from lookup list_lookup].
    + rewrite decide_True by lia. by rewrite Z.add_0_r.
    + change (windows_from starts len_text step seql (x + step) c !! k =
        Some (default 0 (starts !! Z.to_nat (x + Z.of_nat (S k) * step)),
              if decide (S k < S c)%nat
              then default 0
                     (starts !! Z.to_nat (x + Z.of_nat (S k) * step + seql))
              else len_text)).
      rewrite IH by lia.
      replace (x + step + Z.of_nat k * step)
        with (x + Z.of_nat (S k) * step) by lia.
      destruct (decide (k < c)%nat);
        [rewrite decide_True by lia|rewrite decide_False by lia]; done.
Qed.

Lemma for_each_pairs_Ok (starts : list Z) (step seql x : Z) (count : nat) :
  0 ≤ step → 0 ≤ seql → 0 ≤ x →
  (count = O ∨
   x + (Z.of_nat count - 1) * step + seql < Z.of_nat (length starts)) →
  ∃ ws, for_each (λ x, a <- getitem starts x ;;
                       b <- getitem starts (x + seql) ;;
                       Ok (a, b))
          (range_from x step count) = Ok ws.
Proof.
  intros Hstep Hseql. revert x. induction count as [|c IH]; intros x Hx Hc.
  - by exists [].
  - destruct Hc as [|Hc]; [done|]. cbn [range_from for_each].
    destruct (getitem_in_range starts x) as (a & -> & _); [nia|].
    destruct (getitem_in_range starts (x + seql)) as (b & -> & _); [nia|].
    cbn [Py.bind].
    destruct (IH (x + step)) as (ws & ->); [lia| |by eexists].
    destruct c as [|c]; [by left|]. right. nia.
Qed.

Lemma snapped_idx_mono (t : tokenized) (i j : nat) (a b : Z) :
  (∀ (i j : nat) a b, (i ≤ j)%nat →
     tokens_idx t !! i = Some a → tokens_idx t !! j = Some b → a.1 ≤ b.1) →
  (i ≤ j)%nat →
  snapped (sw_mask (tokens_sw t)) (fst <$> tokens_idx t) !! i = Some a →
  snapped (sw_mask (tokens_sw t)) (fst <$> tokens_idx t) !! j = Some b →
  a ≤ b.
Proof.
  intros Hmono. apply snapped_mono. clear i j a b.
  intros i j a b Hij [a' [-> Ha]]%list_lookup_fmap_Some
    [b' [-> Hb]]%list_lookup_fmap_Some.
  by eapply Hmono.
Qed.

Lemma snapped_idx_in_text (t : tokenized) (bound : Z) (j : nat) (a : Z) :
  (∀ (j : nat) a, tokens_idx t !! j = Some a → a.1 ≤ bound) →
  snapped (sw_mask (tokens_sw t)) (fst <$> tokens_idx t) !! j = Some a →
  a ≤ bound.
Proof.
  intros Hbound Ha.
  assert (j < length (fst <$> tokens_idx t))%nat as Hj.
  { apply lookup_lt_Some in Ha. by rewrite snapped_length in Ha. }
  rewrite snapped_lookup in Ha by done.
  apply list_lookup_fmap_Some in Ha as [a' [-> Ha]]. by eapply Hbound.
Qed.

(** X4. For a text of more tokens than [sequence_length]: a step of 0
    raises [ValueError]; a negative step, or a step that puts the
    start of the last window on or after the last token, raises
    [IndexError]; any other step gives [(n - L - 1) / S + 2]
    windows, for [n] tokens, a step [S] and a sequence length [L]. *)
Theorem split_by_overlap_step (tokenize_with_index : string → tokenized)
    (text : string) (token_step_size sequence_length : Z) :
  length (tokens_sw (tokenize_with_index text))
    = length (tokens_idx (tokenize_with_index text)) →
  length (tokens (tokenize_with_index text))
    = length (tokens_idx (tokenize_with_index text)) →
  0 ≤ sequence_length < Z.of_nat (length (tokens (tokenize_with_index text))) →
  (token_step_size = 0 →
   split_by_overlap tokenize_with_index text token_step_size sequence_length
     = Raise ValueError) ∧
  (token_step_size < 0 ∨
   0 < token_step_size ∧
   Z.of_nat (length (tokens (tokenize_with_index text)))
     ≤ ((Z.of_nat (length (tokens (tokenize_with_index text)))
         - sequence_length - 1) / token_step_size + 1) * token_step_size →
   split_by_overlap tokenize_with_index text token_step_size sequence_length
     = Raise IndexError) ∧
  (0 < token_step_size →
   ((Z.of_nat (length (tokens (tokenize_with_index text)))
     - sequence_length - 1) / token_step_size + 1) * token_step_size
     < Z.of_nat (length (tokens (tokenize_with_index text))) →
   ∃ windows,
     split_by_overlap tokenize_with_index text token_step_size sequence_length
       = Ok windows ∧
     Z.of_nat (length windows)
       = (Z.of_nat (length (tokens (tokenize_with_index text)))
          - sequence_length - 1) / token_step_size + 2).
Proof.
  intros Hsw Htok HL. unfold split_by_overlap.
  set (t := tokenize_with_index text) in *.
  set (n := Z.of_nat (length (tokens t))) in *.
  rewrite bool_decide_eq_false_2 by (unfold n in HL; lia).
  unfold seq_offsets. rewrite (snapped_starts_snapped t Hsw). cbn [Py.bind].
  rewrite bool_decide_eq_false_2 by (fold n; lia). fold n.
  set (starts := snapped _ _).
  assert (Z.of_nat (length starts) = n) as Hn.
  { unfold starts, n. by rewrite snapped_length, length_fmap, Htok. }
  unfold range, range_len. split; [|split].
  - intros ->. by rewrite bool_decide_eq_true_2.
  - intros [Hneg|[Hpos Hbig]].
    + rewrite bool_decide_eq_false_2 by lia.
      rewrite (bool_decide_eq_false_2 (0 < _)) by lia.
      rewrite (bool_decide_eq_false_2 (_ < 0)) by lia. done.
    + rewrite bool_decide_eq_false_2 by lia.
      rewrite !bool_decide_eq_true_2 by lia.
      replace (n - sequence_length - 0 - 1) with (n - sequence_length - 1)
        by lia.
      pose proof (Z.div_mod (n - sequence_length - 1) token_step_size
                    ltac:(lia)) as Hdiv.
      pose proof (Z.mod_pos_bound (n - sequence_length - 1) token_step_size
                    ltac:(lia)) as Hmod.
      assert (0 ≤ (n - sequence_length - 1) / token_step_size) as Hq
        by (apply Z.div_pos; lia).
      set (q := (n - sequence_length - 1) / token_step_size) in *.
      replace (Z.to_nat (q + 1)) with (S (Z.to_nat q)) by lia.
      cbn [Py.bind]. rewrite range_from_last. cbn [Py.bind].
      destruct (for_each_pairs_Ok starts token_step_size sequence_length 0
                  (S (Z.to_nat q))) as (ws & ->); [lia..| |].
      { right. rewrite Hn. nia. }
      cbn [Py.bind].
      replace (0 + Z.of_nat (Z.to_nat q) * token_step_size + token_step_size)
        with (Z.of_nat (Z.to_nat ((q + 1) * token_step_size))) by nia.
      rewrite getitem_out_of_range; [done|]. nia.
  - intros Hpos Hfit.
    rewrite bool_decide_eq_false_2 by lia.
    rewrite !bool_decide_eq_true_2 by lia.
    replace (n - sequence_length - 0 - 1) with (n - sequence_length - 1)
      by lia.
    pose proof (Z.div_mod (n - sequence_length - 1) token_step_size
                  ltac:(lia)) as Hdiv.
    pose proof (Z.mod_pos_bound (n - sequence_length - 1) token_step_size
                  ltac:(lia)) as Hmod.
    assert (0 ≤ (n - sequence_length - 1) / token_step_size) as Hq
      by (apply Z.div_pos; lia).
    set (q := (n - sequence_length - 1) / token_step_size) in *.
    replace (Z.to_nat (q + 1)) with (S (Z.to_nat q)) by lia.
    cbn [Py.bind]. rewrite range_from_last. cbn [Py.bind].
    replace (0 + Z.of_nat (Z.to_nat q) * token_step_size + token_step_size)
      with (0 + Z.of_nat (S (Z.to_nat q)) * token_step_size) by lia.
    rewrite (for_each_windows_from starts (text_len text) token_step_size
               sequence_length (S (Z.to_nat q)) 0); [|lia..| |].
    + eexists. split; [done|].
      unfold enumerate.
      rewrite length_fmap, length_imap, length_windows_from. lia.
    + rewrite Hn. nia.
    + right. rewrite Hn. nia.
Qed.

Lemma split_by_overlap_step_witness :
  split_by_overlap tokenize_example "ab cd ef" 0 1 = Raise ValueError ∧
  split_by_overlap tokenize_example "ab cd ef" 5 1 = Raise IndexError ∧
  ∃ windows,
    split_by_overlap tokenize_example "ab cd ef" 2 1 = Ok windows ∧
    Z.of_nat (length windows) = (3 - 1 - 1) / 2 + 2.
Proof.
  split; [|split].
  - by apply (split_by_overlap_step tokenize_example "ab cd ef" 0 1).
  - apply (split_by_overlap_step tokenize_example "ab cd ef" 5 1); try done.
    right. done.
  - by apply (split_by_overlap_step tokenize_example "ab cd ef" 2 1).
Defined.

(** X5. With a step [0 < token_step_size <= sequence_length], and token
    starts that do not decrease and lie in the text, the windows of
    a text of more than [sequence_length] tokens are numbered from 0
    in the order they are returned, each holds the text between its
    two offsets, and each window begins inside or at the end of the
    one before it and ends no earlier. *)
Theorem split_by_overlap_consecutive
    (tokenize_with_index : string → tokenized) (text : string)
    (token_step_size sequence_length : Z) :
  length (tokens_sw (tokenize_with_index text))
    = length (tokens_idx (tokenize_with_index text)) →
  length (tokens (tokenize_with_index text))
    = length (tokens_idx (tokenize_with_index text)) →
  (∀ (i j : nat) a b, (i ≤ j)%nat →
     tokens_idx (tokenize_with_index text) !! i = Some a →
     tokens_idx (tokenize_with_index text) !! j = Some b → a.1 ≤ b.1) →
  (∀ (j : nat) a, tokens_idx (tokenize_with_index text) !! j = Some a →
     a.1 ≤ text_len text) →
  0 < token_step_size ≤ sequence_length →
  sequence_length < Z.of_nat (length (tokens (tokenize_with_index text))) →
  ∃ windows,
    split_by_overlap tokenize_with_index text token_step_size sequence_length
      = Ok windows ∧
    (∀ (k : nat) w, windows !! k = Some w →
       w.1.1.1 = Z.of_nat k ∧
       w.2 = slice text (example_start w) (example_stop w)) ∧
    (∀ (k : nat) w w', windows !! k = Some w → windows !! S k = Some w' →
       example_start w ≤ example_start w' ≤ example_stop w ∧
       example_stop w ≤ example_stop w').
Proof.
  intros Hsw Htok Hmono Hbound HSL Hlong. unfold split_by_overlap.
  set (t := tokenize_with_index text) in *.
  set (n := Z.of_nat (length (tokens t))) in *.
  rewrite bool_decide_eq_false_2 by (unfold n in Hlong; lia).
  rewrite (seq_offsets_long text t _ _ Hsw Htok HSL Hlong). cbn [Py.bind].
  fold n. set (starts := snapped _ _).
  assert (Z.of_nat (length starts) = n) as Hn.
  { unfold starts, n. by rewrite snapped_length, length_fmap, Htok. }
  assert (0 ≤ (n - sequence_length - 1) / token_step_size) as Hq
    by (apply Z.div_pos; lia).
  destruct (window_count_bounds n token_step_size sequence_length HSL Hlong)
    as [H1 [H2|H2]]; [lia|].
  set (count := Z.to_nat ((n - sequence_length - 1) / token_step_size + 1))
    in *.
  assert (∀ x y, 0 ≤ x ≤ y → y < n →
            default 0 (starts !! Z.to_nat x)
              ≤ default 0 (starts !! Z.to_nat y)) as Hle.
  { intros x y Hxy Hy.
    destruct (lookup_lt_is_Some_2 starts (Z.to_nat x)) as [a Ha]; [lia|].
    destruct (lookup_lt_is_Some_2 starts (Z.to_nat y)) as [b Hb]; [lia|].
    rewrite Ha, Hb. simpl.
    eapply (snapped_idx_mono t (Z.to_nat x) (Z.to_nat y)); [done|lia|done..]. }
  assert (∀ x, 0 ≤ x < n →
            default 0 (starts !! Z.to_nat x) ≤ text_len text) as Hin.
  { intros x Hx.
    destruct (lookup_lt_is_Some_2 starts (Z.to_nat x)) as [a Ha]; [lia|].
    rewrite Ha. simpl. by eapply (snapped_idx_in_text t). }
  eexists. split; [done|]. split.
  - intros k w [[i [a b]] [-> Hk]]%list_lookup_fmap_Some.
    unfold enumerate in Hk. rewrite list_lookup_imap in Hk.
    destruct (windows_from _ _ _ _ _ _ !! k) as [[a' b']|]; [|done].
    by simplify_eq/=.
  - intros k w w' [[i [a b]] [-> Hk]]%list_lookup_fmap_Some
      [[i' [a' b']] [-> Hk']]%list_lookup_fmap_Some.
    unfold enumerate in Hk, Hk'. rewrite list_lookup_imap in Hk, Hk'.
    assert (S k ≤ count)%nat as Hkc.
    { destruct (windows_from _ _ _ _ _ _ !! S k) eqn:E; [|done].
      apply lookup_lt_Some in E. rewrite length_windows_from in E. lia. }
    rewrite windows_from_lookup in Hk, Hk' by lia.
    rewrite decide_True in Hk by lia.
    cbn in Hk, Hk'. simplify_eq/=. unfold example_start, example_stop. simpl.
    split; [split|].
    + apply Hle; nia.
    + apply Hle; nia.
    + destruct (decide (S k < count)%nat).
      * apply Hle; nia.
      * apply Hin. nia.
Qed.

Lemma split_by_overlap_consecutive_witness :
  ∃ windows,
    split_by_overlap tokenize_example "ab cd ef" 1 2 = Ok windows ∧
    (∀ (k : nat) w, windows !! k = Some w →
       w.1.1.1 = Z.of_nat k ∧
       w.2 = slice "ab cd ef" (example_start w) (example_stop w)) ∧
    (∀ (k : nat) w w', windows !! k = Some w → windows !! S k = Some w' →
       example_start w ≤ example_start w' ≤ example_stop w ∧
       example_stop w ≤ example_stop w').
Proof.
  apply (split_by_overlap_consecutive tokenize_example "ab cd ef" 1 2).
  - reflexivity.
  - reflexivity.
  - change (tokens_idx (tokenize_example "ab cd ef"))
      with [(0, 2); (3, 5); (6, 8)].
    intros i j a b Hij Ha Hb.
    destruct i as [|[|[|i]]]; destruct j as [|[|[|j]]];
      simplify_eq/=; lia.
  - change (tokens_idx (tokenize_example "ab cd ef"))
      with [(0, 2); (3, 5); (6, 8)].
    intros j a Ha. destruct j as [|[|[|j]]]; simplify_eq/=; vm_compute;
      congruence.
  - lia.
  - simpl. lia.
Defined.

(** ** The forward fill of the token starts *)

(** X6. The forward fill of lines 118-127 raises exactly when there
    are flags and their number differs from the number of offset
    pairs, and then [IndexError]. With no flag at all it returns
    the starts of the tokens as they are. Whenever it returns, it
    returns one start per token, a token whose flag is not 1 keeps
    its own start, and every start returned is the start of that
    token or of a token before it. *)
Theorem snapped_starts_fill (t : tokenized) :
  (snapped_starts t = Raise IndexError ↔
   tokens_sw t ≠ [] ∧ length (tokens_sw t) ≠ length (tokens_idx t)) ∧
  (∀ e, snapped_starts t = Raise e → e = IndexError) ∧
  (tokens_sw t = [] → snapped_starts t = Ok (fst <$> tokens_idx t)) ∧
  (∀ starts, snapped_starts t = Ok starts →
     length starts = length (tokens_idx t) ∧
     (∀ (j : nat) o s, tokens_idx t !! j = Some o → tokens_sw t !! j = Some s →
        s ≠ 1 → starts !! j = Some o.1) ∧
     (∀ (j : nat) a, starts !! j = Some a →
        ∃ (k : nat) o, (k ≤ j)%nat ∧ tokens_idx t !! k = Some o ∧ a = o.1)).
Proof.
  destruct (decide (tokens_sw t = [])) as [Hnil|Hsome].
  { assert (snapped_starts t = Ok (fst <$> tokens_idx t)) as Hfill.
    { unfold snapped_starts, forward_fill. by rewrite Hnil. }
    rewrite Hfill. split; [|split; [done|split; [done|]]].
    - split; [done|]. by intros [? _].
    - intros starts [= <-]. rewrite length_fmap. split; [done|]. split.
      + intros j o s _ Hs. by rewrite Hnil in Hs.
      + intros j a (o & -> & Ho)%list_lookup_fmap_Some. by exists j, o. }
  destruct (decide (length (tokens_sw t) = length (tokens_idx t)))
    as [Hlen|Hlen].
  - rewrite (snapped_starts_snapped t Hlen).
    split; [|split; [done|split; [done|]]].
    { split; [done|]. by intros [_ ?]. }
    intros starts [= <-].
    rewrite snapped_length, length_fmap. split; [done|]. split.
    + intros j o s Ho Hs Hne.
      rewrite snapped_lookup
        by (rewrite length_fmap; by eapply lookup_lt_Some).
      assert (word_start (sw_mask (tokens_sw t)) j = j) as ->.
      { destruct j as [|j]; [done|]. simpl.
        destruct (sw_mask (tokens_sw t) !! S j) as [[]|] eqn:Hm; [|done..].
        apply sw_mask_lookup in Hm. congruence. }
      by rewrite list_lookup_fmap, Ho.
    + intros j a Ha.
      assert (j < length (fst <$> tokens_idx t))%nat as Hj.
      { apply lookup_lt_Some in Ha. by rewrite snapped_length in Ha. }
      rewrite snapped_lookup in Ha by done.
      apply list_lookup_fmap_Some in Ha as (o & -> & Ho).
      exists (word_start (sw_mask (tokens_sw t)) j), o.
      split; [apply word_start_le|done].
  - assert (snapped_starts t = Raise IndexError) as Hraise.
    { unfold snapped_starts, forward_fill.
      rewrite bool_decide_eq_false_2
        by (unfold sw_mask; by destruct (tokens_sw t)).
      by rewrite bool_decide_eq_false_2
        by (unfold sw_mask; by rewrite !length_fmap). }
    rewrite Hraise. split; [done|]. split; [by intros e [= <-]|].
    split; [done|done].
Qed.

(** ** The segment splitter *)

Lemma length_token_sw (words : list (option Z)) :
  length (transformer_py.token_sw words) = Nat.max 1 (length words).
Proof.
  unfold transformer_py.token_sw. cbn [length].
  rewrite length_zip_with, length_drop. lia.
Qed.

Lemma not_subword_rows_Ok (offs : list (Z * Z)) (sw : list bool) :
  offs ≠ [] → length sw = length offs → sw !! O = Some false →
  ∃ rows,
    transformer_py.not_subword_rows offs sw = Ok rows ∧ rows ≠ [] ∧
    ∀ r, r ∈ rows ↔ ∃ k : nat, offs !! k = Some r ∧ sw !! k = Some false.
Proof.
  intros Hne Hlen H0. unfold transformer_py.not_subword_rows.
  rewrite bool_decide_eq_false_2 by done.
  rewrite bool_decide_eq_true_2 by done.
  eexists. split; [done|]. split.
  - destruct offs as [|o offs]; [done|].
    destruct sw as [|s sw]; [done|]. simpl in H0. by simplify_eq/=.
  - intros r. rewrite list_elem_of_omap. split.
    + intros ([o s] & (k & Hk)%list_elem_of_lookup & Hf).
      apply lookup_zip_Some in Hk as [Ho Hs].
      destruct s; [done|]. injection Hf as ->. eauto.
    + intros (k & Ho & Hs). exists (r, false). split; [|done].
      apply list_elem_of_lookup. exists k. by apply lookup_zip_Some.
Qed.

Lemma new_seq_rows (block : Z * Z → Z) (start_idx : list (Z * Z)) :
  ∃ rows,
    for_each (getitem start_idx) (np_unique_index (block <$> start_idx))
      = Ok rows ∧
    block <$> rows = np_unique (block <$> start_idx) ∧
    ∀ r, r ∈ rows → r ∈ start_idx.
Proof.
  unfold np_unique_index.
  assert (∀ v, v ∈ np_unique (block <$> start_idx) → v ∈ block <$> start_idx)
    as Hin by (intros v; apply elem_of_np_unique).
  revert Hin. generalize (np_unique (block <$> start_idx)) as vs.
  induction vs as [|v vs IH]; intros Hin.
  - exists []. split; [done|]. split; [done|]. by intros r ?%elem_of_nil.
  - destruct IH as (rows & Hrows & Hblock & Hsub).
    { intros v' Hv'. apply Hin. by apply list_elem_of_further. }
    destruct (first_index_spec v (block <$> start_idx)) as [Hfi _].
    { apply Hin. apply list_elem_of_here. }
    apply list_lookup_fmap_Some in Hfi as (r & -> & Hr).
    exists (r :: rows). split; [|split].
    + cbn [fmap list_fmap for_each]. rewrite (getitem_nat _ _ _ Hr).
      cbn [Py.bind]. fold (@fmap list _ _ _ (λ v, Z.of_nat
        (first_index v (block <$> start_idx))) vs).
      by rewrite Hrows.
    + cbn [fmap list_fmap]. f_equal. exact Hblock.
    + intros r' [->|Hr']%elem_of_cons; [|by apply Hsub].
      by eapply list_elem_of_lookup_2.
Qed.

Lemma range_0_n (n : nat) : range 0 (Z.of_nat n) 1 = Ok (range_from 0 1 n).
Proof.
  unfold range, range_len. rewrite bool_decide_eq_false_2 by lia.
  rewrite bool_decide_eq_true_2 by lia. f_equal. f_equal.
  case_bool_decide; [|lia]. rewrite Z.div_1_r. lia.
Qed.

Lemma sorted_lt_fmap {A} (f : A → Z) (R : A → A → Prop) (l : list A) :
  (∀ a b, f a < f b → R a b) →
  StronglySorted Z.lt (f <$> l) → StronglySorted R l.
Proof.
  intros HR. induction l as [|a l IH]; [constructor|].
  rewrite fmap_cons. inversion 1 as [|? ? Hs Hall]; subst.
  constructor; [by apply IH|].
  apply Forall_forall. intros b Hb. apply HR.
  rewrite Forall_forall in Hall. apply Hall. by apply list_elem_of_fmap_2.
Qed.

(** The feature object the loop of lines 199-218 makes of the text
    from [start] to [stop]. *)
Lemma segment_at (encode : string → bool → transformer_py.Encoding)
    (pad : transformer_py.Encoding → Z → transformer_py.Encoding)
    (model_max_length : Z) (text : string) (idx : list (Z * Z)) (k : nat)
    (r r' : Z * Z) :
  idx !! k = Some r → idx !! S k = Some r' →
  transformer_py.segment encode pad model_max_length text idx (Z.of_nat k)
  = let enc := pad (encode (slice text r.1 r'.1) true) model_max_length in
    Ok {| transformer_py.input_ids := transformer_py.enc_ids enc;
          transformer_py.attention_mask :=
            transformer_py.enc_attention_mask enc;
          transformer_py.token_type_ids :=
            Some (transformer_py.enc_type_ids enc);
          transformer_py.label_ids := None;
          transformer_py.input_subwords :=
            transformer_py.token_sw (transformer_py.enc_words enc);
          transformer_py.offsets :=
            (λ o : Z * Z, o.1 + r.1) <$> transformer_py.enc_offsets enc;
          transformer_py.lengths :=
            (λ o : Z * Z, o.2 - o.1) <$> transformer_py.enc_offsets enc |}.
Proof.
  intros Hr Hr'. unfold transformer_py.segment.
  rewrite (getitem_nat _ _ _ Hr). cbn [Py.bind].
  replace (Z.of_nat k + 1) with (Z.of_nat (S k)) by lia.
  by rewrite (getitem_nat _ _ _ Hr').
Qed.

Lemma split_text_rows (encode : string → bool → transformer_py.Encoding)
    (pad : transformer_py.Encoding → Z → transformer_py.Encoding)
    (max_len_single_sentence model_max_length : Z) (text : string) :
  transformer_py.enc_offsets (encode text false) ≠ [] →
  length (transformer_py.token_sw (transformer_py.enc_words (encode text false)))
    = length (transformer_py.enc_offsets (encode text false)) →
  ∃ rows inputs,
    transformer_py._split_text_into_segments encode pad
      max_len_single_sentence model_max_length text None = Ok inputs ∧
    rows ≠ [] ∧ length inputs = length rows ∧
    StronglySorted Z.lt ((λ r : Z * Z, r.1 / max_len_single_sentence) <$> rows) ∧
    (∀ r, r ∈ rows →
       ∃ k : nat,
         transformer_py.enc_offsets (encode text false) !! k = Some r ∧
         transformer_py.token_sw
           (transformer_py.enc_words (encode text false)) !! k = Some false) ∧
    (∀ (k : nat) o,
       transformer_py.enc_offsets (encode text false) !! k = Some o →
       transformer_py.token_sw
         (transformer_py.enc_words (encode text false)) !! k = Some false →
       ∃ r, r ∈ rows ∧
            r.1 / max_len_single_sentence = o.1 / max_len_single_sentence) ∧
    (∀ (k : nat) f, inputs !! k = Some f →
       ∃ r r', rows !! k = Some r ∧
               (rows ++ [(text_len text, 0)]) !! S k = Some r' ∧
               transformer_py.segment encode pad model_max_length text
                 (rows ++ [(text_len text, 0)]) (Z.of_nat k) = Ok f).
Proof.
  intros Hne Hlen. unfold transformer_py._split_text_into_segments.
  destruct (not_subword_rows_Ok _ _ Hne Hlen eq_refl)
    as (start_idx & -> & Hstart & Hidx).
  cbn [Py.bind transformer_py.seq_len]. unfold transformer_py.new_seq_idx.
  destruct (new_seq_rows (λ o : Z * Z, o.1 / max_len_single_sentence) start_idx)
    as (rows & -> & Hblock & Hsub).
  cbn [Py.bind]. rewrite length_app. cbn [length].
  replace (length rows + 1 - 1)%nat with (length rows) by lia.
  rewrite range_0_n. cbn [Py.bind].
  set (idx := rows ++ [(text_len text, 0)]).
  assert (∀ k : nat, (k < length rows)%nat →
            ∃ r r', rows !! k = Some r ∧ idx !! k = Some r ∧
                    idx !! S k = Some r') as Hk.
  { intros k Hk. destruct (lookup_lt_is_Some_2 rows k Hk) as [r Hr].
    destruct (lookup_lt_is_Some_2 idx (S k)) as [r' Hr'].
    { unfold idx. rewrite length_app. simpl. lia. }
    exists r, r'. split; [done|]. split; [|done].
    unfold idx. by rewrite lookup_app_l. }
  set (feature := λ x : Z,
         default (transformer_py.store_of [] O)
           (match transformer_py.segment encode pad model_max_length text idx x
            with Ok f => Some f | Raise _ => None end)).
  assert (for_each (transformer_py.segment encode pad model_max_length text idx)
            (range_from 0 1 (length rows))
          = Ok (feature <$> range_from 0 1 (length rows))) as Hall.
  { apply for_each_fmap. intros x (k & Hx)%list_elem_of_lookup.
    assert (k < length rows)%nat as Hlt.
    { apply lookup_lt_Some in Hx. by rewrite length_range_from in Hx. }
    rewrite range_from_lookup in Hx by done. injection Hx as <-.
    replace (0 + Z.of_nat k * 1) with (Z.of_nat k) by lia.
    destruct (Hk k Hlt) as (r & r' & _ & Hr & Hr'). unfold feature.
    by rewrite (segment_at _ _ _ _ _ _ _ _ Hr Hr'). }
  rewrite Hall. exists rows, (feature <$> range_from 0 1 (length rows)).
  split; [done|]. split.
  { intros ->. destruct start_idx as [|o sidx]; [done|].
    assert (o.1 / max_len_single_sentence ∈
            np_unique ((λ o : Z * Z, o.1 / max_len_single_sentence)
                         <$> (o :: sidx))) as Hin.
    { apply elem_of_np_unique. rewrite fmap_cons. apply list_elem_of_here. }
    rewrite <- Hblock in Hin. by apply elem_of_nil in Hin. }
  split; [by rewrite length_fmap, length_range_from|].
  split; [rewrite Hblock; apply np_unique_sorted|].
  split; [intros r Hr; by apply Hidx, Hsub|].
  split.
  - intros k o Ho Hsw.
    assert (o ∈ start_idx) as Hin by (apply Hidx; eauto).
    assert (o.1 / max_len_single_sentence ∈
            (λ r : Z * Z, r.1 / max_len_single_sentence) <$> rows) as Hb.
    { rewrite Hblock. apply elem_of_np_unique.
      by apply (list_elem_of_fmap_2 (λ o : Z * Z, o.1 / max_len_single_sentence)). }
    apply list_elem_of_fmap in Hb as (r & Heq & Hr). eauto.
  - intros k f Hf.
    assert (k < length rows)%nat as Hlt.
    { apply lookup_lt_Some in Hf.
      by rewrite length_fmap, length_range_from in Hf. }
    destruct (Hk k Hlt) as (r & r' & Hr & Hr0 & Hr').
    exists r, r'. split; [done|]. split; [done|].
    rewrite list_lookup_fmap, range_from_lookup in Hf by done.
    injection Hf as <-. fold idx.
    replace (0 + Z.of_nat k * 1) with (Z.of_nat k) by lia.
    unfold feature. by rewrite (segment_at _ _ _ _ _ _ _ _ Hr0 Hr').
Qed.

(** X7. The segment splitter raises exactly when the tokenizer returns
    no offsets for the text, or not as many offsets as the subword
    flags made from its word ids, and then [IndexError]; a text
    without tokens therefore makes [predict] raise [IndexError],
    whatever the model and the overlap. *)
Theorem split_text_raises (encode : string → bool → transformer_py.Encoding)
    (pad : transformer_py.Encoding → Z → transformer_py.Encoding)
    (max_len_single_sentence model_max_length : Z) (text : string) :
  (transformer_py._split_text_into_segments encode pad
     max_len_single_sentence model_max_length text None = Raise IndexError ↔
   transformer_py.enc_offsets (encode text false) = [] ∨
   length (transformer_py.token_sw
             (transformer_py.enc_words (encode text false)))
     ≠ length (transformer_py.enc_offsets (encode text false))) ∧
  (∀ e, transformer_py._split_text_into_segments encode pad
          max_len_single_sentence model_max_length text None = Raise e →
        e = IndexError) ∧
  (∀ model id2label feature_overlap,
     transformer_py.enc_offsets (encode text false) = [] →
     transformer_py.predict encode pad max_len_single_sentence
       model_max_length model id2label text feature_overlap
     = Raise IndexError).
Proof.
  assert (transformer_py.enc_offsets (encode text false) = [] ∨
          length (transformer_py.token_sw
                    (transformer_py.enc_words (encode text false)))
            ≠ length (transformer_py.enc_offsets (encode text false)) →
          ∀ fo, transformer_py._split_text_into_segments encode pad
                  max_len_single_sentence model_max_length text fo
                = Raise IndexError) as Hraise.
  { intros Hbad fo. unfold transformer_py._split_text_into_segments,
      transformer_py.not_subword_rows.
    destruct Hbad as [->|Hlen]; [done|].
    case_bool_decide; [done|]. by rewrite bool_decide_eq_false_2. }
  split; [|split].
  - split; [|by intros ?; apply Hraise].
    intros Hr.
    destruct (decide (transformer_py.enc_offsets (encode text false) = []))
      as [|Hne]; [by left|].
    destruct (decide
      (length (transformer_py.token_sw
                 (transformer_py.enc_words (encode text false)))
       = length (transformer_py.enc_offsets (encode text false))))
      as [Hlen|]; [|by right].
    destruct (split_text_rows encode pad max_len_single_sentence
                model_max_length text Hne Hlen) as (? & ? & Hok & _).
    congruence.
  - intros e He.
    destruct (decide (transformer_py.enc_offsets (encode text false) = []))
      as [Hnil|Hne]; [rewrite Hraise in He by (by left); congruence|].
    destruct (decide
      (length (transformer_py.token_sw
                 (transformer_py.enc_words (encode text false)))
       = length (transformer_py.enc_offsets (encode text false))))
      as [Hlen|Hlen]; [|rewrite Hraise in He by (by right); congruence].
    destruct (split_text_rows encode pad max_len_single_sentence
                model_max_length text Hne Hlen) as (? & ? & Hok & _).
    congruence.
  - intros model id2label fo Hnil. unfold transformer_py.predict.
    by rewrite Hraise by (by left).
Qed.

(** X8. For a text whose encoding has offsets, and as many word ids as
    offsets, the segment splitter returns at least one feature
    object. The segments start at the starts of tokens that begin
    a word, one for every block of [max_len_single_sentence]
    characters in which such a token starts, in ascending order;
    segment [k] is made from the text between its start and the
    start of segment [k + 1] (the end of the text for the last
    one), and its offsets are those of the encoding of that text
    moved by the start of the segment. *)
Theorem split_text_segments (encode : string → bool → transformer_py.Encoding)
    (pad : transformer_py.Encoding → Z → transformer_py.Encoding)
    (max_len_single_sentence model_max_length : Z) (text : string) :
  transformer_py.enc_offsets (encode text false) ≠ [] →
  length (transformer_py.enc_words (encode text false))
    = length (transformer_py.enc_offsets (encode text false)) →
  0 < max_len_single_sentence →
  ∃ inputs starts,
    transformer_py._split_text_into_segments encode pad
      max_len_single_sentence model_max_length text None = Ok inputs ∧
    starts ≠ [] ∧ length inputs = length starts ∧
    StronglySorted Z.lt starts ∧
    StronglySorted Z.lt ((λ s, s / max_len_single_sentence) <$> starts) ∧
    (∀ s, s ∈ starts →
       ∃ (k : nat) o,
         transformer_py.enc_offsets (encode text false) !! k = Some o ∧
         o.1 = s ∧
         transformer_py.token_sw
           (transformer_py.enc_words (encode text false)) !! k = Some false) ∧
    (∀ (k : nat) o,
       transformer_py.enc_offsets (encode text false) !! k = Some o →
       transformer_py.token_sw
         (transformer_py.enc_words (encode text false)) !! k = Some false →
       ∃ s, s ∈ starts ∧
            s / max_len_single_sentence = o.1 / max_len_single_sentence) ∧
    (∀ (k : nat) s f, starts !! k = Some s → inputs !! k = Some f →
       let stop := default (text_len text) (starts !! S k) in
       let enc := pad (encode (slice text s stop) true) model_max_length in
       transformer_py.input_ids f = transformer_py.enc_ids enc ∧
       transformer_py.attention_mask f = transformer_py.enc_attention_mask enc ∧
       transformer_py.token_type_ids f = Some (transformer_py.enc_type_ids enc) ∧
       transformer_py.input_subwords f
         = transformer_py.token_sw (transformer_py.enc_words enc) ∧
       transformer_py.offsets f
         = (λ o : Z * Z, o.1 + s) <$> transformer_py.enc_offsets enc ∧
       transformer_py.lengths f
         = (λ o : Z * Z, o.2 - o.1) <$> transformer_py.enc_offsets enc).
Proof.
  intros Hne Hwords HM.
  assert (length (transformer_py.token_sw
                    (transformer_py.enc_words (encode text false)))
          = length (transformer_py.enc_offsets (encode text false))) as Hlen.
  { rewrite length_token_sw, Hwords.
    destruct (transformer_py.enc_offsets (encode text false)); [done|].
    simpl. lia. }
  destruct (split_text_rows encode pad max_len_single_sentence
              model_max_length text Hne Hlen)
    as (rows & inputs & Hok & Hrows & Hlength & Hsorted & Hsub & Hblock & Hseg).
  exists inputs, (fst <$> rows).
  split; [done|]. split; [by destruct rows|].
  split; [by rewrite length_fmap|].
  assert (StronglySorted Z.lt
            ((λ s, s / max_len_single_sentence) <$> (fst <$> rows))) as Hs.
  { by rewrite <- list_fmap_compose. }
  split.
  { revert Hs. apply sorted_lt_fmap. intros a b Hab.
    destruct (decide (a < b)) as [|Hge]; [done|].
    pose proof (Z.div_le_mono b a max_len_single_sentence HM ltac:(lia)).
    lia. }
  split; [done|]. split.
  { intros s (r & -> & Hr)%list_elem_of_fmap.
    destruct (Hsub r Hr) as (k & Hk & Hsw). by exists k, r. }
  split.
  { intros k o Ho Hsw. destruct (Hblock k o Ho Hsw) as (r & Hr & Heq).
    exists r.1. split; [|done]. by apply (list_elem_of_fmap_2 fst). }
  intros k s f [r [-> Hr]]%list_lookup_fmap_Some Hf.
  destruct (Hseg k f Hf) as (r0 & r' & Hr0 & Hr' & Hsegment).
  assert (r0 = r) as -> by congruence.
  assert (default (text_len text) ((fst <$> rows) !! S k) = r'.1) as ->.
  { rewrite list_lookup_fmap.
    destruct (decide (S k < length rows)%nat) as [Hlt|Hge].
    - rewrite lookup_app_l in Hr' by done. by rewrite Hr'.
    - rewrite lookup_app_r in Hr' by lia.
      rewrite (lookup_ge_None_2 rows) by lia.
      replace (S k - length rows)%nat with O in Hr'.
      + simpl in Hr'. by injection Hr' as <-.
      + apply lookup_lt_Some in Hr. lia. }
  assert ((rows ++ [(text_len text, 0)]) !! k = Some r) as Hrk.
  { rewrite lookup_app_l; [done|]. by eapply lookup_lt_Some. }
  rewrite (segment_at _ _ _ _ _ _ _ _ Hrk Hr') in Hsegment.
  cbv zeta in Hsegment. injection Hsegment as <-. done.
Qed.

Lemma split_text_segments_witness :
  ∃ inputs starts,
    transformer_py._split_text_into_segments encode_example pad_example
      6 6 "ab cd ef" None = Ok inputs ∧
    starts ≠ [] ∧ length inputs = length starts ∧
    StronglySorted Z.lt starts ∧
    StronglySorted Z.lt ((λ s, s / 6) <$> starts) ∧
    (∀ s, s ∈ starts →
       ∃ (k : nat) o,
         transformer_py.enc_offsets (encode_example "ab cd ef" false) !! k
           = Some o ∧
         o.1 = s ∧
         transformer_py.token_sw
           (transformer_py.enc_words (encode_example "ab cd ef" false)) !! k
           = Some false) ∧
    (∀ (k : nat) o,
       transformer_py.enc_offsets (encode_example "ab cd ef" false) !! k
         = Some o →
       transformer_py.token_sw
         (transformer_py.enc_words (encode_example "ab cd ef" false)) !! k
         = Some false →
       ∃ s, s ∈ starts ∧ s / 6 = o.1 / 6) ∧
    (∀ (k : nat) s f, starts !! k = Some s → inputs !! k = Some f →
       let stop := default (text_len "ab cd ef") (starts !! S k) in
       let enc := pad_example
                    (encode_example (slice "ab cd ef" s stop) true) 6 in
       transformer_py.input_ids f = transformer_py.enc_ids enc ∧
       transformer_py.attention_mask f = transformer_py.enc_attention_mask enc ∧
       transformer_py.token_type_ids f = Some (transformer_py.enc_type_ids enc) ∧
       transformer_py.input_subwords f
         = transformer_py.token_sw (transformer_py.enc_words enc) ∧
       transformer_py.offsets f
         = (λ o : Z * Z, o.1 + s) <$> transformer_py.enc_offsets enc ∧
       transformer_py.lengths f
         = (λ o : Z * Z, o.2 - o.1) <$> transformer_py.enc_offsets enc).
Proof.
  apply (split_text_segments encode_example pad_example 6 6 "ab cd ef").
  - vm_compute. discriminate.
  - reflexivity.
  - lia.
Defined.

(** X9. Every feature object the segment splitter makes has its first
    subword flag unset; where the tokenizer gives every padded
    encoding as many word ids as offsets (and at least one), the
    object has a length per offset and a flag per length, and the
    extension loop run on it raises nothing. *)
Theorem split_text_features_extend
    (encode : string → bool → transformer_py.Encoding)
    (pad : transformer_py.Encoding → Z → transformer_py.Encoding)
    (max_len_single_sentence model_max_length : Z) (text : string)
    (feature_overlap : option float) (inputs : list transformer_py.InputFeatures) :
  (∀ s, transformer_py.enc_words (pad (encode s true) model_max_length) ≠ [] ∧
        length (transformer_py.enc_words (pad (encode s true) model_max_length))
        = length (transformer_py.enc_offsets
                    (pad (encode s true) model_max_length))) →
  transformer_py._split_text_into_segments encode pad
    max_len_single_sentence model_max_length text feature_overlap = Ok inputs →
  ∀ f, f ∈ inputs →
    transformer_py.input_subwords f !! O = Some false ∧
    length (transformer_py.offsets f) = length (transformer_py.lengths f) ∧
    length (transformer_py.input_subwords f)
      = length (transformer_py.lengths f) ∧
    extend_lengths (transformer_py.input_subwords f) (transformer_py.lengths f)
      = Ok (extended (transformer_py.input_subwords f)
              (transformer_py.lengths f)).
Proof.
  intros Hpad Hok f Hf.
  unfold transformer_py._split_text_into_segments in Hok.
  apply bind_Ok in Hok as (start_idx & _ & Hok).
  apply bind_Ok in Hok as (n & _ & Hok).
  apply bind_Ok in Hok as (idx & _ & Hok).
  apply bind_Ok in Hok as (xs & _ & Hok).
  destruct (for_each_elem_of _ _ _ _ Hok Hf) as (x & _ & Hseg).
  unfold transformer_py.segment in Hseg.
  apply bind_Ok in Hseg as (row & _ & Hseg).
  apply bind_Ok in Hseg as (next & _ & Hseg).
  injection Hseg as <-.
  cbn [transformer_py.input_subwords transformer_py.offsets
       transformer_py.lengths].
  destruct (Hpad (slice text row.1 next.1)) as [Hne Hlen].
  assert (length (transformer_py.token_sw
            (transformer_py.enc_words
               (pad (encode (slice text row.1 next.1) true) model_max_length)))
          = length ((λ o : Z * Z, o.2 - o.1) <$>
              transformer_py.enc_offsets
                (pad (encode (slice text row.1 next.1) true) model_max_length)))
    as Hsw.
  { rewrite length_token_sw, length_fmap, <- Hlen.
    destruct (transformer_py.enc_words _); [done|]. simpl. lia. }
  split; [done|]. split; [by rewrite !length_fmap|]. split; [done|].
  by apply extend_lengths_extended.
Qed.

Lemma split_text_features_extend_witness :
  ∃ inputs,
    transformer_py._split_text_into_segments encode_example pad_example 6 6
      "ab cd ef" None = Ok inputs ∧
    ∀ f, f ∈ inputs →
      transformer_py.input_subwords f !! O = Some false ∧
      length (transformer_py.offsets f) = length (transformer_py.lengths f) ∧
      length (transformer_py.input_subwords f)
        = length (transformer_py.lengths f) ∧
      extend_lengths (transformer_py.input_subwords f)
        (transformer_py.lengths f)
        = Ok (extended (transformer_py.input_subwords f)
                (transformer_py.lengths f)).
Proof.
  exists inputs_example. split; [vm_compute; reflexivity|].
  apply (split_text_features_extend encode_example pad_example 6 6
           "ab cd ef" None inputs_example).
  - intros s. unfold encode_example.
    repeat case_bool_decide; (split; [vm_compute; discriminate|reflexivity]).
  - vm_compute. reflexivity.
Defined.

(** ** What the realignment of [model.py] returns *)

Lemma extend_from_length (sw : list bool) (j : nat) (cur E : list Z) :
  extend_from j sw cur = Ok E → length E = length cur.
Proof.
  revert cur. induction j as [|j IH]; intros cur; cbn [extend_from].
  - by intros [= <-].
  - destruct (sw !! j) as [[]|]; [|apply IH..].
    intros (a & _ & (b & _ & (cur' & Hset & HE)%bind_Ok)%bind_Ok)%bind_Ok.
    rewrite (IH _ HE). unfold setitem in Hset.
    destruct (position _ _); [|done]. injection Hset as <-.
    apply length_insert.
Qed.

Lemma elem_of_not_special (special : gset Z) (ids : list Z) (i : Z) :
  i ∈ model_py.not_special special ids ↔
  ∃ (p : nat) x, i = Z.of_nat p ∧ ids !! p = Some x ∧ x ∉ special.
Proof.
  unfold model_py.not_special, enumerate. rewrite list_elem_of_omap. split.
  - intros ([k y] & (p & y' & [= -> ->] & Hp)%elem_of_lookup_imap & Hf).
    case_bool_decide; [done|]. injection Hf as <-. eauto.
  - intros (p & x & -> & Hp & Hx). exists (Z.of_nat p, x). split.
    + apply elem_of_lookup_imap. eauto.
    + by rewrite bool_decide_eq_false_2.
Qed.

Lemma length_keep_at {A B} (idx : list Z) (l1 : list A) (l2 : list B) :
  length l1 = length l2 →
  length (model_py.keep_at idx l1) = length (model_py.keep_at idx l2).
Proof.
  unfold model_py.keep_at, enumerate. generalize Z.of_nat as h.
  revert l2. induction l1 as [|x l1 IH]; intros [|y l2] h Hlen; try done.
  rewrite !imap_cons. cbn [omap list_omap].
  injection Hlen as Hlen. specialize (IH l2 (h ∘ S) Hlen).
  case_bool_decide; cbn [length]; [f_equal|]; exact IH.
Qed.

(** As many candidates are kept in input order as are picked in
    order of their offsets. *)
Lemma length_keep_at_last_unique (offsets : list Z) :
  length (model_py.keep_at (last_unique_idx offsets) offsets)
  = length (last_unique_idx offsets).
Proof.
  destruct (last_candidates_sorted (λ x : Z, x) offsets)
    as (out & Hout & _ & Hnd & Hin).
  destruct (last_candidates_kept (λ x : Z, x) offsets) as [Hnd' Hin'].
  rewrite list_fmap_id in *.
  rewrite <- (for_each_length _ _ _ Hout).
  replace ((λ x : Z, x) <$> offsets) with offsets in Hnd'
    by (symmetry; apply list_fmap_id).
  apply Permutation_length, NoDup_Permutation; [done..|].
  intros s. by rewrite Hin, Hin'.
Qed.

Lemma model_store_insert_eq (st : model_py.store) (r : model_py.ref)
    (f : model_py.InputFeatures) :
  (<[r := f]> st) r = f.
Proof. apply fn_lookup_insert. Qed.

Lemma model_store_insert_ne (st : model_py.store) (r r' : model_py.ref)
    (f : model_py.InputFeatures) :
  r ≠ r' → (<[r := f]> st) r' = st r'.
Proof. apply fn_lookup_insert_ne. Qed.

Lemma features_loop_shape {row : Type} (special : gset Z)
    (st0 : model_py.store) (features : list model_py.ref)
    (logits : list (list row)) (out_label_ids : list (list Z))
    (Q : Z → Prop) todo st (k : nat) preds offsets lengths st'
    preds' offsets' lengths' :
  (∀ (f : nat) r ids (p : nat) x o,
     features !! f = Some r → out_label_ids !! f = Some ids →
     ids !! p = Some x → x ∉ special →
     model_py.input_offsets (st0 r) !! p = Some o → Q o) →
  (∀ r, r ∈ features →
     length (model_py.input_offsets (st0 r))
     = length (model_py.input_lengths (st0 r))) →
  (∀ r, model_py.input_offsets (st r) = model_py.input_offsets (st0 r) ∧
        length (model_py.input_lengths (st r))
        = length (model_py.input_lengths (st0 r))) →
  length offsets = length lengths → Forall Q offsets →
  model_py.features_loop special st features (Z.of_nat k) todo logits
    out_label_ids (preds, offsets, lengths)
    = (st', Ok (preds', offsets', lengths')) →
  length offsets' = length lengths' ∧ Forall Q offsets'.
Proof.
  intros HQ Hfeat. revert st k preds offsets lengths.
  induction todo as [|todo IH]; intros st k preds offsets lengths Hst Hlen Hall;
    simpl.
  { by intros [= _ _ <- <-]. }
  unfold model_py.feature_step.
  destruct (getitem features (Z.of_nat k)) as [r0|] eqn:Hr0; [|done].
  apply getitem_nat_inv in Hr0.
  destruct (Py.bind (getitem out_label_ids (Z.of_nat k)) _)
    as [[idxKeep kept]|] eqn:Hkeep; [|done].
  apply bind_Ok in Hkeep as (ids & Hids & Hkeep).
  apply getitem_nat_inv in Hids.
  apply bind_Ok in Hkeep as (rows & _ & Hkeep).
  apply bind_Ok in Hkeep as (kept' & _ & [= <- <-]).
  destruct (extend_lengths _ _) as [E0|] eqn:HE0; [|done].
  replace (Z.of_nat k + 1) with (Z.of_nat (S k)) by lia.
  destruct (Hst r0) as [Hoffs Hlens].
  apply extend_from_length in HE0.
  apply IH.
  - intros r. destruct (decide (r0 = r)) as [<-|Hne].
    + rewrite model_store_insert_eq. cbn. split; [done|]. congruence.
    + rewrite model_store_insert_ne by done. apply Hst.
  - rewrite !length_app. f_equal; [done|]. apply length_keep_at.
    rewrite Hoffs, HE0, Hlens. apply Hfeat. by eapply list_elem_of_lookup_2.
  - apply Forall_app. split; [done|]. apply Forall_forall. intros o Ho.
    apply elem_of_keep_at in Ho as (p & Hp & Hin).
    apply elem_of_not_special in Hin as (p' & x & Heq & Hx & Hns).
    apply Nat2Z.inj in Heq as <-. rewrite Hoffs in Hp.
    by eapply (HQ k r0 ids p x o).
Qed.

(** X12. The three arrays the realignment of [predict] (model.py) returns
    have the same number of entries, where every feature object has
    an offset per length; and every offset returned is the offset of
    a position of a feature whose label id is not the id of a special
    token: [CLS], [SEP] and padding give no prediction. *)
Theorem realign_shape {row : Type} (special : gset Z)
    (st : model_py.store) (features : list model_py.ref)
    (logits : list (list row)) (out_label_ids : list (list Z))
    (st' : model_py.store) (preds : list row) (lengths offsets : list Z) :
  (∀ r, r ∈ features →
     length (model_py.input_offsets (st r))
     = length (model_py.input_lengths (st r))) →
  model_py.realign special st features logits out_label_ids
    = (st', Ok (preds, lengths, offsets)) →
  length preds = length offsets ∧ length lengths = length offsets ∧
  ∀ o, o ∈ offsets →
    ∃ (f : nat) r ids (p : nat) x,
      features !! f = Some r ∧ out_label_ids !! f = Some ids ∧
      ids !! p = Some x ∧ (x ∉ special) ∧
      model_py.input_offsets (st r) !! p = Some o.
Proof.
  intros Hfeat. unfold model_py.realign.
  destruct (model_py.features_loop _ _ _ _ _ _ _ _)
    as [st1 [[[ps offs] lens]|]] eqn:Hloop; [|done].
  intros [= _ Hout].
  apply bind_Ok in Hout as (pall & _ & Hout).
  unfold model_py.unique_predictions in Hout.
  apply bind_Ok in Hout as (preds' & Hpreds & [= <- <- <-]).
  apply (features_loop_shape special st features logits out_label_ids
           (λ o, ∃ (f : nat) r ids (p : nat) x,
              features !! f = Some r ∧ out_label_ids !! f = Some ids ∧
              ids !! p = Some x ∧ (x ∉ special) ∧
              model_py.input_offsets (st r) !! p = Some o)
           _ st O) in Hloop as [Hlen Hall]; [| |done|done|done|constructor].
  - split; [|split].
    + rewrite (for_each_length _ _ _ Hpreds).
      by rewrite length_keep_at_last_unique.
    + apply length_keep_at. by symmetry.
    + intros o (i & Ho & _)%elem_of_keep_at.
      rewrite Forall_forall in Hall. apply Hall.
      by eapply list_elem_of_lookup_2.
  - intros f r ids p x o ?????. by exists f, r, ids, p, x.
Qed.

Lemma realign_shape_witness :
  ∃ preds lengths offsets,
    (model_py.realign special_example model_store_example [O]
       [["cls"; "un"; "happy"; "sep"]] [[101; 5; 5; 102]]).2
      = Ok (preds, lengths, offsets) ∧
    length preds = length offsets ∧ length lengths = length offsets ∧
    ∀ o, o ∈ offsets →
      ∃ (f : nat) r ids (p : nat) x,
        [O] !! f = Some r ∧ [[101; 5; 5; 102]] !! f = Some ids ∧
        ids !! p = Some x ∧ (x ∉ special_example) ∧
        model_py.input_offsets (model_store_example r) !! p = Some o.
Proof.
  eexists _, _, _. split; [vm_compute; reflexivity|].
  apply (realign_shape special_example model_store_example [O]
           [["cls"; "un"; "happy"; "sep"]] [[101; 5; 5; 102]]
           (model_py.realign special_example model_store_example [O]
              [["cls"; "un"; "happy"; "sep"]] [[101; 5; 5; 102]]).1).
  - intros r _. reflexivity.
  - vm_compute. reflexivity.
Defined.

(** ** The label maps made when the model is loaded *)

Lemma id2label_from (d : list (string * Z)) (m : gmap Z string) (i : Z)
    (l : string) :
  foldl (λ m '(label, i), <[i := label]> m) m d !! i = Some l →
  m !! i = Some l ∨ (l, i) ∈ d.
Proof.
  revert m. induction d as [|[l' i'] d IH]; intros m; cbn [foldl]; [by left|].
  intros [Hm|Hin]%IH; [|right; by apply list_elem_of_further].
  apply lookup_insert_Some in Hm as [[-> ->]|[_ Hm]]; [|by left].
  right. apply list_elem_of_here.
Qed.

Lemma id2label_frame (d : list (string * Z)) (m : gmap Z string) (i : Z) :
  i ∉ d.*2 →
  foldl (λ m '(label, i), <[i := label]> m) m d !! i = m !! i.
Proof.
  revert m. induction d as [|[l' i'] d IH]; intros m Hi; cbn [foldl]; [done|].
  rewrite fmap_cons in Hi. apply not_elem_of_cons in Hi as [Hne Hi].
  rewrite IH by done. by apply lookup_insert_ne.
Qed.

(** X13. The map from ids to labels inverts [label2id]: the label it gives
    for an id has that id in [label2id]; of the labels that share an
    id, it gives the last one; so where no two labels share an id,
    every label is the label of its id. *)
Theorem id2label_inverts (label2id : list (string * Z)) :
  (∀ i l, model_py.id2label label2id !! i = Some l → (l, i) ∈ label2id) ∧
  (∀ d1 d2 l i, label2id = d1 ++ (l, i) :: d2 → i ∉ d2.*2 →
     model_py.id2label label2id !! i = Some l) ∧
  (NoDup label2id.*2 →
   ∀ l i, (l, i) ∈ label2id → model_py.id2label label2id !! i = Some l).
Proof.
  assert (∀ d1 d2 l i, label2id = d1 ++ (l, i) :: d2 → i ∉ d2.*2 →
            model_py.id2label label2id !! i = Some l) as Hlast.
  { intros d1 d2 l i -> Hi. unfold model_py.id2label.
    rewrite foldl_app. cbn [foldl]. rewrite id2label_frame by done.
    apply lookup_insert_eq. }
  split; [|split; [done|]].
  - intros i l [Hm|Hin]%id2label_from; [|done].
    by rewrite lookup_empty in Hm.
  - intros Hnd l i (d1 & d2 & ->)%list_elem_of_split.
    apply (Hlast d1 d2); [done|].
    rewrite fmap_app, fmap_cons in Hnd.
    apply NoDup_app in Hnd as (_ & _ & Hnd).
    by apply NoDup_cons in Hnd as [Hi _].
Qed.

Lemma elem_of_range_from (x k : Z) (c : nat) :
  k ∈ range_from x 1 c ↔ x ≤ k < x + Z.of_nat c.
Proof.
  revert x. induction c as [|c IH]; intros x; cbn [range_from].
  - rewrite elem_of_nil. lia.
  - rewrite elem_of_cons, IH. lia.
Qed.

Lemma NoDup_range_from (x : Z) (c : nat) : NoDup (range_from x 1 c).
Proof.
  revert x. induction c as [|c IH]; intros x; cbn [range_from];
    constructor; [|apply IH].
  rewrite elem_of_range_from. lia.
Qed.

Lemma for_each_lookup_label_missing (m : gmap Z string) (x k : Z) (c : nat) :
  x ≤ k < x + Z.of_nat c → m !! k = None →
  (∀ j, x ≤ j < k → is_Some (m !! j)) →
  for_each (transformer_py.lookup_label m) (range_from x 1 c)
    = Raise (KeyError k).
Proof.
  revert x. induction c as [|c IH]; intros x Hk Hnone Hbefore; [lia|].
  cbn [range_from for_each]. unfold transformer_py.lookup_label at 1.
  destruct (decide (k = x)) as [->|Hne]; [by rewrite Hnone|].
  destruct (Hbefore x) as [l ->]; [lia|]. cbn [Py.bind].
  rewrite IH; [done|lia|done|]. intros j Hj. apply Hbefore. lia.
Qed.

Lemma least_missing (m : gmap Z string) (n : nat) :
  (∀ k, 0 ≤ k < Z.of_nat n → is_Some (m !! k)) ∨
  (∃ k, 0 ≤ k < Z.of_nat n ∧ m !! k = None ∧
        ∀ j, 0 ≤ j < k → is_Some (m !! j)).
Proof.
  induction n as [|n [IH|(k & Hk & Hnone & Hbefore)]].
  - left. lia.
  - destruct (m !! Z.of_nat n) as [l|] eqn:Hn.
    + left. intros k Hk. destruct (decide (k = Z.of_nat n)) as [->|]; [eauto|].
      apply IH. lia.
    + right. exists (Z.of_nat n). split; [lia|]. split; [done|].
      intros j Hj. apply IH. lia.
  - right. exists k. split; [lia|done].
Qed.

(** X14. The list of labels is made exactly when the ids of
    [config.id2label] are [0], ..., [n - 1]: then it has a label per
    id, at the position of the id; otherwise the look-up of the least
    missing id raises [KeyError]. *)
Theorem labels_of_config (label_map : gmap Z string) :
  (∀ ls, transformer_py.labels label_map = Ok ls →
     length ls = size label_map ∧
     ∀ k l, label_map !! k = Some l ↔ 0 ≤ k ∧ ls !! Z.to_nat k = Some l) ∧
  (∀ e, transformer_py.labels label_map = Raise e →
     ∃ k, e = KeyError k ∧ 0 ≤ k < Z.of_nat (size label_map) ∧
          label_map !! k = None ∧ ∀ j, 0 ≤ j < k → is_Some (label_map !! j)) ∧
  ((∀ k, 0 ≤ k < Z.of_nat (size label_map) → is_Some (label_map !! k)) →
   ∃ ls, transformer_py.labels label_map = Ok ls).
Proof.
  unfold transformer_py.labels. rewrite range_0_n. cbn [Py.bind].
  set (n := size label_map).
  set (ls := (λ k, default String.EmptyString (label_map !! k))
               <$> range_from 0 1 n).
  assert ((∀ k, 0 ≤ k < Z.of_nat n → is_Some (label_map !! k)) →
          for_each (transformer_py.lookup_label label_map) (range_from 0 1 n)
            = Ok ls) as Hall.
  { intros Hall. apply for_each_fmap. intros k Hk%elem_of_range_from.
    unfold transformer_py.lookup_label.
    destruct (Hall k) as [l ->]; [lia|done]. }
  destruct (least_missing label_map n) as [Hfull|(k & Hk & Hnone & Hbefore)].
  - rewrite (Hall Hfull). split; [|split; [done|by eexists]].
    intros ? [= <-]. split.
    { unfold ls. by rewrite length_fmap, length_range_from. }
    assert (dom label_map = list_to_set (range_from 0 1 n)) as Hdom.
    { symmetry. apply set_subseteq_size_eq.
      - intros k Hk%elem_of_list_to_set%elem_of_range_from.
        apply elem_of_dom, Hfull. lia.
      - rewrite size_dom, size_list_to_set by apply NoDup_range_from.
        by rewrite length_range_from. }
    intros k l. split.
    + intros Hl.
      assert (k ∈ dom label_map) as Hin by (apply elem_of_dom; eauto).
      rewrite Hdom, elem_of_list_to_set, elem_of_range_from in Hin.
      split; [lia|]. unfold ls.
      rewrite list_lookup_fmap, range_from_lookup by lia.
      rewrite Z2Nat.id by lia. cbn.
      replace (0 + k * 1) with k by lia. by rewrite Hl.
    + intros [Hk Hl]. unfold ls in Hl.
      apply list_lookup_fmap_Some in Hl as (k' & -> & Hk').
      assert (Z.to_nat k < n)%nat as Hlt.
      { apply lookup_lt_Some in Hk'. by rewrite length_range_from in Hk'. }
      rewrite range_from_lookup in Hk' by done. injection Hk' as <-.
      rewrite Z2Nat.id by lia. replace (0 + k * 1) with k by lia.
      destruct (Hfull k) as [l ->]; [lia|done].
  - rewrite (for_each_lookup_label_missing label_map 0 k n); [|lia|done..].
    split; [done|]. split.
    + intros e [= <-]. by exists k.
    + intros Hfull. destruct (Hfull k Hk) as [l Hl]. congruence.
Qed.

(** ** When [_logits_to_standoff] returns *)

Lemma for_each_total {A B} (f : A → result B) (l : list A) :
  (∀ x, x ∈ l → ∃ y, f x = Ok y) → ∃ ys, for_each f l = Ok ys.
Proof.
  induction l as [|x l IH]; intros Hf; [by exists []|].
  destruct (Hf x) as [y Hy]; [apply list_elem_of_here|].
  destruct IH as [ys Hys].
  { intros x' Hx'. apply Hf. by apply list_elem_of_further. }
  exists (y :: ys). cbn [for_each]. by rewrite Hy, Hys.
Qed.

Lemma argmax_from_bounds (row : list float) (best : float) (best_i i : Z) :
  0 ≤ best_i < i →
  0 ≤ argmax_from best best_i i row < i + Z.of_nat (length row).
Proof.
  revert best best_i i. induction row as [|x row IH]; intros best best_i i Hi;
    cbn [argmax_from length].
  - lia.
  - destruct (PrimFloat.is_nan best); [lia|].
    destruct (PrimFloat.leb x best).
    + specialize (IH best best_i (i + 1)). lia.
    + specialize (IH x i (i + 1)). lia.
Qed.

(** [np.argmax] of a row that is not empty is an index of the row,
    and [np.max] its entry there. *)
Lemma argmax_Ok (row : list float) :
  row ≠ [] →
  ∃ k v, argmax row = Ok k ∧ 0 ≤ k < Z.of_nat (length row) ∧ amax row = Ok v.
Proof.
  destruct row as [|x row]; [done|]. intros _.
  pose proof (argmax_from_bounds row x 0 1 ltac:(lia)) as Hk.
  assert (0 ≤ argmax_from x 0 1 row < Z.of_nat (length (x :: row))) as Hk'
    by (cbn [length]; lia).
  destruct (getitem_in_range (x :: row) _ Hk') as (v & Hv & _).
  exists (argmax_from x 0 1 row), v. split; [done|]. split; [done|].
  unfold amax. cbn [argmax Py.bind]. exact Hv.
Qed.

Lemma token_sw_flag (words : list (option Z)) (k : nat) :
  transformer_py.token_sw words !! k = Some true → (k < length words)%nat.
Proof.
  intros Hk. pose proof (lookup_lt_Some _ _ _ Hk) as Hlt.
  rewrite length_token_sw in Hlt. destruct k as [|k]; [done|]. lia.
Qed.

Lemma windows_loop_Ok (id2label : gmap Z string) (st0 : transformer_py.store)
    (inputs : list transformer_py.ref) (ignore_label : string)
    rows st (k : nat) acc :
  (∀ r, transformer_py.input_subwords (st r)
          = transformer_py.input_subwords (st0 r) ∧
        length (transformer_py.lengths (st r))
          = length (transformer_py.lengths (st0 r))) →
  (∀ (j : nat) ids probs, rows !! j = Some (ids, probs) →
     (∀ id, id ∈ ids → is_Some (id2label !! id)) ∧
     ∃ r, inputs !! (k + j)%nat = Some r ∧
          ∀ p : nat, transformer_py.input_subwords (st0 r) !! p = Some true →
                     (p < length (transformer_py.lengths (st0 r)))%nat) →
  ∃ st',
    transformer_py.windows_loop id2label st inputs (Z.of_nat k) rows
      ignore_label acc = (st', Ok acc).
Proof.
  revert st k acc.
  induction rows as [|[ids probs] rows IH]; intros st k acc Hst Hrows;
    cbn [transformer_py.windows_loop]; [by eexists|].
  destruct (Hrows O ids probs eq_refl) as (Hids & r & Hr & Hflags).
  rewrite Nat.add_0_r in Hr.
  unfold transformer_py.window_step. rewrite (getitem_nat _ _ _ Hr).
  destruct (Hst r) as [Hsub Hlen].
  destruct (extend_from_Ok (transformer_py.input_subwords (st r))
              (length (transformer_py.input_subwords (st r)))
              (transformer_py.lengths (st r))) as (E & HE & HlenE).
  { intros p _ Hp. rewrite Hlen. apply Hflags. by rewrite <- Hsub. }
  unfold extend_lengths. rewrite HE, window_labels_nil.
  rewrite (for_each_fmap _
             (λ id, default String.EmptyString (id2label !! id))).
  2:{ intros id Hid. unfold transformer_py.lookup_label.
      by destruct (Hids id Hid) as [l ->]. }
  cbn [Py.bind]. rewrite app_nil_r.
  replace (Z.of_nat k + 1) with (Z.of_nat (S k)) by lia.
  apply IH.
  - intros r'. destruct (decide (r = r')) as [<-|Hne].
    + rewrite store_insert_eq. cbn. split; [done|]. congruence.
    + rewrite store_insert_ne by done. apply Hst.
  - intros j ids' probs' Hj.
    replace (S k + j)%nat with (k + S j)%nat by lia.
    by apply (Hrows (S j) ids' probs').
Qed.

Lemma logits_to_standoff_Ok (id2label : gmap Z string)
    (st : transformer_py.store) (logits : list (list (list float)))
    (inputs : list transformer_py.ref) (ignore_label : string) :
  (length logits ≤ length inputs)%nat →
  (∀ (i : nat) r, (i < length logits)%nat → inputs !! i = Some r →
     ∀ p : nat, transformer_py.input_subwords (st r) !! p = Some true →
                (p < length (transformer_py.lengths (st r)))%nat) →
  (∀ w row, w ∈ logits → row ∈ w →
     row ≠ [] ∧
     ∀ k, 0 ≤ k < Z.of_nat (length row) → is_Some (id2label !! k)) →
  ∃ st',
    transformer_py._logits_to_standoff id2label st logits inputs ignore_label
      = (st', Ok []).
Proof.
  intros Hinputs Hflags Hrows. unfold transformer_py._logits_to_standoff.
  destruct (for_each_total (for_each argmax) logits) as [pred_id Hid].
  { intros w Hw. apply for_each_total. intros row Hrow.
    destruct (argmax_Ok row) as (k & _ & Hk & _); [by apply (Hrows w)|eauto]. }
  destruct (for_each_total (for_each amax) logits) as [pred_prob Hprob].
  { intros w Hw. apply for_each_total. intros row Hrow.
    destruct (argmax_Ok row) as (_ & v & _ & _ & Hv); [by apply (Hrows w)|eauto]. }
  rewrite Hid, Hprob.
  destruct (windows_loop_Ok id2label st inputs ignore_label
              (zip pred_id pred_prob) st O []) as (st' & Hloop).
  { done. }
  { intros j ids probs [Hids Hprobs]%lookup_zip_Some.
    pose proof Hid as Hid'. apply for_each_Ok in Hid'.
    destruct (Forall2_lookup_r _ _ _ _ _ Hid' Hids) as (w & Hw & Hargmax).
    split.
    - intros id Hin.
      destruct (for_each_elem_of _ _ _ _ Hargmax Hin) as (row & Hrow & Hk).
      destruct (Hrows w row) as [Hne Hlabels];
        [by eapply list_elem_of_lookup_2|done|].
      destruct (argmax_Ok row Hne) as (k & _ & Hk' & Hrange & _).
      apply Hlabels. congruence.
    - assert (j < length logits)%nat as Hj by (by eapply lookup_lt_Some).
      destruct (lookup_lt_is_Some_2 inputs j) as [r Hr]; [lia|].
      exists r. split; [done|]. by apply (Hflags j). }
  change (Z.of_nat 0) with 0 in Hloop. rewrite Hloop.
  by exists st'.
Qed.

(** X15. [_logits_to_standoff] returns, and raises nothing, when there
    is a feature object for every window of the logits, no subword
    flag of such an object is set at a position that has no length,
    every position has the score of at least one label, and
    [id2label] has a label for every index of a score. What it
    returns then is the empty list. *)
Theorem logits_to_standoff_returns (id2label : gmap Z string)
    (st : transformer_py.store) (logits : list (list (list float)))
    (inputs : list transformer_py.ref) (ignore_label : string) :
  (length logits ≤ length inputs)%nat →
  (∀ (i : nat) r, (i < length logits)%nat → inputs !! i = Some r →
     ∀ p : nat, transformer_py.input_subwords (st r) !! p = Some true →
                (p < length (transformer_py.lengths (st r)))%nat) →
  (∀ w row, w ∈ logits → row ∈ w →
     row ≠ [] ∧
     ∀ k, 0 ≤ k < Z.of_nat (length row) → is_Some (id2label !! k)) →
  ∃ st',
    transformer_py._logits_to_standoff id2label st logits inputs ignore_label
      = (st', Ok []) ∧
    ∀ (i : nat) r, (i < length logits)%nat → inputs !! i = Some r →
      length (transformer_py.lengths (st' r))
      = length (transformer_py.lengths (st r)).
Proof.
  intros Hinputs Hflags Hrows.
  destruct (logits_to_standoff_Ok id2label st logits inputs ignore_label
              Hinputs Hflags Hrows) as [st' Hcall].
  exists st'. split; [done|]. intros i r Hi Hr.
  revert Hcall. unfold transformer_py._logits_to_standoff.
  destruct (for_each (for_each argmax) logits) as [pred_id|]; [|done].
  destruct (for_each (for_each amax) logits) as [pred_prob|]; [|done].
  destruct (transformer_py.windows_loop _ _ _ _ _ _ _)
    as [st1 [labels|]] eqn:Hloop; [|done].
  intros [= <- _]. clear Hflags Hrows Hinputs Hi Hr i.
  revert Hloop. generalize 0 at 1. generalize (@nil transformer_py.label).
  generalize (zip pred_id pred_prob) as rows. intros rows. revert st.
  induction rows as [|[ids probs] rows IH]; intros st acc k;
    cbn [transformer_py.windows_loop].
  - by intros [= <- _].
  - unfold transformer_py.window_step.
    destruct (getitem inputs k) as [r0|]; [|done].
    destruct (extend_lengths _ _) as [E|] eqn:HE; [|done].
    destruct (transformer_py.window_labels _ _ _ _ _ _ _ _) as [ls|]; [|done].
    intros Hloop%IH. rewrite Hloop.
    destruct (decide (r0 = r)) as [->|Hne].
    + rewrite store_insert_eq. cbn. by apply extend_from_length in HE.
    + by rewrite store_insert_ne.
Qed.

Lemma logits_to_standoff_returns_witness :
  ∃ st',
    transformer_py._logits_to_standoff id2label_example
      (λ _, feature_subword_example) logits_example [O] "O" = (st', Ok []) ∧
    ∀ (i : nat) r, (i < length logits_example)%nat → [O] !! i = Some r →
      length (transformer_py.lengths (st' r))
      = length (transformer_py.lengths feature_subword_example).
Proof.
  apply (logits_to_standoff_returns id2label_example
           (λ _, feature_subword_example) logits_example [O] "O").
  - simpl. lia.
  - intros i r _ _ p Hp. destruct p as [|[|p]]; simplify_eq/=; lia.
  - intros w row ->%list_elem_of_singleton Hrow.
    apply elem_of_cons in Hrow as [->|Hrow];
      [|apply list_elem_of_singleton in Hrow as ->].
    + split; [done|]. intros k Hk.
      assert (k = 0 ∨ k = 1) as [->| ->] by (simpl in Hk; lia);
        vm_compute; by eexists.
    + split; [done|]. intros k Hk.
      assert (k = 0 ∨ k = 1) as [->| ->] by (simpl in Hk; lia);
        vm_compute; by eexists.
Defined.

(** ** When the realignment of [model.py] returns *)

Lemma NoDup_omap_index {A} (f : Z * A → option Z) (h : nat → Z) (l : list A) :
  (∀ i j, h i = h j → i = j) →
  (∀ i x j, f (i, x) = Some j → j = i) →
  NoDup (omap f (imap (λ i x, (h i, x)) l)).
Proof.
  intros Hinj Hf. revert h Hinj. induction l as [|x l IH]; intros h Hinj.
  - constructor.
  - rewrite imap_cons. cbn [omap list_omap].
    specialize (IH (h ∘ S)).
    destruct (f (h O, x)) as [j|] eqn:Hj.
    + apply Hf in Hj as ->. constructor.
      * rewrite list_elem_of_omap.
        intros ([i y] & (k & y' & [= -> ->] & _)%elem_of_lookup_imap & Hi).
        apply Hf in Hi. by apply Hinj in Hi.
      * apply IH. intros i j Hij. apply Hinj in Hij. lia.
    + apply IH. intros i j Hij. apply Hinj in Hij. lia.
Qed.

Lemma length_keep_at_index {A} (idx : list Z) (h : nat → Z) (l : list A) :
  length (omap (λ '(i, x), if bool_decide (i ∈ idx) then Some x else None)
            (imap (λ i x, (h i, x)) l))
  = length (omap (λ '(i, _), if bool_decide (i ∈ idx) then Some i else None)
              (imap (λ i (x : A), (h i, x)) l)).
Proof.
  revert h. induction l as [|x l IH]; intros h; [done|].
  rewrite !imap_cons. cbn [omap list_omap].
  specialize (IH (h ∘ S)). case_bool_decide; cbn [length]; [f_equal|];
    exact IH.
Qed.

(** No more entries are kept than there are indices to keep, when no
    index is listed twice. *)
Lemma length_keep_at_le {A} (idx : list Z) (l : list A) :
  NoDup idx → (length (model_py.keep_at idx l) ≤ length idx)%nat.
Proof.
  intros Hnd. unfold model_py.keep_at, enumerate.
  rewrite length_keep_at_index. apply submseteq_length, NoDup_submseteq.
  - apply NoDup_omap_index; [apply Nat2Z.inj|].
    intros i x j Hj. case_bool_decide; by simplify_eq.
  - intros i ([j y] & _ & Hi)%list_elem_of_omap.
    case_bool_decide; by simplify_eq.
Qed.

Lemma NoDup_not_special (special : gset Z) (ids : list Z) :
  NoDup (model_py.not_special special ids).
Proof.
  unfold model_py.not_special, enumerate.
  apply NoDup_omap_index; [apply Nat2Z.inj|].
  intros i x j Hj. case_bool_decide; by simplify_eq.
Qed.

Lemma features_loop_Ok {row : Type} (special : gset Z) (st0 : model_py.store)
    (features : list model_py.ref) (logits : list (list row))
    (out_label_ids : list (list Z)) todo st (k : nat) preds offsets lengths :
  (k + todo ≤ length features)%nat →
  (length features ≤ length out_label_ids)%nat →
  (∀ (f : nat) ids, out_label_ids !! f = Some ids →
     ∃ rows, logits !! f = Some rows ∧ (length ids ≤ length rows)%nat) →
  (∀ r, r ∈ features →
     (length (model_py.input_subwords (st0 r))
      ≤ length (model_py.input_lengths (st0 r)))%nat) →
  (∀ r, model_py.input_subwords (st r) = model_py.input_subwords (st0 r) ∧
        length (model_py.input_lengths (st r))
        = length (model_py.input_lengths (st0 r))) →
  (length offsets ≤ length (concat preds))%nat →
  ∃ st' preds' offsets' lengths',
    model_py.features_loop special st features (Z.of_nat k) todo logits
      out_label_ids (preds, offsets, lengths)
      = (st', Ok (preds', offsets', lengths')) ∧
    (length offsets' ≤ length (concat preds'))%nat ∧
    length preds' = (length preds + todo)%nat.
Proof.
  intros Hk Hids Hlogits Hfeat. revert st k preds offsets lengths Hk.
  induction todo as [|todo IH]; intros st k preds offsets lengths Hk Hst Hacc;
    cbn [model_py.features_loop].
  { eexists _, _, _, _. split; [done|]. split; [done|lia]. }
  unfold model_py.feature_step.
  destruct (lookup_lt_is_Some_2 features k) as [r Hr]; [lia|].
  rewrite (getitem_nat _ _ _ Hr).
  destruct (lookup_lt_is_Some_2 out_label_ids k) as [ids Hi]; [lia|].
  rewrite (getitem_nat _ _ _ Hi). cbn [Py.bind].
  destruct (Hlogits k ids Hi) as (rows & Hrows & Hlen).
  rewrite (getitem_nat _ _ _ Hrows). cbn [Py.bind].
  destruct (for_each_total (getitem rows) (model_py.not_special special ids))
    as [kept Hkept].
  { intros i (p & x & -> & Hp & _)%elem_of_not_special.
    destruct (lookup_lt_is_Some_2 rows p) as [y Hy].
    { apply lookup_lt_Some in Hp. lia. }
    exists y. by apply getitem_nat. }
  rewrite Hkept. cbn [Py.bind].
  destruct (Hst r) as [Hsub Hlens].
  destruct (extend_from_Ok (model_py.input_subwords (st r))
              (length (model_py.input_subwords (st r)))
              (model_py.input_lengths (st r))) as (E & HE & HlenE).
  { intros j Hj _. rewrite Hlens. rewrite Hsub in Hj.
    assert (r ∈ features) as Hin by (by eapply list_elem_of_lookup_2).
    specialize (Hfeat r Hin). lia. }
  unfold extend_lengths. rewrite HE.
  replace (Z.of_nat k + 1) with (Z.of_nat (S k)) by lia.
  destruct (IH (<[r := model_py.with_lengths (st r) E]> st) (S k)
              (preds ++ [kept])
              (offsets ++ model_py.keep_at (model_py.not_special special ids)
                            (model_py.input_offsets (st r)))
              (lengths ++ model_py.keep_at (model_py.not_special special ids) E))
    as (st' & preds' & offsets' & lengths' & Hloop & Hle & Hcount).
  - lia.
  - intros r'. destruct (decide (r = r')) as [<-|Hne].
    + rewrite model_store_insert_eq. cbn. split; [done|]. congruence.
    + rewrite model_store_insert_ne by done. apply Hst.
  - rewrite concat_app, !length_app. cbn [concat]. rewrite app_nil_r.
    rewrite (for_each_length _ _ _ Hkept).
    pose proof (length_keep_at_le (model_py.not_special special ids)
                  (model_py.input_offsets (st r))
                  (NoDup_not_special special ids)). lia.
  - exists st', preds', offsets', lengths'. split; [done|]. split; [done|].
    rewrite length_app in Hcount. cbn [length] in Hcount. lia.
Qed.

(** X16. The realignment of [predict] (model.py) raises [ValueError] when
    there is no feature. With at least one feature it returns, and
    raises nothing, when every feature has its row of label ids and
    a row of logits of at least that length, and no subword flag
    beyond its lengths. *)
Theorem realign_returns {row : Type} (special : gset Z)
    (st : model_py.store) (features : list model_py.ref)
    (logits : list (list row)) (out_label_ids : list (list Z)) :
  (length features ≤ length out_label_ids)%nat →
  (∀ (f : nat) ids, out_label_ids !! f = Some ids →
     ∃ rows, logits !! f = Some rows ∧ (length ids ≤ length rows)%nat) →
  (∀ r, r ∈ features →
     (length (model_py.input_subwords (st r))
      ≤ length (model_py.input_lengths (st r)))%nat) →
  (features = [] →
   model_py.realign special st features logits out_label_ids
     = (st, Raise ValueError)) ∧
  (features ≠ [] →
   ∃ st' out,
     model_py.realign special st features logits out_label_ids
       = (st', Ok out)).
Proof.
  intros Hids Hlogits Hfeat. split; [by intros ->|]. intros Hne.
  unfold model_py.realign.
  destruct (features_loop_Ok special st features logits out_label_ids
              (length features) st O [] [] [])
    as (st' & preds & offsets & lengths & Hloop & Hle & Hcount);
    [lia|done..|simpl; lia|].
  change (Z.of_nat 0) with 0 in Hloop. rewrite Hloop.
  destruct preds as [|p preds].
  { destruct features; [done|]. simpl in Hcount. lia. }
  cbn [model_py.np_concatenate Py.bind]. unfold model_py.unique_predictions.
  destruct (for_each_total (getitem (concat (p :: preds)))
              (last_unique_idx offsets)) as [preds' ->].
  { intros i (i' & v & -> & Hv & _)%last_unique_idx_inv.
    destruct (lookup_lt_is_Some_2 (concat (p :: preds)) i') as [y Hy].
    { apply lookup_lt_Some in Hv. lia. }
    exists y. by apply getitem_nat. }
  cbn [Py.bind]. by eexists _, _.
Qed.

Lemma realign_returns_witness :
  ∃ st' out,
    model_py.realign special_example model_store_example [O]
      [["cls"; "un"; "happy"; "sep"]] [[101; 5; 5; 102]] = (st', Ok out).
Proof.
  apply (realign_returns special_example model_store_example [O]
           [["cls"; "un"; "happy"; "sep"]] [[101; 5; 5; 102]]).
  - simpl. lia.
  - intros f ids Hf. destruct f as [|f]; [|done]. injection Hf as <-.
    eexists. split; [done|]. simpl. lia.
  - intros r _. simpl. lia.
  - done.
Defined.

(** ** When [predict] returns *)

(** A feature object of the segment splitter is made of the padded
    encoding of a piece of the text. *)
Lemma split_text_feature (encode : string → bool → transformer_py.Encoding)
    (pad : transformer_py.Encoding → Z → transformer_py.Encoding)
    (max_len_single_sentence model_max_length : Z) (text : string)
    (feature_overlap : option float)
    (inputs : list transformer_py.InputFeatures) (f : transformer_py.InputFeatures) :
  transformer_py._split_text_into_segments encode pad
    max_len_single_sentence model_max_length text feature_overlap = Ok inputs →
  f ∈ inputs →
  ∃ start stop,
    let enc := pad (encode (slice text start stop) true) model_max_length in
    transformer_py.input_ids f = transformer_py.enc_ids enc ∧
    transformer_py.attention_mask f = transformer_py.enc_attention_mask enc ∧
    transformer_py.token_type_ids f = Some (transformer_py.enc_type_ids enc) ∧
    transformer_py.input_subwords f
      = transformer_py.token_sw (transformer_py.enc_words enc) ∧
    transformer_py.offsets f
      = (λ o : Z * Z, o.1 + start) <$> transformer_py.enc_offsets enc ∧
    transformer_py.lengths f
      = (λ o : Z * Z, o.2 - o.1) <$> transformer_py.enc_offsets enc.
Proof.
  intros Hok Hf.
  unfold transformer_py._split_text_into_segments in Hok.
  apply bind_Ok in Hok as (start_idx & _ & Hok).
  apply bind_Ok in Hok as (n & _ & Hok).
  apply bind_Ok in Hok as (idx & _ & Hok).
  apply bind_Ok in Hok as (xs & _ & Hok).
  destruct (for_each_elem_of _ _ _ _ Hok Hf) as (x & _ & Hseg).
  unfold transformer_py.segment in Hseg.
  apply bind_Ok in Hseg as (row & _ & Hseg).
  apply bind_Ok in Hseg as (next & _ & Hseg).
  injection Hseg as <-. by exists row.1, next.1.
Qed.

(** Rows of one length, of 64-bit integers, make a tensor. *)
Lemma tensor_rows_Ok (n : nat) (rows : list (list Z)) :
  (∀ row, row ∈ rows →
     length row = n ∧ Forall (λ x, - 2 ^ 63 ≤ x < 2 ^ 63) row) →
  transformer_py.tensor (Some <$> rows) = Ok rows.
Proof.
  intros Hrows.
  assert (for_each (transformer_py.tensor_row n) (Some <$> rows) = Ok rows)
    as Hall.
  { induction rows as [|row rows IH]; [done|].
    rewrite fmap_cons. cbn [for_each transformer_py.tensor_row].
    destruct (Hrows row (list_elem_of_here _ _)) as [Hlen Hint].
    rewrite !bool_decide_eq_true_2 by done. cbn [Py.bind].
    rewrite IH; [done|]. intros row' Hrow'. apply Hrows.
    by apply list_elem_of_further. }
  unfold transformer_py.tensor. destruct rows as [|row rows]; [done|].
  rewrite fmap_cons in Hall |- *.
  by destruct (Hrows row (list_elem_of_here _ _)) as [-> _].
Qed.

(** X17. [predict] (transformer.py) returns, and raises nothing, for a
    text with at least one token, when the tokenizer gives the text
    as many word ids as offsets, gives every padded encoding the
    same number of ids, of mask entries and of type ids, all 64-bit
    integers, and no more word ids than offsets, and the model gives
    no more windows than there are features, with the scores, for
    every position, of labels that [id2label] knows. What it returns
    then is the empty list. *)
Theorem predict_returns
    (encode : string → bool → transformer_py.Encoding)
    (pad : transformer_py.Encoding → Z → transformer_py.Encoding)
    (max_len_single_sentence model_max_length : Z)
    (model : list (list Z) → list (list Z) → list (option (list Z)) →
             list (list (list float)))
    (id2label : gmap Z string) (text : string) (n : nat) :
  transformer_py.enc_offsets (encode text false) ≠ [] →
  length (transformer_py.enc_words (encode text false))
    = length (transformer_py.enc_offsets (encode text false)) →
  (∀ s, length (transformer_py.enc_ids (pad (encode s true) model_max_length))
        = n ∧
        length (transformer_py.enc_attention_mask
                  (pad (encode s true) model_max_length)) = n ∧
        length (transformer_py.enc_type_ids
                  (pad (encode s true) model_max_length)) = n ∧
        (length (transformer_py.enc_words
                   (pad (encode s true) model_max_length))
         ≤ length (transformer_py.enc_offsets
                     (pad (encode s true) model_max_length)))%nat ∧
        Forall (λ x, - 2 ^ 63 ≤ x < 2 ^ 63)
          (transformer_py.enc_ids (pad (encode s true) model_max_length)) ∧
        Forall (λ x, - 2 ^ 63 ≤ x < 2 ^ 63)
          (transformer_py.enc_attention_mask
             (pad (encode s true) model_max_length)) ∧
        Forall (λ x, - 2 ^ 63 ≤ x < 2 ^ 63)
          (transformer_py.enc_type_ids
             (pad (encode s true) model_max_length))) →
  (∀ ids masks types,
     (length (model ids masks types) ≤ length ids)%nat ∧
     ∀ w row, w ∈ model ids masks types → row ∈ w →
       row ≠ [] ∧
       ∀ k, 0 ≤ k < Z.of_nat (length row) → is_Some (id2label !! k)) →
  transformer_py.predict encode pad max_len_single_sentence model_max_length
    model id2label text None = Ok [].
Proof.
  intros Hne Hwords Htok Hmodel.
  assert (length (transformer_py.token_sw
                    (transformer_py.enc_words (encode text false)))
          = length (transformer_py.enc_offsets (encode text false))) as Hlen.
  { rewrite length_token_sw, Hwords.
    destruct (transformer_py.enc_offsets (encode text false)); [done|].
    simpl. lia. }
  destruct (split_text_rows encode pad max_len_single_sentence
              model_max_length text Hne Hlen) as (rows & inputs & Hok & _).
  unfold transformer_py.predict. rewrite Hok. cbn [Py.bind].
  assert (∀ f, f ∈ inputs →
            ∃ s, let enc := pad (encode s true) model_max_length in
                 transformer_py.input_ids f = transformer_py.enc_ids enc ∧
                 transformer_py.attention_mask f
                   = transformer_py.enc_attention_mask enc ∧
                 transformer_py.token_type_ids f
                   = Some (transformer_py.enc_type_ids enc) ∧
                 transformer_py.input_subwords f
                   = transformer_py.token_sw (transformer_py.enc_words enc) ∧
                 length (transformer_py.lengths f)
                   = length (transformer_py.enc_offsets enc)) as Hfeat.
  { intros f Hf.
    destruct (split_text_feature _ _ _ _ _ _ _ f Hok Hf)
      as (start & stop & Hids & Hmask & Htypes & Hsub & _ & Hlens).
    exists (slice text start stop). cbv zeta.
    rewrite Hlens, length_fmap. done. }
  assert (transformer_py._features_to_tensor inputs
          = Ok (transformer_py.input_ids <$> inputs,
                transformer_py.attention_mask <$> inputs,
                (λ f, default [] (transformer_py.token_type_ids f)) <$> inputs))
    as Htensor.
  { unfold transformer_py._features_to_tensor.
    rewrite (tensor_rows_Ok n).
    2:{ intros row (f & -> & Hf)%list_elem_of_fmap.
        destruct (Hfeat f Hf) as (s & -> & _).
        by destruct (Htok s) as (? & _ & _ & _ & ? & _). }
    cbn [Py.bind]. rewrite (tensor_rows_Ok n).
    2:{ intros row (f & -> & Hf)%list_elem_of_fmap.
        destruct (Hfeat f Hf) as (s & _ & -> & _).
        by destruct (Htok s) as (_ & ? & _ & _ & _ & ? & _). }
    cbn [Py.bind].
    assert (transformer_py.token_type_ids <$> inputs
            = Some <$> ((λ f, default [] (transformer_py.token_type_ids f))
                          <$> inputs)) as ->.
    { rewrite <- list_fmap_compose. apply list_fmap_ext.
      intros i f Hf.
      destruct (Hfeat f) as (s & _ & _ & Ht & _);
        [by eapply list_elem_of_lookup_2|].
      simpl. by rewrite Ht. }
    rewrite (tensor_rows_Ok n); [done|].
    intros row (f & -> & Hf)%list_elem_of_fmap.
    destruct (Hfeat f Hf) as (s & _ & _ & -> & _). cbn [default].
    by destruct (Htok s) as (_ & _ & ? & _ & _ & _ & ?). }
  rewrite Htensor. cbn [Py.bind].
  set (logits := model _ _ _).
  destruct (Hmodel (transformer_py.input_ids <$> inputs)
              (transformer_py.attention_mask <$> inputs)
              (Some <$> ((λ f, default [] (transformer_py.token_type_ids f))
                           <$> inputs))) as [Hcount Hrows].
  fold logits in Hcount, Hrows. rewrite length_fmap in Hcount.
  destruct (logits_to_standoff_Ok id2label (transformer_py.store_of inputs)
              logits (seq 0 (length inputs)) "O") as (st' & Hcall).
  - by rewrite length_seq.
  - intros i r Hi Hr p Hp. apply lookup_seq in Hr as [-> Hlt]. simpl in *.
    destruct (lookup_lt_is_Some_2 inputs i Hlt) as [f Hf].
    assert (transformer_py.store_of inputs i = f) as Hst.
    { unfold transformer_py.store_of.
      change (default (transformer_py.store_of [] O) (inputs !! i) = f).
      by rewrite Hf. }
    rewrite Hst in Hp |- *.
    destruct (Hfeat f) as (s & _ & _ & _ & Hsub & Hlens);
      [by eapply list_elem_of_lookup_2|].
    rewrite Hsub in Hp. apply token_sw_flag in Hp. rewrite Hlens.
    destruct (Htok s) as (_ & _ & _ & Hle & _). lia.
  - done.
  - by rewrite Hcall.
Qed.

Lemma predict_returns_witness :
  transformer_py.predict encode_example pad_example 6 6 model_example
    id2label_example "ab cd ef" None = Ok [].
Proof.
  apply (predict_returns encode_example pad_example 6 6 model_example
           id2label_example "ab cd ef" 6).
  - vm_compute. discriminate.
  - reflexivity.
  - intros s. unfold encode_example.
    repeat case_bool_decide;
      (split; [reflexivity|]; split; [reflexivity|]; split; [reflexivity|];
       split; [vm_compute; lia|];
       repeat split; apply (bool_decide_unpack _); vm_compute; exact I).
  - intros ids masks types. unfold model_example.
    split; [by rewrite length_fmap|].
    intros w row (x & -> & _)%list_elem_of_fmap
      (? & -> & _)%list_elem_of_fmap.
    split; [done|]. intros k Hk.
    assert (k = 0 ∨ k = 1) as [->| ->] by (simpl in Hk; lia);
      vm_compute; by eexists.
Defined.

(** ** The offsets and the lengths of [model.py] go together *)

Lemma keep_at_zip {A B} (idx : list Z) (a : list A) (b : list B) :
  length a = length b →
  model_py.keep_at idx a = (model_py.keep_at idx (zip a b)).*1 ∧
  model_py.keep_at idx b = (model_py.keep_at idx (zip a b)).*2.
Proof.
  intros Hlen. rewrite <- !keep_at_fmap.
  by rewrite fst_zip, snd_zip by lia.
Qed.

Lemma features_loop_aligned {row : Type} (special : gset Z)
    (st0 : model_py.store) (features : list model_py.ref)
    (logits : list (list row)) (out_label_ids : list (list Z))
    (Q : Z * Z → Prop) todo st (k : nat) preds offsets lengths st'
    preds' offsets' lengths' :
  NoDup features →
  (∀ (f : nat) r ids (p : nat) x o len E,
     features !! f = Some r → out_label_ids !! f = Some ids →
     ids !! p = Some x → x ∉ special →
     model_py.input_offsets (st0 r) !! p = Some o →
     extend_lengths (model_py.input_subwords (st0 r))
       (model_py.input_lengths (st0 r)) = Ok E →
     E !! p = Some len → Q (o, len)) →
  (∀ r, r ∈ features →
     length (model_py.input_offsets (st0 r))
     = length (model_py.input_lengths (st0 r))) →
  (∀ (j : nat) r, (k ≤ j)%nat → features !! j = Some r → st r = st0 r) →
  length offsets = length lengths → Forall Q (zip offsets lengths) →
  model_py.features_loop special st features (Z.of_nat k) todo logits
    out_label_ids (preds, offsets, lengths)
    = (st', Ok (preds', offsets', lengths')) →
  length offsets' = length lengths' ∧ Forall Q (zip offsets' lengths').
Proof.
  intros Hnd HQ Hfeat. revert st k preds offsets lengths.
  induction todo as [|todo IH]; intros st k preds offsets lengths Hst Hlen Hall;
    simpl.
  { by intros [= _ _ <- <-]. }
  unfold model_py.feature_step.
  destruct (getitem features (Z.of_nat k)) as [r0|] eqn:Hr0; [|done].
  apply getitem_nat_inv in Hr0.
  destruct (Py.bind (getitem out_label_ids (Z.of_nat k)) _)
    as [[idxKeep kept]|] eqn:Hkeep; [|done].
  apply bind_Ok in Hkeep as (ids & Hids & Hkeep).
  apply getitem_nat_inv in Hids.
  apply bind_Ok in Hkeep as (rows & _ & Hkeep).
  apply bind_Ok in Hkeep as (kept' & _ & [= <- <-]).
  destruct (extend_lengths _ _) as [E0|] eqn:HE0; [|done].
  replace (Z.of_nat k + 1) with (Z.of_nat (S k)) by lia.
  rewrite (Hst k r0) in HE0 |- * by done.
  assert (length (model_py.input_offsets (st0 r0)) = length E0) as HlenE.
  { rewrite (extend_from_length _ _ _ _ HE0). apply Hfeat.
    by eapply list_elem_of_lookup_2. }
  destruct (keep_at_zip (model_py.not_special special ids)
              (model_py.input_offsets (st0 r0)) E0 HlenE) as [Ho Hl].
  apply IH.
  - intros j r Hj Hr.
    assert (r0 ≠ r) as Hne.
    { intros <-. assert (k = j) by (by eapply NoDup_lookup). lia. }
    rewrite model_store_insert_ne by done. apply (Hst j); [lia|done].
  - rewrite !length_app, Ho, Hl, !length_fmap. lia.
  - rewrite zip_with_app by done. apply Forall_app. split; [done|].
    rewrite Ho, Hl, zip_fst_snd. apply Forall_forall. intros [o len] Hin.
    apply elem_of_keep_at in Hin as (p & [Hp HEp]%lookup_zip_Some & Hin).
    apply elem_of_not_special in Hin as (p' & x & Heq & Hx & Hns).
    apply Nat2Z.inj in Heq as <-.
    by eapply (HQ k r0 ids p x o len E0).
Qed.

(** X19. With distinct feature objects that have an offset per
    length, the offsets and the lengths the realignment of [predict]
    (model.py) returns go together position by position: the entries
    at one position are the offset and the extended length of the
    same position of the same feature, and the label id of that
    position is not the id of a special token. *)
Theorem realign_offsets_lengths_aligned {row : Type} (special : gset Z)
    (st : model_py.store) (features : list model_py.ref)
    (logits : list (list row)) (out_label_ids : list (list Z))
    (st' : model_py.store) (preds : list row) (lengths offsets : list Z) :
  NoDup features →
  (∀ r, r ∈ features →
     length (model_py.input_offsets (st r))
     = length (model_py.input_lengths (st r))) →
  model_py.realign special st features logits out_label_ids
    = (st', Ok (preds, lengths, offsets)) →
  ∀ (j : nat) o len, offsets !! j = Some o → lengths !! j = Some len →
    ∃ (f p : nat) r ids x E,
      features !! f = Some r ∧ out_label_ids !! f = Some ids ∧
      ids !! p = Some x ∧ (x ∉ special) ∧
      model_py.input_offsets (st r) !! p = Some o ∧
      extend_lengths (model_py.input_subwords (st r))
        (model_py.input_lengths (st r)) = Ok E ∧
      E !! p = Some len.
Proof.
  intros Hnd Hfeat. unfold model_py.realign.
  destruct (model_py.features_loop _ _ _ _ _ _ _ _)
    as [st1 [[[ps offs] lens]|]] eqn:Hloop; [|done].
  intros [= _ Hout].
  apply bind_Ok in Hout as (pall & _ & Hout).
  unfold model_py.unique_predictions in Hout.
  apply bind_Ok in Hout as (preds' & _ & [= <- <- <-]).
  destruct (features_loop_aligned special st features logits out_label_ids
              (λ ol, ∃ (f p : nat) r ids x E,
                 features !! f = Some r ∧ out_label_ids !! f = Some ids ∧
                 ids !! p = Some x ∧ (x ∉ special) ∧
                 model_py.input_offsets (st r) !! p = Some ol.1 ∧
                 extend_lengths (model_py.input_subwords (st r))
                   (model_py.input_lengths (st r)) = Ok E ∧
                 E !! p = Some ol.2)
              (length features) st O [] [] [] st1 ps offs lens Hnd)
    as [Hlen Hall]; [|done|done|done|constructor|exact Hloop|].
  - intros f r ids p x o len E ???????. by exists f, p, r, ids, x, E.
  - intros j o len Ho Hl.
    destruct (keep_at_zip (last_unique_idx offs) offs lens Hlen) as [Hko Hkl].
    rewrite Hko in Ho. rewrite Hkl in Hl.
    apply list_lookup_fmap_Some in Ho as ([o' len'] & -> & Hpair).
    rewrite list_lookup_fmap, Hpair in Hl. injection Hl as <-.
    rewrite Forall_forall in Hall. apply (Hall (o', len')).
    assert ((o', len') ∈ model_py.keep_at (last_unique_idx offs)
                           (zip offs lens)) as Hin
      by (by eapply list_elem_of_lookup_2).
    apply elem_of_keep_at in Hin as (i & Hi & _).
    by eapply list_elem_of_lookup_2.
Qed.

Lemma realign_offsets_lengths_aligned_witness :
  ∃ preds lengths offsets,
    (model_py.realign special_example model_store_example [O]
       [["cls"; "un"; "happy"; "sep"]] [[101; 5; 5; 102]]).2
      = Ok (preds, lengths, offsets) ∧
    ∀ (j : nat) o len, offsets !! j = Some o → lengths !! j = Some len →
      ∃ (f p : nat) r ids x E,
        [O] !! f = Some r ∧ [[101; 5; 5; 102]] !! f = Some ids ∧
        ids !! p = Some x ∧ (x ∉ special_example) ∧
        model_py.input_offsets (model_store_example r) !! p = Some o ∧
        extend_lengths (model_py.input_subwords (model_store_example r))
          (model_py.input_lengths (model_store_example r)) = Ok E ∧
        E !! p = Some len.
Proof.
  eexists _, _, _. split; [vm_compute; reflexivity|].
  apply (realign_offsets_lengths_aligned special_example model_store_example
           [O] [["cls"; "un"; "happy"; "sep"]] [[101; 5; 5; 102]]
           (model_py.realign special_example model_store_example [O]
              [["cls"; "un"; "happy"; "sep"]] [[101; 5; 5; 102]]).1
           ["un"; "happy"]).
  - apply NoDup_singleton.
  - intros r _. reflexivity.
  - vm_compute. reflexivity.
Defined.
